(** * libnabo, OpenCL back end ([nabo/kdtree_opencl.cpp])

    A shallow embedding of the host-side code of the OpenCL nearest
    neighbour search: the bit-scan sizing functions of the two balanced
    kd-tree layouts, [argMax], the two [buildNodes] recursions, the program
    cache of [initOpenCL] and the argument protocol of [knn].

    Machine model.  [int] is a 32-bit two's complement integer and [size_t]
    a 64-bit unsigned integer (LP64 and LLP64 targets).  Both are carried by
    [Z]; every operation that can leave the range is followed by its wrap
    ([to_int], [to_size_t]).  An operation the C++ standard leaves undefined
    (a shift by 32 or more, an access past the end of a vector, a failed
    [assert]) yields [None]. *)

From Stdlib Require Import ZArith Lia Sorted.
From stdpp Require Import base option list gmap strings pretty.

Local Open Scope Z_scope.

(** ** Machine integers *)

Definition INT_BITS : Z := 32.
Definition SIZE_BITS : Z := 64.

(** Conversion to [size_t]: reduction modulo [2^64]. *)
Definition to_size_t (z : Z) : Z := z mod 2 ^ SIZE_BITS.

(** Conversion to [int]: the representative in [-2^31, 2^31). *)
Definition to_int (z : Z) : Z :=
  (z + 2 ^ (INT_BITS - 1)) mod 2 ^ INT_BITS - 2 ^ (INT_BITS - 1).

(** [1 << i] with an [int] left operand.  The result has type [int]
    whatever the type of [i]; for [i = 31] it is [INT_MIN].  A shift count
    outside [0, 32) is undefined. *)
Definition shl1 (i : Z) : option Z :=
  if (0 <=? i) && (i <? INT_BITS) then Some (to_int (Z.shiftl 1 i)) else None.

(** [elCount & (1 << i)] as a condition: the [int] mask is converted to
    [size_t] (sign extension) before the bitwise and. *)
Definition maskHit (elCount : Z) (i : Z) : option bool :=
  m ← shl1 i; Some (negb (Z.land elCount (to_size_t m) =? 0)).

(** [for (; i >= 0; --i) if (elCount & (1 << i)) break;] with [int i].
    The value is that of [i] when the loop is left. *)
Fixpoint bitScanInt (fuel : nat) (elCount i : Z) : option Z :=
  match fuel with
  | O => None
  | S fuel' =>
      if 0 <=? i then
        hit ← maskHit elCount i;
        if (hit : bool) then Some i else bitScanInt fuel' elCount (to_int (i - 1))
      else Some i
  end.

(** The same loop with [size_t i]: the decrement wraps around [2^64] and
    the guard [i >= 0] holds for every value of [i]. *)
Fixpoint bitScanSize (fuel : nat) (elCount i : Z) : option Z :=
  match fuel with
  | O => None
  | S fuel' =>
      if 0 <=? i then
        hit ← maskHit elCount i;
        if (hit : bool) then Some i else bitScanSize fuel' elCount (to_size_t (i - 1))
      else Some i
  end.

(** [for (int j = 0; j <= i; ++j) count |= (1 << j);] *)
Fixpoint fillLow (fuel : nat) (count j i : Z) : option Z :=
  match fuel with
  | O => None
  | S fuel' =>
      if j <=? i then
        m ← shl1 j;
        fillLow fuel' (Z.lor count (to_size_t m)) (to_int (j + 1)) i
      else Some count
  end.

(** Both loops run over at most the 32 bit positions and the exit test. *)
Definition LOOP_FUEL : nat := 40.

(** Position of the highest set bit, [-1] when there is none. *)
Definition highBit (e : Z) : Z := if e =? 0 then -1 else Z.log2 e.

(** The [int] mask [1 << 31] once converted to [size_t]: bits 31 to 63. *)
Definition highMask : Z := 2 ^ 64 - 2 ^ 31.

(** ** Implicit addressing of the node array *)

(** Modelled from the spec: [childLeft] and [childRight] are declared in
    [nabo_private.h], which is not among the sources; the spec describes a
    flat, implicitly addressed binary tree whose children sit at fixed
    offsets derived from the parent position.  The heap layout (root at 0,
    children of [p] at [2p+1] and [2p+2]) is the one for which a complete
    tree of depth [d] fills exactly the positions below [2^(d+1)-1]. *)
Definition childLeft (pos : Z) : Z := to_size_t (2 * pos + 1).
Definition childRight (pos : Z) : Z := to_size_t (2 * pos + 2).

(** [q] lies in the subtree of the implicit layout rooted at [p]: some
    ancestor of [q] is [p] (positions are shifted by one, so that the
    ancestors of [q] are the halvings of [q + 1]). *)
Definition inSubtree (p q : Z) : Prop := ∃ k, 0 <= k ∧ (q + 1) / 2 ^ k = p + 1.

(** ** Scalars, vectors and the point cloud *)

(** The scalar type [T] of the library is [float] or [double].  The host
    code only compares scalars, subtracts them and copies them; it is
    embedded over any type with a decidable strict weak order, which is what
    [<] and [>] are on floating-point numbers other than NaN (two scalars
    may compare equal without being identical, as [+0] and [-0] do). *)
Class Scalar (T : Type) := {
  zero : T;
  gtb : T → T → bool;
  sub : T → T → T;
  gtb_irrefl : ∀ a, gtb a a = false;
  gtb_trans : ∀ a b c, gtb a b = true → gtb b c = true → gtb a c = true;
  gtb_cotrans : ∀ a b c, gtb a c = true → gtb a b = true ∨ gtb b c = true
}.

(** [Vector]: a column of coordinates.  [v.coeff(i)] and [v[i]] are not
    range checked. *)
Definition coeff {T} (v : list T) (i : nat) : option T := v !! i.

(** Component-wise [a - b]. *)
Definition vsub `{Scalar T} (a b : list T) : list T := zip_with sub a b.

(** [Matrix]: the cloud and the queries, one column per point.  [Flags] is
    a compile-time constant of the matrix type, of which the code tests
    [DirectAccessBit] and [RowMajorBit]. *)
Record Matrix (T : Type) := {
  columns : list (list T);
  rows : Z;
  stride : Z;
  directAccess : bool;
  rowMajor : bool
}.
Arguments columns {T}. Arguments rows {T}. Arguments stride {T}.
Arguments directAccess {T}. Arguments rowMajor {T}.

Definition cols {T} (m : Matrix T) : Z := Z.of_nat (length (columns m)).

(** [m.coeff(row, col)] *)
Definition mcoeff {T} (m : Matrix T) (row col : nat) : option T :=
  c ← columns m !! col; c !! row.

(** ** argMax *)

Section ArgMax.
Context `{Scalar T}.

(** The loop of [argMax] from index [i] on, with the running
    [maxVal] and [maxIdx]. *)
Fixpoint argMaxLoop (v : list T) (i : nat) (maxVal : T) (maxIdx : nat) : nat :=
  match v with
  | [] => maxIdx
  | x :: v' =>
      if gtb x maxVal then argMaxLoop v' (S i) x i
      else argMaxLoop v' (S i) maxVal maxIdx
  end.

Definition argMax (v : list T) : nat := argMaxLoop v 0 zero 0.

(** What the loop of [argMax] maintains after the prefix [pre]:
    [maxVal] bounds the prefix; and either it was taken from the first
    position attaining it, or nothing has exceeded the initial zero
    yet. *)
Definition argMaxInv (pre : list T) (maxVal : T) (maxIdx : nat) : Prop :=
  (∀ y, y ∈ pre → gtb y maxVal = false)
  ∧ ((pre !! maxIdx = Some maxVal
      ∧ ∀ j y, (j < maxIdx)%nat → pre !! j = Some y → gtb maxVal y = true)
     ∨ (maxIdx = 0%nat ∧ gtb maxVal zero = false ∧ gtb zero maxVal = false)).
End ArgMax.

(** ** std::nth_element *)

(** [nth_element first nth last comp] rearranges the range; which
    rearrangement is left to the standard library.  The builders rely on
    its being a rearrangement of the same elements. *)
Class NthElement := {
  nth_element : ∀ {A}, (A → A → bool) → nat → list A → list A;
  nth_element_perm : ∀ A (comp : A → A → bool) (nth : nat) (l : list A),
      nth_element comp nth l ≡ₚ l
}.

(** A vector element assignment [v[pos] = x]; past the end it is
    undefined. *)
Definition store {A} (pos : Z) (x : A) (v : list A) : option (list A) :=
  if (0 <=? pos) && (pos <? Z.of_nat (length v))
  then Some (<[Z.to_nat pos := x]> v) else None.

(** ** Points-in-leaves variant *)

Module PtInLeaves.

Definition getTreeSize (elCount : Z) : option Z :=
  if elCount =? 0 then None (* assert(elCount > 0) *)
  else
    let elCount := to_size_t (elCount - 1) in
    i ← bitScanInt LOOP_FUEL elCount 31;
    count ← fillLow LOOP_FUEL 0 0 i;
    let count := to_size_t (Z.shiftl count 1) in
    Some (Z.lor count 1).

Definition getTreeDepth (elCount : Z) : option Z :=
  if elCount <=? 1 then Some 0
  else
    let elCount := to_size_t (elCount - 1) in
    i ← bitScanSize LOOP_FUEL elCount 31;
    Some (to_size_t (i + 1)).

(** [BuildPoint]: a point and its index in the cloud. *)
Record BuildPoint (T : Type) := { pos : list T; index : Z }.
Arguments pos {T}. Arguments index {T}.

(** [Node]: [dim] is the cut dimension or, when negative, a leaf tag. *)
Record Node (T : Type) := { dim : Z; cutVal : T }.
Arguments dim {T}. Arguments cutVal {T}.

Section Build.
Context `{Scalar T} `{NthElement}.

(** [Node(d)]: the default of the second constructor argument is
    declared in [nabo_private.h]; it is unused in a leaf. *)
Definition leafNode (d : Z) : Node T := {| dim := d; cutVal := zero |}.

(** [CompareDim(cutDim)]: orders build points by their coordinate
    along [cutDim]. *)
Definition CompareDim (cutDim : nat) (a b : BuildPoint T) : bool :=
  match coeff (pos a) cutDim, coeff (pos b) cutDim with
  | Some x, Some y => gtb y x
  | _, _ => false
  end.

(** [buildNodes(first, last, pos, minValues, maxValues)].  The range
    [first, last) is passed as the list of its elements: the two
    recursive calls work on disjoint halves of it, and the vector of
    build points is not read again after the build. *)
Fixpoint buildNodes (fuel : nat) (pts : list (BuildPoint T)) (pos_ : Z)
    (minValues maxValues : list T) (nodes : list (Node T))
    : option (list (Node T)) :=
  match fuel with
  | O => None
  | S fuel' =>
      let count := Z.of_nat (length pts) in
      if count =? 1 then
        first ← head pts;
        let d := to_int (-2 - index first) in
        store pos_ (leafNode d) nodes
      else
        let cutDim := argMax (vsub maxValues minValues) in
        let rightCount := count / 2 in
        let leftCount := to_size_t (count - rightCount) in
        let pts := nth_element (CompareDim cutDim) (Z.to_nat leftCount) pts in
        nth ← pts !! Z.to_nat leftCount;
        cutVal ← coeff (pos nth) cutDim;
        nodes ← store pos_ {| dim := to_int (Z.of_nat cutDim); cutVal := cutVal |} nodes;
        let leftMaxValues := <[cutDim := cutVal]> maxValues in
        let rightMinValues := <[cutDim := cutVal]> minValues in
        nodes ← buildNodes fuel' (take (Z.to_nat leftCount) pts) (childLeft pos_)
                  minValues leftMaxValues nodes;
        buildNodes fuel' (drop (Z.to_nat leftCount) pts) (childRight pos_)
          rightMinValues maxValues nodes
  end.
End Build.

(** *** Reading the node array back

    The tree stored in the array, as a traversal from the root decodes
    it: a tag [dim <= -2] is a leaf holding the point [-2 - dim], a
    non-negative [dim] is a split whose children sit at [childLeft] and
    [childRight].  The tag [-1] is not written by this variant. *)
Inductive Tree := Leaf (idx : Z) | Split (cutDim : Z) (l r : Tree).

Fixpoint decode {T} (fuel : nat) (nodes : list (Node T)) (p : Z) : option Tree :=
  match fuel with
  | O => None
  | S fuel' =>
      n ← nodes !! Z.to_nat p;
      if dim n <=? -2 then Some (Leaf (-2 - dim n))
      else if 0 <=? dim n then
        l ← decode fuel' nodes (childLeft p);
        r ← decode fuel' nodes (childRight p);
        Some (Split (dim n) l r)
      else None
  end.

(** Number of edges on the longest path from the root to a leaf. *)
Fixpoint depth (t : Tree) : Z :=
  match t with
  | Leaf _ => 0
  | Split _ l r => 1 + Z.max (depth l) (depth r)
  end.

(** Point indices decoded from the leaf sentinels, left to right. *)
Fixpoint leafIndices (t : Tree) : list Z :=
  match t with
  | Leaf i => [i]
  | Split _ l r => leafIndices l ++ leafIndices r
  end.

(** Leaf tags as stored. *)
Fixpoint leafTags (t : Tree) : list Z :=
  match t with
  | Leaf i => [-2 - i]
  | Split _ l r => leafTags l ++ leafTags r
  end.

(** Array positions occupied by a tree rooted at [p]. *)
Fixpoint positions (t : Tree) (p : Z) : list Z :=
  match t with
  | Leaf _ => [p]
  | Split _ l r => p :: positions l (childLeft p) ++ positions r (childRight p)
  end.

(** Points as the constructor makes them: [dimN] coordinates each and
    an index that fits the leaf tag. *)
Definition wfPoint {T} (dimN : nat) (bp : BuildPoint T) : Prop :=
  length (pos bp) = dimN ∧ 0 <= index bp <= 2 ^ 31 - 2.

(** What a call of [buildNodes] on [pts] at [p] with depth budget [d]
    achieves, from the array [nodes] to [nodes']: the array keeps its
    size, a traversal from [p] decodes the tree [t], whose leaves hold
    the indices of [pts] and whose depth is within the budget (and equal
    to it when [pts] has more than [2^(d-1)] points), and only the
    positions of [t] were written. *)
Definition built {T} (d : nat) (pts : list (BuildPoint T)) (p : Z)
    (nodes nodes' : list (Node T)) (t : Tree) : Prop :=
  length nodes' = length nodes
  ∧ (∀ f, (d < f)%nat → decode f nodes' p = Some t)
  ∧ leafIndices t ≡ₚ index <$> pts
  ∧ depth t <= Z.of_nat d
  ∧ (2 ^ Z.of_nat d < 2 * Z.of_nat (length pts) → depth t = Z.of_nat d)
  ∧ Forall (λ q, inSubtree p q ∧ 0 <= q < Z.of_nat (length nodes)) (positions t p)
  ∧ (∀ q, 0 <= q → q ∉ positions t p → nodes' !! Z.to_nat q = nodes !! Z.to_nat q).

(** Depth budget of a build over [n >= 1] points: the least [d] with
    [n <= 2^d]. *)
Definition budget (n : Z) : nat := Z.to_nat (highBit (n - 1) + 1).

End PtInLeaves.

(** ** Points-in-nodes variant *)

Module PtInNodes.

Definition getTreeSize (elCount : Z) : option Z :=
  i ← bitScanInt LOOP_FUEL elCount 31;
  fillLow LOOP_FUEL 0 0 i.

Definition getTreeDepth (elCount : Z) : option Z :=
  i ← bitScanInt LOOP_FUEL elCount 31;
  Some (to_size_t (to_int (i + 1))).

(** [Node]: [dim] is the cut dimension, [-1] for a leaf or [-2] for an
    absent node; [index] is the index of a point of the cloud. *)
Record Node := { dim : Z; index : Z }.

Section Build.
Context `{Scalar T} `{NthElement}.
Variable cloud : Matrix T.

(** [CompareDim(cloud, cutDim)]: orders point indices by the coordinate
    of their points along [cutDim]. *)
Definition CompareDim (cutDim : nat) (a b : Z) : bool :=
  match mcoeff cloud cutDim (Z.to_nat a), mcoeff cloud cutDim (Z.to_nat b) with
  | Some x, Some y => gtb y x
  | _, _ => false
  end.

(** [buildNodes(first, last, pos, minValues, maxValues)]; the range is
    passed as the list of its elements, as in the other variant. *)
Fixpoint buildNodes (fuel : nat) (pts : list Z) (pos : Z)
    (minValues maxValues : list T) (nodes : list Node) : option (list Node) :=
  match fuel with
  | O => None
  | S fuel' =>
      let count := Z.of_nat (length pts) in
      if count =? 1 then
        first ← head pts;
        store pos {| dim := -1; index := first |} nodes
      else
        let cutDim := argMax (vsub maxValues minValues) in
        let recurseCount := to_size_t (count - 1) in
        let rightCount := recurseCount / 2 in
        let leftCount := to_size_t (recurseCount - rightCount) in
        let pts := nth_element (CompareDim cutDim) (Z.to_nat leftCount) pts in
        index_ ← pts !! Z.to_nat leftCount;
        cutVal ← mcoeff cloud cutDim (Z.to_nat index_);
        nodes ← store pos {| dim := to_int (Z.of_nat cutDim); index := index_ |} nodes;
        let leftMaxValues := <[cutDim := cutVal]> maxValues in
        let rightMinValues := <[cutDim := cutVal]> minValues in
        if count >? 2 then
          nodes ← buildNodes fuel' (take (Z.to_nat leftCount) pts) (childLeft pos)
                    minValues leftMaxValues nodes;
          buildNodes fuel' (drop (Z.to_nat leftCount + 1) pts) (childRight pos)
            rightMinValues maxValues nodes
        else
          first ← head pts;
          nodes ← store (childLeft pos) {| dim := -1; index := first |} nodes;
          store (childRight pos) {| dim := -2; index := 0 |} nodes
  end.
End Build.

(** *** Reading the node array back

    [dim = -1] is a leaf owning the point [index], [dim = -2] marks an
    absent node, a non-negative [dim] is a split that owns the point
    [index] and has its children at [childLeft] and [childRight]. *)
Inductive Tree :=
| Leaf (idx : Z)
| Absent
| Split (cutDim : Z) (idx : Z) (l r : Tree).

Fixpoint decode (fuel : nat) (nodes : list Node) (p : Z) : option Tree :=
  match fuel with
  | O => None
  | S fuel' =>
      n ← nodes !! Z.to_nat p;
      if dim n =? -1 then Some (Leaf (index n))
      else if dim n =? -2 then Some Absent
      else if 0 <=? dim n then
        l ← decode fuel' nodes (childLeft p);
        r ← decode fuel' nodes (childRight p);
        Some (Split (dim n) (index n) l r)
      else None
  end.

(** Number of edges on the longest path from the root to a node that
    holds a point; an absent node is an empty subtree. *)
Fixpoint depth (t : Tree) : Z :=
  match t with
  | Leaf _ => 0
  | Absent => -1
  | Split _ _ l r => 1 + Z.max (depth l) (depth r)
  end.

(** Point indices found in the leaves and in the split nodes. *)
Fixpoint pointIndices (t : Tree) : list Z :=
  match t with
  | Leaf i => [i]
  | Absent => []
  | Split _ i l r => i :: pointIndices l ++ pointIndices r
  end.

(** An absent marker only ever pads the right of a one-point leaf. *)
Fixpoint absentIsPadding (t : Tree) : bool :=
  match t with
  | Leaf _ => true
  | Absent => false
  | Split _ _ (Leaf _) Absent => true
  | Split _ _ l r => absentIsPadding l && absentIsPadding r
  end.

(** Array positions occupied by a tree rooted at [p], markers included. *)
Fixpoint positions (t : Tree) (p : Z) : list Z :=
  match t with
  | Leaf _ | Absent => [p]
  | Split _ _ l r => p :: positions l (childLeft p) ++ positions r (childRight p)
  end.

(** A build point is the index of a column of the cloud that has the
    [dimN] coordinates the cut dimensions range over. *)
Definition wfIndex {T} (cloud : Matrix T) (dimN : nat) (i : Z) : Prop :=
  0 <= i ∧ ∃ c, columns cloud !! Z.to_nat i = Some c ∧ (dimN <= length c)%nat.

(** What a call of [buildNodes] on [pts] at [p] with depth budget [d]
    achieves, from the array [nodes] to [nodes']: the array keeps its
    size, a traversal from [p] decodes the tree [t], whose leaves and
    splits hold the indices [pts], absent markers only pad one-point
    leaves, the depth is within the budget (and equal to it when [pts]
    has [2^d] points or more), and only the positions of [t] were
    written. *)
Definition built (d : nat) (pts : list Z) (p : Z)
    (nodes nodes' : list Node) (t : Tree) : Prop :=
  length nodes' = length nodes
  ∧ (∀ f, (d < f)%nat → decode f nodes' p = Some t)
  ∧ pointIndices t ≡ₚ pts
  ∧ absentIsPadding t = true
  ∧ 0 <= depth t <= Z.of_nat d
  ∧ (2 ^ Z.of_nat d <= Z.of_nat (length pts) → depth t = Z.of_nat d)
  ∧ Forall (λ q, inSubtree p q ∧ 0 <= q < Z.of_nat (length nodes)) (positions t p)
  ∧ (∀ q, 0 <= q → q ∉ positions t p → nodes' !! Z.to_nat q = nodes !! Z.to_nat q).

(** Depth budget of a build over [n >= 1] points: the greatest [d] with
    [2^d <= n]. *)
Definition budget (n : Z) : nat := Z.to_nat (highBit n).

End PtInNodes.

(** ** The OpenCL host side *)

(** Exceptions thrown by the host code: [std::runtime_error] with its
    message, and [cl::Error] with the OpenCL status it was raised for.
    [aborted] is no exception: it stands for a failed [assert] and for a
    step that has no defined behaviour. *)
Inductive exn :=
| runtime_error (what : string)
| cl_Error (err : Z)
| aborted (what : string).

Definition CL_SUCCESS : Z := 0.
Definition CL_INVALID_KERNEL : Z := -48.

(** Maximum number of points acceptable in a query. *)
Definition MAX_K : Z := 32.

(** The template argument [T] as far as [EnableCLTypeSupport<T>] and
    [numeric_limits<T>] depend on it. *)
Inductive ScalarKind := CLfloat | CLdouble.

Definition Device := nat.

(** The end of line written by ["\n"] and [endl]. *)
Definition nl : string := String (Ascii.ascii_of_nat 10) EmptyString.

(** [cl::Program]: the sources it was created from, and whether a build of
    it has succeeded. *)
Record Program := { programSources : list string; programBuilt : bool }.

(** A kernel argument, by what the host binds to the slot. *)
Inductive Arg (T : Type) :=
| BufCloud | BufQuery | BufIndices | BufDists2 | BufVisitCount | BufNodes
| ArgInt (z : Z)
| ArgOnePlus (epsilon : T).
Arguments BufCloud {T}. Arguments BufQuery {T}. Arguments BufIndices {T}.
Arguments BufDists2 {T}. Arguments BufVisitCount {T}. Arguments BufNodes {T}.
Arguments ArgInt {T}. Arguments ArgOnePlus {T}.

Record Kernel (T : Type) := {
  kernelProgram : Program;
  kernelName : string;
  kernelArgs : gmap nat (Arg T)
}.
Arguments kernelProgram {T}. Arguments kernelName {T}. Arguments kernelArgs {T}.

Record SourceCacher := {
  devices : list Device;
  cachedPrograms : gmap string Program
}.

(** What lies outside the file: the constants of the build system and of
    [nabo.h], the OpenCL runtime, the file system, the device code and the
    size check of the base class.  Of the runtime, the class has the calls
    whose outcome the host code inspects or reports: the devices of a
    context, the build of a program with its log, the creation of a kernel
    and what the kernel writes.  The creation of a context, of a program
    object, of a command queue and of a buffer, and the enqueue, map and
    finish calls, are taken to succeed: the [cl::Error] that they can throw
    is not part of the model, which therefore says nothing about those
    errors and, where they occur, nothing about a call returning. *)
Class Platform (T : Type) := {
  OPENCL_SOURCE_DIR : string;
  TOUCH_STATISTICS : Z;
  (** [context.getInfo<CL_CONTEXT_DEVICES>()] for a device type; [None]
      when there is no platform *)
  contextDevices : Z → option (list Device);
  deviceExtensions : Device → string;
  deviceName : Device → string;
  (** contents of a file, [None] when it cannot be opened *)
  readFile : string → option string;
  (** status of [program.build(devices)] *)
  programBuild : list string → list Device → Z;
  (** [program.getBuildInfo<CL_PROGRAM_BUILD_LOG>(device)] *)
  buildLog : list string → Device → string;
  (** status of [cl::Kernel(program, kernelName)] *)
  kernelCreate : Program → string → Z;
  (** what the device writes: indices, squared distances, visit counts *)
  kernelRun : Kernel T → Matrix T → Matrix Z → Matrix T →
              Matrix Z * Matrix T * list Z;
  (** [checkSizesKnn] of the base class: the exception it throws, if any *)
  checkSizesKnn : Matrix T → Matrix Z → Matrix T → Z → option exn
}.

(** The state the host code works on: the process-wide context manager,
    the error stream, the kernel of the search object and the two output
    matrices of the caller. *)
Record World (T : Type) := {
  contextManager : gmap Z SourceCacher;
  cerr : list string;
  knnKernel : option (Kernel T);
  indices : Matrix Z;
  dists2 : Matrix T
}.
Arguments contextManager {T}. Arguments cerr {T}. Arguments knnKernel {T}.
Arguments indices {T}. Arguments dists2 {T}.

(** The fields of [OpenCLSearch<T>] and of its base class that the code
    reads; [minBound] and [maxBound] are as the base class constructor
    leaves them. *)
Record Search (T : Type) := {
  scalarKind : ScalarKind;
  cloud : Matrix T;
  dim : Z;
  creationOptionFlags : Z;
  deviceType : Z;
  minBound : list T;
  maxBound : list T
}.
Arguments scalarKind {T}. Arguments cloud {T}. Arguments dim {T}.
Arguments creationOptionFlags {T}. Arguments deviceType {T}.
Arguments minBound {T}. Arguments maxBound {T}.

(** State and exception monad; a thrown exception keeps the state reached
    when it was thrown. *)
Definition M (W A : Type) : Type := W → (exn + A) * W.

Definition ret {W A} (a : A) : M W A := λ w, (inr a, w).
Definition throw {W A} (e : exn) : M W A := λ w, (inl e, w).
Definition bind {W A B} (c : M W A) (k : A → M W B) : M W B :=
  λ w, match c w with
       | (inl e, w') => (inl e, w')
       | (inr a, w') => k a w'
       end.
Definition get {W} : M W W := λ w, (inr w, w).

Declare Scope host_scope.
Delimit Scope host_scope with host.
Notation "x <- c ;; k" := (bind c (λ x, k))
  (at level 100, c at next level, right associativity) : host_scope.
Notation "c ;; k" := (bind c (λ _, k))
  (at level 100, right associativity) : host_scope.
Local Open Scope host_scope.

Section Host.
Context {T : Type} `{Platform T}.
Local Abbreviation W := (World T).

Definition setCacher (deviceType : Z) (c : SourceCacher) : M W unit :=
  λ w, (inr tt, {| contextManager := <[deviceType := c]> (contextManager w);
                   cerr := cerr w; knnKernel := knnKernel w;
                   indices := indices w; dists2 := dists2 w |}).

Definition print (s : string) : M W unit :=
  λ w, (inr tt, {| contextManager := contextManager w;
                   cerr := cerr w ++ [s]; knnKernel := knnKernel w;
                   indices := indices w; dists2 := dists2 w |}).

Definition setKernel (k : Kernel T) : M W unit :=
  λ w, (inr tt, {| contextManager := contextManager w;
                   cerr := cerr w; knnKernel := Some k;
                   indices := indices w; dists2 := dists2 w |}).

Definition setOutputs (i : Matrix Z) (d : Matrix T) : M W unit :=
  λ w, (inr tt, {| contextManager := contextManager w;
                   cerr := cerr w; knnKernel := knnKernel w;
                   indices := i; dists2 := d |}).

(** [knnKernel.setArg(slot, value)] *)
Definition setArg (slot : nat) (a : Arg T) : M W unit :=
  w <- get;;
  match knnKernel w with
  | None => throw (cl_Error CL_INVALID_KERNEL)
  | Some k => setKernel {| kernelProgram := kernelProgram k;
                           kernelName := kernelName k;
                           kernelArgs := <[slot := a]> (kernelArgs k) |}
  end.

(** [SourceCacher::SourceCacher].  The choice of the platform and the
    fall back to any device type are part of [contextDevices]; the message
    that the fall back writes to the error stream is not modelled. *)
Definition newSourceCacher (deviceType : Z) : M W SourceCacher :=
  match contextDevices deviceType with
  | None => throw (runtime_error "No OpenCL platform found")
  | Some [] => throw (runtime_error "No devices on OpenCL platform")
  | Some ds => ret {| devices := ds; cachedPrograms := ∅ |}
  end.

(** [ContextManager::createContext] *)
Definition createContext (deviceType : Z) : M W unit :=
  w <- get;;
  match contextManager w !! deviceType with
  | Some _ => ret tt
  | None => c <- newSourceCacher deviceType;; setCacher deviceType c
  end.

(** [ContextManager::getSourceCacher] *)
Definition getSourceCacher (deviceType : Z) : M W SourceCacher :=
  w <- get;;
  match contextManager w !! deviceType with
  | None => throw (runtime_error "Attempt to get source cacher before creating a context")
  | Some c => ret c
  end.

(** [SourceCacher::contains] *)
Definition contains (c : SourceCacher) (source : string) : bool :=
  bool_decide (is_Some (cachedPrograms c !! source)).

Definition collectStatistics (creationOptionFlags : Z) : bool :=
  negb (Z.land creationOptionFlags TOUCH_STATISTICS =? 0).

(** [s.find(needle) != string::npos] *)
Fixpoint found (needle s : string) : bool :=
  String.prefix needle s ||
  match s with
  | EmptyString => false
  | String _ s' => found needle s'
  end.

(** [EnableCLTypeSupport<T>::code(device)] *)
Definition typeSupportCode (kind : ScalarKind) (device : Device) : M W string :=
  match kind with
  | CLfloat => ret ("typedef float T;" +:+ nl)
  | CLdouble =>
      let exts := deviceExtensions device in
      if found "cl_khr_fp64" exts then
        ret ("#pragma OPENCL EXTENSION cl_khr_fp64 : enable" +:+ nl
             +:+ "typedef double T;" +:+ nl)
      else if found "cl_amd_fp64" exts then
        ret ("#pragma OPENCL EXTENSION cl_amd_fp64 : enable" +:+ nl
             +:+ "typedef double T;" +:+ nl)
      else throw (runtime_error
        "The OpenCL platform does not support 64 bits double-precision floating-points scalars.")
  end.

(** [oss << numeric_limits<T>::epsilon()] with the default format of
    the stream (six significant digits). *)
Definition epsilonText (kind : ScalarKind) : string :=
  match kind with
  | CLfloat => "1.19209e-07"
  | CLdouble => "2.22045e-16"
  end.

(** The macro header that [initOpenCL] writes into [oss]. *)
Definition defines (self : Search T) (device : Device) (additionalDefines : string)
    : M W string :=
  code <- typeSupportCode (scalarKind self) device;;
  ret (code
       +:+ "#define EPSILON " +:+ epsilonText (scalarKind self) +:+ nl
       +:+ "#define DIM_COUNT " +:+ pretty (dim self) +:+ nl
       +:+ "#define POINT_STRIDE " +:+ pretty (stride (cloud self)) +:+ nl
       +:+ "#define MAX_K " +:+ pretty MAX_K +:+ nl
       +:+ (if collectStatistics (creationOptionFlags self)
            then "#define TOUCH_STATISTICS" +:+ nl else EmptyString)
       +:+ additionalDefines).

(** The loop over [files]: each file is opened and read whole. *)
Fixpoint loadFiles (files : list string) : M W (list string) :=
  match files with
  | [] => ret []
  | file :: files' =>
      match readFile file with
      | None => throw (runtime_error ("cannot open file: " +:+ file))
      | Some content => rest <- loadFiles files';; ret (content :: rest)
      end
  end.

(** The dump of the compilation logs, one device after the other. *)
Fixpoint dumpLogs (sources : list string) (ds : list Device) : M W unit :=
  match ds with
  | [] => ret tt
  | d :: ds' =>
      print ("device : " +:+ deviceName d +:+ nl);;
      print ("compilation log:" +:+ nl +:+ buildLog sources d +:+ nl);;
      dumpLogs sources ds'
  end.

(** [OpenCLSearch<T>::initOpenCL] *)
Definition initOpenCL (self : Search T) (clFileName kernelName additionalDefines : string)
    : M W unit :=
  sourceCacher <- getSourceCacher (deviceType self);;
  let devs := devices sourceCacher in
  match last devs with
  | None => throw (aborted "devices.back() on an empty vector")
  | Some back =>
      source <- defines self back additionalDefines;;
      (if contains sourceCacher source then ret tt
       else
         files <- loadFiles [OPENCL_SOURCE_DIR +:+ "structure.cl";
                             OPENCL_SOURCE_DIR +:+ "heap.cl";
                             OPENCL_SOURCE_DIR +:+ clFileName];;
         let sources := source :: files in
         (* sourceCacher->cachedPrograms[source] = cl::Program(context, sources) *)
         setCacher (deviceType self)
           {| devices := devs;
              cachedPrograms :=
                <[source := {| programSources := sources; programBuilt := false |}]>
                  (cachedPrograms sourceCacher) |};;
         (* build: program refers to the entry of the cache *)
         let error := programBuild sources devs in
         (if error =? CL_SUCCESS then
            setCacher (deviceType self)
              {| devices := devs;
                 cachedPrograms :=
                   <[source := {| programSources := sources; programBuilt := true |}]>
                     (cachedPrograms sourceCacher) |}
          else ret tt);;
         (* dump *)
         dumpLogs sources devs;;
         (* make sure to stop if compilation failed *)
         if error =? CL_SUCCESS then ret tt else throw (cl_Error error));;
      (* cl::Program& program = sourceCacher->cachedPrograms[source] *)
      sourceCacher <- getSourceCacher (deviceType self);;
      match cachedPrograms sourceCacher !! source with
      | None => throw (aborted "program missing from the cache")
      | Some program =>
          let status := kernelCreate program kernelName in
          if status =? CL_SUCCESS then
            setKernel {| kernelProgram := program; kernelName := kernelName;
                         kernelArgs := ∅ |};;
            if negb (directAccess (cloud self)) || rowMajor (cloud self) then
              throw (runtime_error "wrong memory mapping in point cloud")
            else setArg 0 BufCloud
          else throw (cl_Error status)
      end
  end.

(** [OpenCLSearch<T>::knn].  The output matrices [indices] and [dists2]
    of the caller are the ones held by the state. *)
Definition knn (self : Search T) (query : Matrix T) (k : Z) (epsilon : T)
    (optionFlags : Z) : M W Z :=
  w <- get;;
  match checkSizesKnn query (indices w) (dists2 w) k with
  | Some e => throw e
  | None =>
      let collect := collectStatistics (creationOptionFlags self) in
      (* check K *)
      if k >? MAX_K then
        throw (runtime_error "number of neighbors too large for OpenCL")
      else if negb (stride query =? stride (cloud self))
              || negb (rows query =? rows (cloud self)) then
        throw (runtime_error "query is not of the same dimensionality as the point cloud")
      else if negb (directAccess query) || rowMajor query then
        throw (runtime_error "wrong memory mapping in query data")
      else
        setArg 1 BufQuery;;
        (if directAccess (indices w) && negb (rowMajor (indices w)) then ret tt
         else throw (aborted "assert on the layout of indices"));;
        let indexStride := stride (indices w) in
        setArg 2 BufIndices;;
        (if directAccess (dists2 w) && negb (rowMajor (dists2 w)) then ret tt
         else throw (aborted "assert on the layout of dists2"));;
        let dists2Stride := stride (dists2 w) in
        setArg 3 BufDists2;;
        setArg 4 (ArgInt k);;
        setArg 5 (ArgOnePlus epsilon);;
        setArg 6 (ArgInt optionFlags);;
        setArg 7 (ArgInt indexStride);;
        setArg 8 (ArgInt dists2Stride);;
        setArg 9 (ArgInt (cols (cloud self)));;
        (if collect then setArg 10 BufVisitCount else ret tt);;
        (* execute query *)
        w <- get;;
        match knnKernel w with
        | None => throw (cl_Error CL_INVALID_KERNEL)
        | Some kernel =>
            let '(i, d, visitCounts) := kernelRun kernel query (indices w) (dists2 w) in
            setOutputs i d;;
            if collect then ret (to_size_t (foldr Z.add 0 visitCounts))
            else ret 0
        end
  end.
End Host.

(** ** The three search objects *)

Section Constructors.
Context {T : Type} `{Scalar T} `{NthElement} `{Platform T}.
Local Abbreviation W := (World T).

(** [std::min] and [std::max] on scalars *)
Definition smin (a b : T) : T := if gtb a b then b else a.
Definition smax (a b : T) : T := if gtb b a then b else a.

(** [cloud.block(0, i, dim, 1)] *)
Definition block (self : Search T) (column : list T) : list T :=
  take (Z.to_nat (dim self)) column.

(** The loop that folds every point of the cloud into the bounds. *)
Definition computeBounds (self : Search T) : list T * list T :=
  foldl (λ '(lo, hi) column,
           let v := block self column in
           (zip_with smin lo v, zip_with smax hi v))
        (minBound self, maxBound self) (columns (cloud self)).

(** [OpenCLSearch<T>::OpenCLSearch] after the constructor of the base
    class *)
Definition OpenCLSearch (self : Search T) : M W unit :=
  createContext (deviceType self).

(** [BruteForceSearchOpenCL<T>::BruteForceSearchOpenCL] *)
Definition BruteForceSearchOpenCL (self : Search T) : M W unit :=
  OpenCLSearch self;;
  let '(lo, hi) := computeBounds self in
  initOpenCL self "knn_bf.cl" "knnBruteForce" EmptyString.

(** [(boost::format("#define MAX_STACK_DEPTH %1%\\n") % maxStackDepth).str()] *)
Definition stackDepthDefine (maxStackDepth : Z) : string :=
  "#define MAX_STACK_DEPTH " +:+ pretty maxStackDepth +:+ nl.

(** Conversion to [unsigned]. *)
Definition to_unsigned (z : Z) : Z := z mod 2 ^ INT_BITS.

(** A step without defined behaviour ends the construction. *)
Definition defined {A} (what : string) (o : option A) : M W A :=
  match o with
  | Some a => ret a
  | None => throw (aborted what)
  end.

(** [KDTreeBalancedPtInLeavesStackOpenCL<T>::KDTreeBalancedPtInLeavesStackOpenCL];
    [defaultNode] is what [resize] fills the array with.  The result is
    the member [nodes]. *)
Definition KDTreeBalancedPtInLeavesStackOpenCL (self : Search T)
    (defaultNode : PtInLeaves.Node T) : M W (list (PtInLeaves.Node T)) :=
  OpenCLSearch self;;
  (* build point vector and compute bounds *)
  let buildPoints :=
    imap (λ i column, {| PtInLeaves.pos := block self column;
                         PtInLeaves.index := Z.of_nat i |})
         (columns (cloud self)) in
  let '(lo, hi) := computeBounds self in
  (* create nodes *)
  size <- defined "getTreeSize" (PtInLeaves.getTreeSize (cols (cloud self)));;
  let nodes := replicate (Z.to_nat size) defaultNode in
  nodes <- defined "buildNodes"
    (PtInLeaves.buildNodes (length buildPoints) buildPoints 0 lo hi nodes);;
  depth <- defined "getTreeDepth"
    (PtInLeaves.getTreeDepth (Z.of_nat (length nodes)));;
  let maxStackDepth := to_unsigned (depth + 1) in
  (* init openCL *)
  initOpenCL self "knn_kdtree_pt_in_leaves.cl" "knnKDTree"
    (stackDepthDefine maxStackDepth);;
  (* map nodes *)
  setArg 10 BufNodes;;
  ret nodes.

(** [KDTreeBalancedPtInNodesStackOpenCL<T>::KDTreeBalancedPtInNodesStackOpenCL] *)
Definition KDTreeBalancedPtInNodesStackOpenCL (self : Search T)
    (defaultNode : PtInNodes.Node) : M W (list PtInNodes.Node) :=
  OpenCLSearch self;;
  let collect := collectStatistics (creationOptionFlags self) in
  (* build point vector and compute bounds *)
  let buildPoints := Z.of_nat <$> seq 0 (length (columns (cloud self))) in
  let '(lo, hi) := computeBounds self in
  (* create nodes *)
  size <- defined "getTreeSize" (PtInNodes.getTreeSize (cols (cloud self)));;
  let nodes := replicate (Z.to_nat size) defaultNode in
  nodes <- defined "buildNodes"
    (PtInNodes.buildNodes (cloud self) (length buildPoints) buildPoints 0 lo hi nodes);;
  depth <- defined "getTreeDepth"
    (PtInNodes.getTreeDepth (Z.of_nat (length nodes)));;
  let maxStackDepth := to_unsigned (depth + 1) in
  (* init openCL *)
  initOpenCL self "knn_kdtree_pt_in_nodes.cl" "knnKDTree"
    (stackDepthDefine maxStackDepth);;
  (* map nodes *)
  (if collect then setArg 11 BufNodes else setArg 10 BufNodes);;
  ret nodes.
End Constructors.

(** ** Concrete instances *)

(** Integers as scalars. *)
#[export] Program Instance Z_Scalar : Scalar Z :=
  {| zero := 0; gtb a b := b <? a; sub := Z.sub |}.
Next Obligation. intros; cbn; lia. Qed.
Next Obligation. cbn; intros; lia. Qed.
Next Obligation. cbn; intros a b c ?; destruct (b <? a) eqn:?; [left|right]; lia. Qed.

(** A full insertion sort is one admissible [nth_element]. *)
Fixpoint insertBy {A} (comp : A → A → bool) (x : A) (l : list A) : list A :=
  match l with
  | [] => [x]
  | y :: l' => if comp x y then x :: l else y :: insertBy comp x l'
  end.

Definition sortBy {A} (comp : A → A → bool) (l : list A) : list A :=
  foldr (insertBy comp) [] l.

Lemma insertBy_perm {A} (comp : A → A → bool) x l : insertBy comp x l ≡ₚ x :: l.
Proof.
  induction l as [|y l IH]; cbn; [done|].
  destruct (comp x y); [done|]. rewrite IH. apply Permutation_swap.
Qed.

Lemma sortBy_perm {A} (comp : A → A → bool) l : sortBy comp l ≡ₚ l.
Proof.
  induction l as [|y l IH]; cbn; [done|]. by rewrite insertBy_perm, IH.
Qed.

#[export] Instance sort_NthElement : NthElement :=
  {| nth_element A comp nth l := sortBy comp l;
     nth_element_perm A comp nth l := sortBy_perm comp l |}.

(** ** Definitions used by the statements *)

(** The tree size of the points-in-leaves variant as the specification
    words it: [(((1<<(h+1))-1) << 1) | 1] with [h] the position of the
    highest set bit of [n-1], and [1] for a single point. *)
Definition specLeavesTreeSize (n : Z) : Z :=
  if n =? 1 then 1
  else let h := Z.log2 (n - 1) in Z.lor (Z.shiftl (Z.shiftl 1 (h + 1) - 1) 1) 1.

(** The tree size of the points-in-nodes variant as the specification
    words it: [(1<<(h+1))-1] with [h] the position of the highest set bit
    of [n]. *)
Definition specNodesTreeSize (n : Z) : Z :=
  let h := Z.log2 n in Z.shiftl 1 (h + 1) - 1.

(** Five points in the plane, used to run the builders. *)
Definition exampleCloud : Matrix Z :=
  {| columns := [[1; 2]; [3; 1]; [5; 5]; [2; 9]; [7; 7]];
     rows := 2; stride := 2; directAccess := true; rowMajor := false |}.

Definition examplePoints : list (PtInLeaves.BuildPoint Z) :=
  imap (λ i c, {| PtInLeaves.pos := c; PtInLeaves.index := Z.of_nat i |})
       (columns exampleCloud).

Definition exampleLeavesNodes : list (PtInLeaves.Node Z) :=
  replicate 15 {| PtInLeaves.dim := -1; PtInLeaves.cutVal := 0 |}.

Definition exampleNodesNodes : list PtInNodes.Node :=
  replicate 7 {| PtInNodes.dim := -2; PtInNodes.index := 0 |}.

(** A cloud of a single point. *)
Definition singleCloud : Matrix Z :=
  {| columns := [[4; 2]];
     rows := 2; stride := 2; directAccess := true; rowMajor := false |}.

(** Extents with a tie between the axes 1 and 2. *)
Definition exampleExtents : list Z := [3; 7; 7; 2].

Definition CL_BUILD_PROGRAM_FAILURE : Z := -11.
Definition CL_INVALID_PROGRAM_EXECUTABLE : Z := -45.

(** A platform with one device on which every file can be read; the
    compiler accepts a program or not according to [compiles], and a kernel
    can only be created from a program that was built. *)
Definition examplePlatform (compiles : bool) : Platform Z :=
  {| OPENCL_SOURCE_DIR := "/opencl/";
     TOUCH_STATISTICS := 1;
     contextDevices := λ _, Some [0%nat];
     deviceExtensions := λ _, "cl_khr_fp64";
     deviceName := λ _, "device0";
     readFile := λ file, Some ("// " +:+ file);
     programBuild := λ _ _, if compiles then CL_SUCCESS else CL_BUILD_PROGRAM_FAILURE;
     buildLog := λ _ _, if compiles then "ok" else "error: syntax";
     kernelCreate := λ program _,
       if programBuilt program then CL_SUCCESS else CL_INVALID_PROGRAM_EXECUTABLE;
     kernelRun := λ _ _ i d, (i, d, [3; 4]);
     checkSizesKnn := λ _ _ _ _, None |}.

Definition emptyMatrix {A} : Matrix A :=
  {| columns := []; rows := 0; stride := 0; directAccess := true; rowMajor := false |}.

Definition exampleWorld : World Z :=
  {| contextManager := ∅; cerr := []; knnKernel := None;
     indices := emptyMatrix; dists2 := emptyMatrix |}.

Definition exampleSearch (flags : Z) : Search Z :=
  {| scalarKind := CLfloat; cloud := exampleCloud; dim := 2;
     creationOptionFlags := flags; deviceType := 4;
     minBound := [100; 100]; maxBound := [-100; -100] |}.

Definition capacityError : exn :=
  runtime_error "number of neighbors too large for OpenCL".

Definition exampleSource : string :=
  "typedef float T;" +:+ nl
  +:+ "#define EPSILON 1.19209e-07" +:+ nl
  +:+ "#define DIM_COUNT 2" +:+ nl
  +:+ "#define POINT_STRIDE 2" +:+ nl
  +:+ "#define MAX_K 32" +:+ nl.

(** The world in which the context of the example search exists. *)
Definition exampleContext : World Z :=
  {| contextManager := {[ 4 := {| devices := [0%nat]; cachedPrograms := ∅ |} ]};
     cerr := []; knnKernel := None;
     indices := emptyMatrix; dists2 := emptyMatrix |}.

Definition exampleLeavesDefault : PtInLeaves.Node Z :=
  {| PtInLeaves.dim := -1; PtInLeaves.cutVal := 0 |}.
Definition exampleNodesDefault : PtInNodes.Node :=
  {| PtInNodes.dim := -2; PtInNodes.index := 0 |}.

(** What the dump of [initOpenCL] writes to the error stream for the
    devices [ds]: the name of each device and its compilation log. *)
Definition compileLogs `{Platform T} (sources : list string) (ds : list Device)
    : list string :=
  ds ≫= λ d, ["device : " +:+ deviceName d +:+ nl;
              "compilation log:" +:+ nl +:+ buildLog sources d +:+ nl].

(** A computation that never ends with the capacity error. *)
Definition noCapacityError {T A} (c : M (World T) A) : Prop :=
  ∀ w, fst (c w) ≠ inl capacityError.

(** ** Orderings, frames and trees with cut values *)

(** What [std::nth_element] guarantees beyond a rearrangement, when the
    comparison is a strict weak ordering of the elements of the range: the
    element at [nth] is the one a sort would put there, and no element from
    [nth] on is less than an element up to [nth]. *)
Class NthElementOrder `{NthElement} := {
  nth_element_partition :
    ∀ A (comp : A → A → bool) (nth : nat) (l : list A) (i j : nat) (x y : A),
      (∀ a, a ∈ l → comp a a = false) →
      (∀ a b c, a ∈ l → b ∈ l → c ∈ l →
                comp a b = true → comp b c = true → comp a c = true) →
      (∀ a b c, a ∈ l → b ∈ l → c ∈ l →
                comp a c = true → comp a b = true ∨ comp b c = true) →
      (i <= nth)%nat → (nth <= j)%nat →
      nth_element comp nth l !! i = Some x →
      nth_element comp nth l !! j = Some y →
      comp y x = false
}.

(** The tree of the points-in-leaves variant read back with its cut
    values. *)
Inductive CutTree (T : Type) :=
| CLeaf (idx : Z)
| CSplit (cutDim : Z) (cutVal : T) (l r : CutTree T).
Arguments CLeaf {T}.
Arguments CSplit {T}.

Fixpoint decodeCut {T} (fuel : nat) (nodes : list (PtInLeaves.Node T)) (p : Z)
    : option (CutTree T) :=
  match fuel with
  | O => None
  | S fuel' =>
      n ← nodes !! Z.to_nat p;
      if PtInLeaves.dim n <=? -2 then Some (CLeaf (-2 - PtInLeaves.dim n))
      else if 0 <=? PtInLeaves.dim n then
        l ← decodeCut fuel' nodes (childLeft p);
        r ← decodeCut fuel' nodes (childRight p);
        Some (CSplit (PtInLeaves.dim n) (PtInLeaves.cutVal n) l r)
      else None
  end.

(** The same tree without its cut values. *)
Fixpoint eraseCut {T} (t : CutTree T) : PtInLeaves.Tree :=
  match t with
  | CLeaf i => PtInLeaves.Leaf i
  | CSplit c _ l r => PtInLeaves.Split c (eraseCut l) (eraseCut r)
  end.

(** Point indices in the leaves of a tree with cut values. *)
Definition cutLeaves {T} (t : CutTree T) : list Z :=
  PtInLeaves.leafIndices (eraseCut t).

(** At every split the left subtree has as many leaves as the right one,
    or one more. *)
Fixpoint cutBalanced {T} (t : CutTree T) : bool :=
  match t with
  | CLeaf _ => true
  | CSplit _ _ l r =>
      let nl := length (cutLeaves l) in
      let nr := length (cutLeaves r) in
      ((nl =? nr)%nat || (nl =? S nr)%nat) && cutBalanced l && cutBalanced r
  end.

(** The cut dimensions of the splits. *)
Fixpoint cutDims {T} (t : CutTree T) : list Z :=
  match t with
  | CLeaf _ => []
  | CSplit c _ l r => c :: cutDims l ++ cutDims r
  end.

(** The search order of a kd-tree: along the cut dimension of a split,
    no point of the left subtree lies above the cut value and no point of
    the right subtree lies below it.  [pointOf] gives the coordinates of a
    point index. *)
Fixpoint cutOrdered `{Scalar T} (pointOf : Z → option (list T)) (t : CutTree T) : bool :=
  match t with
  | CLeaf _ => true
  | CSplit c v l r =>
      forallb (λ i, match pointOf i ≫= (λ pos, pos !! Z.to_nat c) with
                    | Some x => negb (gtb x v)
                    | None => false
                    end) (cutLeaves l)
      && forallb (λ i, match pointOf i ≫= (λ pos, pos !! Z.to_nat c) with
                       | Some x => negb (gtb v x)
                       | None => false
                       end) (cutLeaves r)
      && cutOrdered pointOf l && cutOrdered pointOf r
  end.

(** The same three for the points-in-nodes variant, whose splits hold a
    point: its coordinate along the cut dimension is the cut value. *)
Fixpoint nodesBalanced (t : PtInNodes.Tree) : bool :=
  match t with
  | PtInNodes.Split _ _ l r =>
      let nl := length (PtInNodes.pointIndices l) in
      let nr := length (PtInNodes.pointIndices r) in
      ((nl =? nr)%nat || (nl =? S nr)%nat) && nodesBalanced l && nodesBalanced r
  | _ => true
  end.

Fixpoint nodesCutDims (t : PtInNodes.Tree) : list Z :=
  match t with
  | PtInNodes.Split c _ l r => c :: nodesCutDims l ++ nodesCutDims r
  | _ => []
  end.

(** [cloud.coeff(c, a) <= cloud.coeff(c, b)], false when either is
    missing. *)
Definition coordLe `{Scalar T} (cloud : Matrix T) (c : Z) (a b : Z) : bool :=
  match mcoeff cloud (Z.to_nat c) (Z.to_nat a), mcoeff cloud (Z.to_nat c) (Z.to_nat b) with
  | Some x, Some y => negb (gtb x y)
  | _, _ => false
  end.

Fixpoint nodesOrdered `{Scalar T} (cloud : Matrix T) (t : PtInNodes.Tree) : bool :=
  match t with
  | PtInNodes.Split c i l r =>
      forallb (λ j, coordLe cloud c j i) (PtInNodes.pointIndices l)
      && forallb (λ j, coordLe cloud c i j) (PtInNodes.pointIndices r)
      && nodesOrdered cloud l && nodesOrdered cloud r
  | _ => true
  end.

(** The insertion sort leaves every element not less than the ones
    before it. *)
Lemma insertBy_elem_of {A} (comp : A → A → bool) x y l :
  y ∈ insertBy comp x l ↔ y = x ∨ y ∈ l.
Proof. rewrite insertBy_perm. apply elem_of_cons. Qed.

Lemma insertBy_sorted {A} (comp : A → A → bool) (S : list A) x l :
  (∀ a, a ∈ S → comp a a = false) →
  (∀ a b c, a ∈ S → b ∈ S → c ∈ S →
            comp a b = true → comp b c = true → comp a c = true) →
  x ∈ S → (∀ a, a ∈ l → a ∈ S) →
  StronglySorted (λ a b, comp b a = false) l →
  StronglySorted (λ a b, comp b a = false) (insertBy comp x l).
Proof.
  intros Hirr Htr Hx Hl Hs. induction Hs as [|y l Hs IH Hy]; cbn.
  - by repeat constructor.
  - assert (Hy' : y ∈ S) by (apply Hl; by left).
    destruct (comp x y) eqn:Hxy.
    + constructor; [by constructor|]. apply Forall_cons. split.
      * destruct (comp y x) eqn:Hyx; [|done].
        pose proof (Htr x y x Hx Hy' Hx Hxy Hyx) as Hxx.
        by rewrite Hirr in Hxx.
      * apply Forall_forall. intros z Hz. destruct (comp z x) eqn:Hzx; [|done].
        assert (Hz' : z ∈ S) by (apply Hl; by right).
        pose proof (Htr z x y Hz' Hx Hy' Hzx Hxy) as Hzy.
        eapply Forall_forall in Hy; [|done]. congruence.
    + constructor.
      * apply IH. intros a Ha. apply Hl. by right.
      * apply Forall_forall. intros z Hz. apply insertBy_elem_of in Hz as [->|Hz];
          [done|]. by eapply Forall_forall in Hy.
Qed.

Lemma sortBy_sorted {A} (comp : A → A → bool) (l : list A) :
  (∀ a, a ∈ l → comp a a = false) →
  (∀ a b c, a ∈ l → b ∈ l → c ∈ l →
            comp a b = true → comp b c = true → comp a c = true) →
  StronglySorted (λ a b, comp b a = false) (sortBy comp l).
Proof.
  intros Hirr Htr.
  assert (Hsub : ∀ l', l' ⊆ l →
            StronglySorted (λ a b, comp b a = false) (sortBy comp l')).
  { induction l' as [|x l' IH]; intros Hl'; cbn; [constructor|].
    apply (insertBy_sorted comp l); try done.
    - apply Hl'. by left.
    - intros a Ha. apply Hl'. right. by rewrite <- (sortBy_perm comp l').
    - apply IH. intros a Ha. apply Hl'. by right. }
  by apply Hsub.
Qed.

Lemma StronglySorted_lookup_le {A} (R : A → A → Prop) (l : list A) i j x y :
  StronglySorted R l → (i < j)%nat → l !! i = Some x → l !! j = Some y → R x y.
Proof.
  intros Hs. revert i j. induction Hs as [|z l Hs IH Hz]; intros i j Hij Hi Hj; [done|].
  destruct i as [|i], j as [|j]; try lia; cbn in *.
  - injection Hi as <-. eapply Forall_forall in Hz; [done|].
    by eapply list_elem_of_lookup_2.
  - eapply (IH i j); [lia|done|done].
Qed.

#[export] Instance sort_NthElementOrder : @NthElementOrder sort_NthElement.
Proof.
  constructor. intros A comp nth l i j x y Hirr Htr _ Hi Hj Hx Hy. cbn in Hx, Hy.
  destruct (decide (i = j)) as [->|Hne].
  - rewrite Hx in Hy. injection Hy as <-. apply Hirr.
    rewrite <- (sortBy_perm comp l). by eapply list_elem_of_lookup_2.
  - apply (StronglySorted_lookup_le (λ a b, comp b a = false) (sortBy comp l) i j);
      [by apply sortBy_sorted|lia|done|done].
Qed.

(** A computation whose exceptions all satisfy [Q]. *)
Definition throwsOnly {T A} (Q : exn → Prop) (c : M (World T) A) : Prop :=
  ∀ w e, fst (c w) = inl e → Q e.

(** A computation that moves the state along [R], however it ends. *)
Definition preserves {T A} (R : World T → World T → Prop) (c : M (World T) A) : Prop :=
  ∀ w, R w (snd (c w)).

(** What a query leaves alone between two kernels of the search object:
    the program, the name, the cloud at slot 0 and the slots from 11 on. *)
Definition sameKernelButQuery {T} (k k' : option (Kernel T)) : Prop :=
  match k, k' with
  | None, None => True
  | Some k, Some k' =>
      kernelProgram k' = kernelProgram k ∧ kernelName k' = kernelName k
      ∧ kernelArgs k' !! 0%nat = kernelArgs k !! 0%nat
      ∧ ∀ slot, (11 <= slot)%nat → kernelArgs k' !! slot = kernelArgs k !! slot
  | _, _ => False
  end.

(** What a query leaves alone in the state: the contexts with their
    program caches, the error stream, and [sameKernelButQuery]. *)
Definition queryFrame {T} (w w' : World T) : Prop :=
  contextManager w' = contextManager w ∧ cerr w' = cerr w
  ∧ sameKernelButQuery (knnKernel w) (knnKernel w').

(** The arguments that a query binds over those of the kernel it finds. *)
Definition queryArgs {T} (self : Search T) (k : Z) (epsilon : T) (optionFlags : Z)
    (indexStride dists2Stride : Z) (collect : bool) (args : gmap nat (Arg T))
    : gmap nat (Arg T) :=
  let args := <[9%nat := ArgInt (cols (cloud self))]>
             (<[8%nat := ArgInt dists2Stride]>
             (<[7%nat := ArgInt indexStride]>
             (<[6%nat := ArgInt optionFlags]>
             (<[5%nat := ArgOnePlus epsilon]>
             (<[4%nat := ArgInt k]>
             (<[3%nat := BufDists2]>
             (<[2%nat := BufIndices]>
             (<[1%nat := BufQuery]> args)))))))) in
  if collect then <[10%nat := BufVisitCount]> args else args.

(** A query with three rows, against the two of the example cloud. *)
Definition exampleQuery3 : Matrix Z :=
  {| columns := [[1; 2; 3]]; rows := 3; stride := 3;
     directAccess := true; rowMajor := false |}.

(** What [initOpenCL] leaves alone in the state, however it ends: no
    context appears or disappears, the devices of a context stay, no
    program leaves a cache or is replaced in it, the error stream only
    grows and the output matrices are not touched. *)
Definition cacheGrows {T} (w w' : World T) : Prop :=
  (∀ dt, contextManager w !! dt = None → contextManager w' !! dt = None)
  ∧ (∀ dt c, contextManager w !! dt = Some c →
       ∃ c', contextManager w' !! dt = Some c' ∧ devices c' = devices c
             ∧ ∀ s p, cachedPrograms c !! s = Some p → cachedPrograms c' !! s = Some p)
  ∧ cerr w `prefix_of` cerr w'
  ∧ indices w' = indices w ∧ dists2 w' = dists2 w.

(** The state with another kernel. *)
Definition withKernel {T} (w : World T) (k : Kernel T) : World T :=
  {| contextManager := contextManager w; cerr := cerr w; knnKernel := Some k;
     indices := indices w; dists2 := dists2 w |}.

(** The example platform without one of its files. *)
Definition examplePlatformWithout (missing : string) : Platform Z :=
  {| OPENCL_SOURCE_DIR := "/opencl/";
     TOUCH_STATISTICS := 1;
     contextDevices := λ _, Some [0%nat];
     deviceExtensions := λ _, "cl_khr_fp64";
     deviceName := λ _, "device0";
     readFile := λ file, if decide (file = missing) then None else Some ("// " +:+ file);
     programBuild := λ _ _, CL_SUCCESS;
     buildLog := λ _ _, "ok";
     kernelCreate := λ _ _, CL_SUCCESS;
     kernelRun := λ _ _ i d, (i, d, [3; 4]);
     checkSizesKnn := λ _ _ _ _, None |}.

(** The state that the brute-force constructor leaves on the example
    platform. *)
Definition exampleReady : World Z :=
  snd (@BruteForceSearchOpenCL Z _ (examplePlatform true) (exampleSearch 0)
         exampleWorld).

(** A search over the cloud of a single point, with the header of the
    example search. *)
Definition exampleSearchSingle : Search Z :=
  {| scalarKind := CLfloat; cloud := singleCloud; dim := 2;
     creationOptionFlags := 0; deviceType := 4;
     minBound := [100; 100]; maxBound := [-100; -100] |}.

(** A search over a cloud without points. *)
Definition exampleSearchEmpty : Search Z :=
  {| scalarKind := CLfloat; cloud := emptyMatrix; dim := 2;
     creationOptionFlags := 0; deviceType := 4;
     minBound := [100; 100]; maxBound := [-100; -100] |}.

(** * Properties *)

(** ** Machine integers and the bit scans *)

Lemma to_int_small z : - 2 ^ 31 <= z < 2 ^ 31 → to_int z = z.
Proof.
  intros Hz. unfold to_int, INT_BITS. cbn [Z.sub]. 
  change (2 ^ (32 - 1)) with 2147483648. change (2 ^ 32) with 4294967296.
  change (2 ^ 31) with 2147483648 in Hz.
  rewrite Z.mod_small; lia.
Qed.

Lemma to_size_t_small z : 0 <= z < 2 ^ 64 → to_size_t z = z.
Proof. intros Hz. unfold to_size_t, SIZE_BITS. by rewrite Z.mod_small. Qed.

Lemma pow2_le_mono a b : 0 <= a <= b → 2 ^ a <= 2 ^ b.
Proof. intros. apply Z.pow_le_mono_r; lia. Qed.

Lemma shl1_low i : 0 <= i <= 30 → shl1 i = Some (2 ^ i).
Proof.
  intros Hi. unfold shl1, INT_BITS.
  destruct (0 <=? i) eqn:E1; [|lia]. destruct (i <? 32) eqn:E2; [|lia].
  cbn. rewrite Z.shiftl_1_l. f_equal. apply to_int_small.
  pose proof (pow2_le_mono i 30). change (2^30) with 1073741824 in *.
  change (2^31) with 2147483648. pose proof (Z.pow_pos_nonneg 2 i). lia.
Qed.

Lemma shl1_31 : shl1 31 = Some (- 2 ^ 31).
Proof. reflexivity. Qed.

Lemma shl1_is_Some i : 0 <= i <= 31 → is_Some (shl1 i).
Proof.
  intros Hi. unfold shl1, INT_BITS.
  destruct (0 <=? i) eqn:E1; [|lia]. destruct (i <? 32) eqn:E2; [|lia]. by eexists.
Qed.

(** The mask of bit [i] selects whether [2^i <= e] once the bits above
    [i] are known to be clear. *)
Lemma land_pow2_top e i :
  0 <= i → 0 <= e < 2 ^ (i + 1) → (Z.land e (2 ^ i) =? 0) = (e <? 2 ^ i).
Proof.
  intros Hi He.
  assert (Hp : 0 < 2 ^ i) by (apply Z.pow_pos_nonneg; lia).
  assert (H2 : 2 ^ (i + 1) = 2 * 2 ^ i) by (rewrite Z.pow_add_r; lia).
  destruct (e <? 2 ^ i) eqn:E.
  - apply Z.eqb_eq. apply Z.bits_inj'. intros n Hn.
    rewrite Z.land_spec, Z.bits_0, Z.pow2_bits_eqb by lia.
    destruct (i =? n) eqn:En; [|by rewrite andb_false_r].
    apply Z.eqb_eq in En. subst n. rewrite andb_true_r.
    apply Z.testbit_false; [lia|]. rewrite Z.div_small; [done|lia].
  - apply Z.eqb_neq. intros Hl.
    assert (Hb : Z.testbit (Z.land e (2 ^ i)) i = true).
    { rewrite Z.land_spec, Z.pow2_bits_eqb, Z.eqb_refl, andb_true_r by lia.
      apply Z.testbit_true; [lia|].
      assert (e / 2 ^ i = 1) as ->; [|done].
      symmetry. apply Z.div_unique with (e - 2 ^ i); lia. }
    rewrite Hl, Z.bits_0 in Hb. done.
Qed.

Lemma highMask_eq : to_size_t (- 2 ^ 31) = highMask.
Proof. reflexivity. Qed.

Lemma highMask_bits n : 0 <= n → Z.testbit highMask n = (31 <=? n) && (n <? 64).
Proof.
  intros Hn. change highMask with (Z.shiftl (Z.ones 33) 31).
  rewrite Z.shiftl_spec by lia.
  destruct (31 <=? n) eqn:E1; cbn.
  - destruct (n <? 64) eqn:E2.
    + apply Z.ones_spec_low. lia.
    + apply Z.ones_spec_high. lia.
  - apply Z.testbit_neg_r. lia.
Qed.

Lemma land_highMask_low e : 0 <= e < 2 ^ 31 → Z.land e highMask = 0.
Proof.
  intros He. apply Z.bits_inj'. intros n Hn.
  rewrite Z.land_spec, Z.bits_0, highMask_bits by lia.
  destruct (31 <=? n) eqn:E1; cbn; [|by rewrite andb_false_r].
  destruct (Z.eq_dec e 0) as [->|Hne]; [by rewrite Z.bits_0|].
  rewrite Z.bits_above_log2; [done|lia|].
  assert (Z.log2 e < 31); [|lia]. apply Z.log2_lt_pow2; lia.
Qed.

Lemma land_highMask_high e : 2 ^ 31 <= e < 2 ^ 64 → Z.land e highMask ≠ 0.
Proof.
  intros He Hl.
  assert (Hlog : 31 <= Z.log2 e < 64).
  { split; [apply Z.log2_le_pow2; lia | apply Z.log2_lt_pow2; lia]. }
  assert (Hb : Z.testbit (Z.land e highMask) (Z.log2 e) = true).
  { rewrite Z.land_spec, highMask_bits, Z.bit_log2 by lia.
    cbn. apply andb_true_iff. split; [apply Z.leb_le | apply Z.ltb_lt]; lia. }
  rewrite Hl, Z.bits_0 in Hb. done.
Qed.

Lemma maskHit_low e i :
  0 <= i <= 30 → 0 <= e < 2 ^ (i + 1) → maskHit e i = Some (2 ^ i <=? e).
Proof.
  intros Hi He. unfold maskHit. rewrite shl1_low by done. cbn.
  rewrite to_size_t_small.
  - rewrite land_pow2_top by lia. f_equal.
    destruct (e <? 2 ^ i) eqn:E1, (2 ^ i <=? e) eqn:E2; cbn; lia.
  - pose proof (pow2_le_mono i 30). pose proof (Z.pow_pos_nonneg 2 i).
    change (2^30) with 1073741824 in *. change (2^64) with 18446744073709551616. lia.
Qed.

Lemma maskHit_31 e : 0 <= e < 2 ^ 64 → maskHit e 31 = Some (2 ^ 31 <=? e).
Proof.
  intros He. unfold maskHit. rewrite shl1_31. cbn. rewrite highMask_eq. f_equal.
  destruct (2 ^ 31 <=? e) eqn:E.
  - apply negb_true_iff, Z.eqb_neq, land_highMask_high. lia.
  - apply negb_false_iff, Z.eqb_eq, land_highMask_low. lia.
Qed.

Lemma highBit_hit e i : 0 <= i → 2 ^ i <= e < 2 ^ (i + 1) → highBit e = i.
Proof.
  intros Hi He. unfold highBit.
  assert (0 < 2 ^ i) by (apply Z.pow_pos_nonneg; lia).
  destruct (e =? 0) eqn:E; [lia|]. apply Z.log2_unique; [lia|].
  by rewrite <- Z.add_1_r.
Qed.

(** The scan with an [int] counter, started at bit [k-1] on a value that
    fits [k] bits, stops at the highest set bit or runs down to [-1]. *)
Lemma bitScanInt_low (k : nat) : ∀ fuel e,
  (k <= 31)%nat → (k < fuel)%nat → 0 <= e < 2 ^ Z.of_nat k →
  bitScanInt fuel e (Z.of_nat k - 1) = Some (highBit e).
Proof.
  induction k as [|k IH]; intros fuel e Hk Hf He.
  - destruct fuel; [lia|]. cbn in He. assert (e = 0) as -> by lia. reflexivity.
  - destruct fuel as [|fuel]; [lia|]. cbn [bitScanInt].
    replace (Z.of_nat (S k) - 1) with (Z.of_nat k) by lia.
    destruct (0 <=? Z.of_nat k) eqn:E0; [|lia].
    rewrite maskHit_low by (rewrite ?Nat2Z.inj_succ, ?Z.add_1_r in *; lia).
    cbn. destruct (2 ^ Z.of_nat k <=? e) eqn:E.
    + f_equal. symmetry. apply highBit_hit; [lia|].
      rewrite Nat2Z.inj_succ, <- Z.add_1_r in He. lia.
    + rewrite to_int_small by (change (2^31) with 2147483648; lia).
      apply IH; lia.
Qed.

Lemma bitScanInt_31 fuel e :
  (32 < fuel)%nat → 0 <= e < 2 ^ 64 →
  bitScanInt fuel e 31 = Some (if 2 ^ 31 <=? e then 31 else highBit e).
Proof.
  intros Hf He. destruct fuel as [|fuel]; [lia|]. cbn [bitScanInt].
  change (0 <=? 31) with true. cbn match. rewrite maskHit_31 by done. cbn.
  destruct (2 ^ 31 <=? e) eqn:E; [done|].
  change (to_int (31 - 1)) with (Z.of_nat 31 - 1).
  apply bitScanInt_low; [lia|lia|]. change (2 ^ Z.of_nat 31) with (2 ^ 31). lia.
Qed.

(** The same scan with a [size_t] counter finds the highest set bit of a
    non-zero value before the counter can wrap. *)
Lemma bitScanSize_low (k : nat) : ∀ fuel e,
  (k <= 31)%nat → (k <= fuel)%nat → 1 <= e < 2 ^ Z.of_nat k →
  bitScanSize fuel e (Z.of_nat k - 1) = Some (Z.log2 e).
Proof.
  induction k as [|k IH]; intros fuel e Hk Hf He.
  - cbn in He. lia.
  - destruct fuel as [|fuel]; [lia|]. cbn [bitScanSize].
    replace (Z.of_nat (S k) - 1) with (Z.of_nat k) by lia.
    destruct (0 <=? Z.of_nat k) eqn:E0; [|lia].
    rewrite maskHit_low by (rewrite ?Nat2Z.inj_succ, ?Z.add_1_r in *; lia).
    cbn. destruct (2 ^ Z.of_nat k <=? e) eqn:E.
    + f_equal. symmetry. apply Z.log2_unique; [lia|].
      rewrite Nat2Z.inj_succ, <- Z.add_1_r in He. lia.
    + destruct k as [|k]; [change (2 ^ Z.of_nat 0) with 1 in E; lia|].
      rewrite to_size_t_small
        by (change (2^64) with 18446744073709551616; lia).
      apply Z.leb_gt in E. apply IH; lia.
Qed.

Lemma bitScanSize_31 fuel e :
  (32 <= fuel)%nat → 1 <= e < 2 ^ 64 →
  bitScanSize fuel e 31 = Some (if 2 ^ 31 <=? e then 31 else Z.log2 e).
Proof.
  intros Hf He. destruct fuel as [|fuel]; [lia|]. cbn [bitScanSize].
  change (0 <=? 31) with true. cbn match. rewrite maskHit_31 by lia. cbn.
  destruct (2 ^ 31 <=? e) eqn:E; [done|].
  change (to_size_t (31 - 1)) with (Z.of_nat 31 - 1).
  apply bitScanSize_low; [lia|lia|]. change (2 ^ Z.of_nat 31) with (2 ^ 31). lia.
Qed.

(** The second loop sets the bits [0..i]. *)
Lemma fillLow_low (m : nat) : ∀ fuel j i,
  0 <= j → i <= 30 → Z.of_nat m = i + 1 - j → (m < fuel)%nat →
  fillLow fuel (2 ^ j - 1) j i = Some (2 ^ (i + 1) - 1).
Proof.
  induction m as [|m IH]; intros fuel j i Hj Hi Hm Hf.
  - destruct fuel; [lia|]. cbn [fillLow].
    destruct (j <=? i) eqn:E; [lia|]. do 3 f_equal. lia.
  - destruct fuel as [|fuel]; [lia|]. cbn [fillLow].
    destruct (j <=? i) eqn:E; [|lia].
    rewrite shl1_low by lia. cbn.
    assert (Hp : 0 < 2 ^ j) by (apply Z.pow_pos_nonneg; lia).
    assert (Hb : 2 ^ j <= 2 ^ 30) by (apply pow2_le_mono; lia).
    change (2 ^ 30) with 1073741824 in Hb.
    rewrite to_size_t_small by (change (2^64) with 18446744073709551616; lia).
    rewrite to_int_small by (change (2^31) with 2147483648; lia).
    assert (Hlor : Z.lor (2 ^ j - 1) (2 ^ j) = 2 ^ (j + 1) - 1).
    { rewrite <- Z.lxor_lor, <- Z.add_nocarry_lxor.
      - rewrite Z.pow_add_r; lia.
      - rewrite Z.sub_1_r, <- Z.ones_equiv, Z.land_comm, Z.land_ones by lia.
        apply Z.mod_same. lia.
      - rewrite Z.sub_1_r, <- Z.ones_equiv, Z.land_comm, Z.land_ones by lia.
        apply Z.mod_same. lia. }
    rewrite Hlor. apply IH; lia.
Qed.

Lemma fillLow_from0 fuel i :
  -1 <= i <= 30 → (32 < fuel)%nat → fillLow fuel 0 0 i = Some (2 ^ (i + 1) - 1).
Proof.
  intros Hi Hf. change 0 with (2 ^ 0 - 1) at 1.
  apply (fillLow_low (Z.to_nat (i + 1))); lia.
Qed.

Lemma highBit_range e k : 0 <= k → 0 <= e < 2 ^ k → -1 <= highBit e < k.
Proof.
  intros Hk He. unfold highBit. destruct (e =? 0) eqn:E; [lia|].
  pose proof (Z.log2_nonneg e). split; [lia|]. apply Z.log2_lt_pow2; lia.
Qed.

Lemma lor_even_1 a : Z.lor (2 * a) 1 = 2 * a + 1.
Proof.
  rewrite <- Z.lxor_lor, <- Z.add_nocarry_lxor; [done| |].
  all: change 1 with (Z.ones 1) at 1; rewrite Z.land_ones by lia;
    rewrite Z.mul_comm; apply Z.mod_mul; lia.
Qed.

(** Sizing of the points-in-leaves variant on its working range. *)
Lemma leaves_getTreeSize_spec n :
  1 <= n <= 2 ^ 31 →
  PtInLeaves.getTreeSize n = Some (2 ^ (highBit (n - 1) + 2) - 1).
Proof.
  intros Hn. unfold PtInLeaves.getTreeSize.
  destruct (n =? 0) eqn:E; [lia|].
  change (2 ^ 31) with 2147483648 in Hn.
  rewrite to_size_t_small by (change (2 ^ 64) with 18446744073709551616; lia).
  rewrite bitScanInt_31
    by (unfold LOOP_FUEL; change (2 ^ 64) with 18446744073709551616; lia).
  destruct (2 ^ 31 <=? n - 1) eqn:E31;
    [change (2 ^ 31) with 2147483648 in E31; lia|].
  cbn [mbind option_bind].
  pose proof (highBit_range (n - 1) 31) as Hh.
  change (2 ^ 31) with 2147483648 in Hh.
  rewrite fillLow_from0 by (unfold LOOP_FUEL; lia). cbn [mbind option_bind].
  set (h := highBit (n - 1)) in *.
  assert (Hp : 0 < 2 ^ (h + 1)) by (apply Z.pow_pos_nonneg; lia).
  assert (Hb : 2 ^ (h + 1) <= 2 ^ 31) by (apply pow2_le_mono; lia).
  change (2 ^ 31) with 2147483648 in Hb.
  rewrite Z.shiftl_mul_pow2, Z.pow_1_r by lia.
  rewrite to_size_t_small by (change (2 ^ 64) with 18446744073709551616; lia).
  rewrite Z.mul_comm, lor_even_1. f_equal.
  replace (h + 2) with (h + 1 + 1) by lia. rewrite (Z.pow_add_r 2 (h + 1) 1); lia.
Qed.

Lemma leaves_getTreeDepth_le1 n : n <= 1 → PtInLeaves.getTreeDepth n = Some 0.
Proof.
  intros Hn. unfold PtInLeaves.getTreeDepth. destruct (n <=? 1) eqn:E; [done|lia].
Qed.

Lemma leaves_getTreeDepth_spec n :
  2 <= n < 2 ^ 64 →
  PtInLeaves.getTreeDepth n
  = Some (if 2 ^ 31 <=? n - 1 then 32 else Z.log2 (n - 1) + 1).
Proof.
  intros Hn. unfold PtInLeaves.getTreeDepth. destruct (n <=? 1) eqn:E; [lia|].
  change (2 ^ 64) with 18446744073709551616 in Hn.
  rewrite to_size_t_small by (change (2 ^ 64) with 18446744073709551616; lia).
  rewrite bitScanSize_31
    by (unfold LOOP_FUEL; change (2 ^ 64) with 18446744073709551616; lia).
  cbn [mbind option_bind]. destruct (2 ^ 31 <=? n - 1) eqn:E31; [done|].
  f_equal. apply to_size_t_small.
  pose proof (Z.log2_nonneg (n - 1)).
  assert (Z.log2 (n - 1) < 31)
    by (apply Z.log2_lt_pow2; [|change (2 ^ 31) with 2147483648 in *]; lia).
  change (2 ^ 64) with 18446744073709551616. lia.
Qed.

(** Sizing of the points-in-nodes variant on its working range. *)
Lemma nodes_getTreeSize_spec n :
  0 <= n < 2 ^ 31 → PtInNodes.getTreeSize n = Some (2 ^ (highBit n + 1) - 1).
Proof.
  intros Hn. unfold PtInNodes.getTreeSize.
  change (2 ^ 31) with 2147483648 in Hn.
  rewrite bitScanInt_31
    by (unfold LOOP_FUEL; change (2 ^ 64) with 18446744073709551616; lia).
  destruct (2 ^ 31 <=? n) eqn:E31;
    [change (2 ^ 31) with 2147483648 in E31; lia|].
  cbn [mbind option_bind].
  pose proof (highBit_range n 31) as Hh. change (2 ^ 31) with 2147483648 in Hh.
  apply fillLow_from0; unfold LOOP_FUEL; lia.
Qed.

Lemma nodes_getTreeDepth_spec n :
  0 <= n < 2 ^ 64 →
  PtInNodes.getTreeDepth n = Some (if 2 ^ 31 <=? n then 32 else highBit n + 1).
Proof.
  intros Hn. unfold PtInNodes.getTreeDepth.
  rewrite bitScanInt_31 by (unfold LOOP_FUEL; lia).
  cbn [mbind option_bind]. destruct (2 ^ 31 <=? n) eqn:E31; [done|].
  pose proof (highBit_range n 31) as Hh. change (2 ^ 31) with 2147483648 in *.
  rewrite to_int_small by (change (2 ^ 31) with 2147483648; lia).
  rewrite to_size_t_small by (change (2 ^ 64) with 18446744073709551616; lia).
  done.
Qed.

(** ** The implicit layout *)

Lemma inSubtree_refl p : inSubtree p p.
Proof. exists 0. split; [lia|]. rewrite Z.pow_0_r. apply Z.div_1_r. Qed.

Lemma div_pow2_succ a k : 0 <= k → a / 2 ^ (k + 1) = a / 2 ^ k / 2.
Proof.
  intros Hk. rewrite Z.pow_add_r, Z.pow_1_r by lia.
  rewrite Z.div_div; [done| |lia].
  pose proof (Z.pow_pos_nonneg 2 k). lia.
Qed.

Lemma div_pow2_le a k : 0 <= a → 0 <= k → a / 2 ^ k <= a.
Proof.
  intros Ha Hk. pose proof (Z.pow_pos_nonneg 2 k).
  apply Z.div_le_upper_bound; [lia|]. nia.
Qed.

Lemma div_pow2_add a j k : 0 <= j → 0 <= k → a / 2 ^ (j + k) = a / 2 ^ j / 2 ^ k.
Proof.
  intros Hj Hk. rewrite Z.pow_add_r by lia.
  pose proof (Z.pow_pos_nonneg 2 j). pose proof (Z.pow_pos_nonneg 2 k).
  rewrite Z.div_div; [done|lia|lia].
Qed.

Lemma inSubtree_left p q : inSubtree (2 * p + 1) q → inSubtree p q.
Proof.
  intros (k & Hk & E). exists (k + 1). split; [lia|].
  rewrite div_pow2_succ, E by done.
  replace (2 * p + 1 + 1) with ((p + 1) * 2) by lia. apply Z.div_mul. lia.
Qed.

Lemma inSubtree_right p q : inSubtree (2 * p + 2) q → inSubtree p q.
Proof.
  intros (k & Hk & E). exists (k + 1). split; [lia|].
  rewrite div_pow2_succ, E by done.
  replace (2 * p + 2 + 1) with (1 + (p + 1) * 2) by lia.
  rewrite Z.div_add by lia. change (1 / 2) with 0. lia.
Qed.

Lemma inSubtree_ge p q : 0 <= q → inSubtree p q → p <= q.
Proof.
  intros Hq (k & Hk & E). pose proof (div_pow2_le (q + 1) k). lia.
Qed.

Lemma inSubtree_children_disjoint p q :
  0 <= p → 0 <= q → inSubtree (2 * p + 1) q → inSubtree (2 * p + 2) q → False.
Proof.
  intros Hp Hq (k & Hk & Ek) (j & Hj & Ej).
  destruct (Z.le_gt_cases k j) as [Hkj|Hkj].
  - replace j with (k + (j - k)) in Ej by lia.
    rewrite div_pow2_add, Ek in Ej by lia.
    pose proof (div_pow2_le (2 * p + 1 + 1) (j - k)). lia.
  - replace k with (j + 1 + (k - j - 1)) in Ek by lia.
    rewrite div_pow2_add, div_pow2_succ, Ej in Ek by lia.
    replace (2 * p + 2 + 1) with (1 + (p + 1) * 2) in Ek by lia.
    rewrite Z.div_add in Ek by lia. change (1 / 2) with 0 in Ek.
    pose proof (div_pow2_le (0 + (p + 1)) (k - j - 1)). lia.
Qed.

Lemma childLeft_eq p : 0 <= p < 2 ^ 62 → childLeft p = 2 * p + 1.
Proof.
  intros Hp. unfold childLeft. apply to_size_t_small.
  change (2 ^ 62) with 4611686018427387904 in Hp.
  change (2 ^ 64) with 18446744073709551616. lia.
Qed.

Lemma childRight_eq p : 0 <= p < 2 ^ 62 → childRight p = 2 * p + 2.
Proof.
  intros Hp. unfold childRight. apply to_size_t_small.
  change (2 ^ 62) with 4611686018427387904 in Hp.
  change (2 ^ 64) with 18446744073709551616. lia.
Qed.

Lemma store_Some {A} p (x : A) v :
  0 <= p < Z.of_nat (length v) → store p x v = Some (<[Z.to_nat p := x]> v).
Proof.
  intros Hp. unfold store.
  destruct (0 <=? p) eqn:E1; [|lia]. destruct (p <? Z.of_nat (length v)) eqn:E2; [done|lia].
Qed.

(** ** argMax *)

Section ArgMaxFacts.
Context `{Scalar T}.

Lemma argMaxLoop_inv rest : ∀ pre maxVal maxIdx,
  argMaxInv pre maxVal maxIdx →
  ∃ m, argMaxInv (pre ++ rest) m (argMaxLoop rest (length pre) maxVal maxIdx).
Proof.
  induction rest as [|x rest IH]; intros pre maxVal maxIdx Hinv.
  - exists maxVal. by rewrite app_nil_r.
  - cbn [argMaxLoop]. destruct Hinv as [Hle Hidx].
    replace (pre ++ x :: rest) with ((pre ++ [x]) ++ rest)
      by (by rewrite <- app_assoc).
    replace (S (length pre)) with (length (pre ++ [x]))
      by (rewrite length_app; cbn; lia).
    destruct (gtb x maxVal) eqn:Hx; apply IH; split.
    + intros y [Hy| ->%list_elem_of_singleton]%elem_of_app.
      * destruct (gtb y x) eqn:Hyx; [|done].
        specialize (Hle y Hy). by rewrite (gtb_trans _ _ _ Hyx Hx) in Hle.
      * apply gtb_irrefl.
    + left. split.
      * by rewrite lookup_app_r, Nat.sub_diag.
      * intros j y Hj Hy. rewrite lookup_app_l in Hy by done.
        destruct (gtb_cotrans _ y _ Hx) as [?|Hc]; [done|].
        rewrite Hle in Hc; [done|]. by eapply list_elem_of_lookup_2.
    + intros y [Hy| ->%list_elem_of_singleton]%elem_of_app; [by apply Hle|done].
    + destruct Hidx as [[Hl Hfirst]|Hz]; [left|by right]. split.
      * rewrite lookup_app_l; [done|]. by eapply lookup_lt_Some.
      * intros j y Hj Hy. eapply Hfirst; [done|].
        rewrite lookup_app_l in Hy; [done|].
        apply lookup_lt_Some in Hl. lia.
Qed.

Lemma argMax_inv (v : list T) : ∃ m, argMaxInv v m (argMax v).
Proof.
  apply (argMaxLoop_inv v [] zero 0%nat). split.
  - intros y Hy. by apply elem_of_nil in Hy.
  - right. by rewrite gtb_irrefl.
Qed.

(** [argMax] answers with a valid index of any non-empty vector. *)
Lemma argMax_lt (v : list T) : v ≠ [] → (argMax v < length v)%nat.
Proof.
  intros Hv. destruct (argMax_inv v) as (m & _ & [[Hl _]|(-> & _)]).
  - by eapply lookup_lt_Some.
  - destruct v; [done|cbn; lia].
Qed.
End ArgMaxFacts.

(** ** The builders *)

Lemma pow2_succ_nat (d : nat) : 2 ^ Z.of_nat (S d) = 2 * 2 ^ Z.of_nat d.
Proof. rewrite Nat2Z.inj_succ, Z.pow_succ_r; lia. Qed.

Lemma pow2_nat_pos (d : nat) : 0 < 2 ^ Z.of_nat d.
Proof. apply Z.pow_pos_nonneg; lia. Qed.

Module PtInLeavesFacts.
Import PtInLeaves.

(** A decoded tree is read from its own positions only. *)
Lemma leaves_decode_stable {T} (f : nat) : ∀ (a b : list (Node T)) p t,
  decode f a p = Some t →
  (∀ q, q ∈ positions t p → b !! Z.to_nat q = a !! Z.to_nat q) →
  decode f b p = Some t.
Proof.
  induction f as [|f IH]; intros a b p t Hd Hq; [done|].
  cbn [decode] in *.
  destruct (a !! Z.to_nat p) as [n|] eqn:Hn; [|done]. cbn in Hd.
  destruct (dim n <=? -2) eqn:E1.
  - injection Hd as <-. rewrite Hq, Hn by (cbn; set_solver). cbn. by rewrite E1.
  - destruct (0 <=? dim n) eqn:E2; [|done].
    destruct (decode f a (childLeft p)) as [l|] eqn:Hl; [|done]. cbn in Hd.
    destruct (decode f a (childRight p)) as [r|] eqn:Hr; [|done]. cbn in Hd.
    injection Hd as <-. cbn [positions] in Hq.
    rewrite Hq, Hn by set_solver. cbn. rewrite E1, E2.
    rewrite (IH a b _ l Hl) by (intros; apply Hq; set_solver). cbn.
    rewrite (IH a b _ r Hr) by (intros; apply Hq; set_solver). done.
Qed.

Section BuildFacts.
Context `{Scalar T} `{NthElement}.
Variable dimN : nat.

Lemma leaves_buildNodes_leaf (d fuel : nat) bp p minV maxV (nodes : list (Node T)) :
  wfPoint dimN bp → 0 <= p < Z.of_nat (length nodes) →
  ∃ nodes', buildNodes (S fuel) [bp] p minV maxV nodes = Some nodes'
            ∧ built d [bp] p nodes nodes' (Leaf (index bp)).
Proof.
  intros [Hlen Hidx] Hp. cbn [buildNodes length]. cbn [Z.of_nat Pos.of_succ_nat Z.eqb Pos.eqb head].
  cbn. rewrite store_Some by done. eexists. split; [done|].
  assert (Htag : to_int (-2 - index bp) = -2 - index bp).
  { apply to_int_small. change (2 ^ 31) with 2147483648 in *. lia. }
  repeat split.
  - by rewrite length_insert.
  - intros f Hf. destruct f as [|f]; [lia|]. cbn [decode].
    rewrite list_lookup_insert_eq by lia. cbn. rewrite Htag.
    destruct (-2 - index bp <=? -2) eqn:E; [|lia]. do 2 f_equal. lia.
  - done.
  - cbn. lia.
  - intros Hd. cbn in *. destruct d as [|d]; [done|].
    rewrite pow2_succ_nat in Hd. pose proof (pow2_nat_pos d). lia.
  - cbn. apply Forall_singleton. split; [apply inSubtree_refl|lia].
  - intros q Hq Hnot. cbn in Hnot. apply list_lookup_insert_ne.
    intros E. apply Hnot. apply list_elem_of_singleton. lia.
Qed.

Lemma leaves_buildNodes_spec (d : nat) : ∀ fuel pts p minV maxV (nodes : list (Node T)),
  (d < fuel)%nat → (0 < dimN)%nat → Z.of_nat dimN < 2 ^ 31 →
  Forall (wfPoint dimN) pts → length minV = dimN → length maxV = dimN →
  1 <= Z.of_nat (length pts) <= 2 ^ Z.of_nat d →
  0 <= p → (p + 2) * 2 ^ Z.of_nat d <= Z.of_nat (length nodes) + 1 →
  Z.of_nat (length nodes) < 2 ^ 62 →
  ∃ nodes' t, buildNodes fuel pts p minV maxV nodes = Some nodes'
              ∧ built d pts p nodes nodes' t.
Proof.
  induction d as [|d IH];
    intros fuel pts p minV maxV nodes Hf Hdim Hdim31 Hwf Hmin Hmax Hn Hp Hsz Hlen.
  { destruct pts as [|bp [|? ?]]; cbn [length] in Hn;
      [cbn in Hn; lia| |change (2 ^ Z.of_nat 0) with 1 in Hn; lia].
    destruct fuel as [|fuel]; [lia|].
    destruct (leaves_buildNodes_leaf 0 fuel bp p minV maxV nodes) as (nodes' & ? & ?);
      [exact (Forall_inv Hwf)
      |change (2 ^ Z.of_nat 0) with 1 in Hsz; lia|].
    by exists nodes', (Leaf (index bp)). }
  destruct fuel as [|fuel]; [lia|].
  pose proof (pow2_nat_pos d) as Hpd. rewrite pow2_succ_nat in Hsz, Hn.
  assert (Hpn : 0 <= p < Z.of_nat (length nodes)) by nia.
  destruct (decide (length pts = 1%nat)) as [H1|H1].
  { destruct pts as [|bp [|? ?]]; try done.
    destruct (leaves_buildNodes_leaf (S d) fuel bp p minV maxV nodes) as (nodes' & ? & ?);
      [exact (Forall_inv Hwf)|done|].
    by exists nodes', (Leaf (index bp)). }
  cbn [buildNodes].
  destruct (Z.of_nat (length pts) =? 1) eqn:E1; [lia|]. clear E1.
  set (cutDim := argMax (vsub maxV minV)).
  assert (HcutDim : (cutDim < dimN)%nat).
  { unfold cutDim.
    assert (Hl : length (vsub maxV minV) = dimN).
    { unfold vsub. rewrite length_zip_with. lia. }
    rewrite <- Hl. apply argMax_lt. intros E. rewrite E in Hl. cbn in Hl. lia. }
  assert (Hn2 : 2 <= Z.of_nat (length pts)) by lia.
  assert (Hdiv : 1 <= Z.of_nat (length pts) / 2
                 ∧ 2 * (Z.of_nat (length pts) / 2) <= Z.of_nat (length pts)
                 ∧ Z.of_nat (length pts) < 2 * (Z.of_nat (length pts) / 2) + 2).
  { pose proof (Z.div_mod (Z.of_nat (length pts)) 2).
    pose proof (Z.mod_pos_bound (Z.of_nat (length pts)) 2). lia. }
  rewrite (to_size_t_small (Z.of_nat (length pts) - Z.of_nat (length pts) / 2))
    by (change (2 ^ 62) with 4611686018427387904 in Hlen;
        change (2 ^ 64) with 18446744073709551616; nia).
  set (L := Z.to_nat (Z.of_nat (length pts) - Z.of_nat (length pts) / 2)).
  assert (HL : Z.of_nat L = Z.of_nat (length pts) - Z.of_nat (length pts) / 2)
    by (unfold L; lia).
  pose proof (nth_element_perm _ (CompareDim cutDim) L pts) as Hperm.
  set (pts' := nth_element (CompareDim cutDim) L pts) in *.
  assert (Hlen' : length pts' = length pts) by (by rewrite Hperm).
  assert (Hwf' : Forall (wfPoint dimN) pts') by (by rewrite Hperm).
  destruct (pts' !! L) as [nthp|] eqn:Hnth;
    [|apply lookup_ge_None in Hnth; lia].
  cbn [mbind option_bind].
  assert (Hnthwf : wfPoint dimN nthp).
  { eapply Forall_forall in Hwf'; [done|]. by eapply list_elem_of_lookup_2. }
  destruct Hnthwf as [Hnthlen _].
  destruct (coeff (pos nthp) cutDim) as [cv|] eqn:Hcv;
    [|apply lookup_ge_None in Hcv; lia].
  cbn [mbind option_bind].
  rewrite store_Some by done. cbn [mbind option_bind].
  set (node := {| dim := to_int (Z.of_nat cutDim); cutVal := cv |}).
  set (nodes1 := <[Z.to_nat p := node]> nodes).
  assert (Hlen1 : length nodes1 = length nodes) by apply length_insert.
  assert (Hp62 : 0 <= p < 2 ^ 62) by lia.
  rewrite childLeft_eq, childRight_eq by done.
  destruct (IH fuel (take L pts') (2 * p + 1) minV (<[cutDim := cv]> maxV) nodes1)
    as (nodes2 & tl & Hbl & Hlen2 & Hdl & Hperml & Hdepl & Hexl & Hposl & Hfrl);
    [lia|done|done|by apply Forall_take|done|by rewrite length_insert
    |rewrite length_take; lia|lia|rewrite Hlen1; nia|by rewrite Hlen1|].
  rewrite Hbl. cbn [mbind option_bind].
  destruct (IH fuel (drop L pts') (2 * p + 2) (<[cutDim := cv]> minV) maxV nodes2)
    as (nodes3 & tr & Hbr & Hlen3 & Hdr & Hpermr & Hdepr & Hexr & Hposr & Hfrr);
    [lia|done|done|by apply Forall_drop|by rewrite length_insert|done
    |rewrite length_drop; lia|lia|rewrite Hlen2, Hlen1; nia
    |by rewrite Hlen2, Hlen1|].
  rewrite Hbr. exists nodes3, (Split (to_int (Z.of_nat cutDim)) tl tr).
  split; [done|].
  assert (HcutDimZ : to_int (Z.of_nat cutDim) = Z.of_nat cutDim).
  { apply to_int_small. change (2 ^ 31) with 2147483648 in *. lia. }
  assert (Hql : ∀ q, q ∈ positions tl (2 * p + 1) →
                     0 <= q ∧ 2 * p + 1 <= q ∧ q ∉ positions tr (2 * p + 2)).
  { intros q Hq. eapply Forall_forall in Hposl as [Hsub [Hq0 _]]; [|done].
    split; [done|]. split; [by apply inSubtree_ge|].
    intros Hqr. eapply Forall_forall in Hposr as [Hsub' _]; [|done].
    by eapply (inSubtree_children_disjoint p q). }
  assert (Hqr : ∀ q, q ∈ positions tr (2 * p + 2) → 0 <= q ∧ 2 * p + 2 <= q).
  { intros q Hq. eapply Forall_forall in Hposr as [Hsub [Hq0 _]]; [|done].
    split; [done|]. by apply inSubtree_ge. }
  assert (Hroot : nodes3 !! Z.to_nat p = Some node).
  { rewrite Hfrr, Hfrl; [|lia|intros Hq; apply Hql in Hq; lia
                         |lia|intros Hq; apply Hqr in Hq; lia].
    apply list_lookup_insert_eq. lia. }
  repeat split.
  - by rewrite Hlen3, Hlen2, Hlen1.
  - intros f Hf'. destruct f as [|f]; [lia|]. cbn [decode].
    rewrite Hroot. cbn [mbind option_bind]. cbn [dim node]. rewrite HcutDimZ.
    destruct (Z.of_nat cutDim <=? -2) eqn:E1; [lia|].
    destruct (0 <=? Z.of_nat cutDim) eqn:E2; [|lia].
    rewrite childLeft_eq, childRight_eq by done.
    rewrite (leaves_decode_stable f nodes2 nodes3 (2 * p + 1) tl);
      [|apply Hdl; lia|intros q Hq; apply Hql in Hq as (? & ? & ?); by apply Hfrr].
    cbn [mbind option_bind]. rewrite Hdr by lia. done.
  - cbn [leafIndices]. rewrite Hperml, Hpermr, <- fmap_app, take_drop.
    by rewrite Hperm.
  - cbn [depth]. lia.
  - intros Hex. cbn [depth]. rewrite pow2_succ_nat in Hex.
    rewrite Hexl; [lia|]. rewrite length_take. lia.
  - cbn [positions]. rewrite childLeft_eq, childRight_eq by done.
    apply Forall_cons. split; [split; [apply inSubtree_refl|done]|].
    apply Forall_app. split.
    + eapply Forall_impl; [exact Hposl|]. intros q [Hs Hb]. split.
      * by apply inSubtree_left.
      * by rewrite <- Hlen1.
    + eapply Forall_impl; [exact Hposr|]. intros q [Hs Hb]. split.
      * by apply inSubtree_right.
      * by rewrite <- Hlen1, <- Hlen2.
  - intros q Hq Hnot. cbn [positions] in Hnot.
    rewrite childLeft_eq, childRight_eq in Hnot by done.
    apply not_elem_of_cons in Hnot as [Hqp Hnot].
    apply not_elem_of_app in Hnot as [Hnl Hnr].
    rewrite Hfrr, Hfrl by done. apply list_lookup_insert_ne. lia.
Qed.
End BuildFacts.
End PtInLeavesFacts.

Module PtInNodesFacts.
Import PtInNodes.

(** A decoded tree is read from its own positions only. *)
Lemma nodes_decode_stable (f : nat) : ∀ (a b : list Node) p t,
  decode f a p = Some t →
  (∀ q, q ∈ positions t p → b !! Z.to_nat q = a !! Z.to_nat q) →
  decode f b p = Some t.
Proof.
  induction f as [|f IH]; intros a b p t Hd Hq; [done|].
  cbn [decode] in *.
  destruct (a !! Z.to_nat p) as [n|] eqn:Hn; [|done]. cbn in Hd.
  destruct (dim n =? -1) eqn:E1.
  { injection Hd as <-. rewrite Hq, Hn by (cbn; set_solver). cbn. by rewrite E1. }
  destruct (dim n =? -2) eqn:E2.
  { injection Hd as <-. rewrite Hq, Hn by (cbn; set_solver). cbn. by rewrite E1, E2. }
  destruct (0 <=? dim n) eqn:E3; [|done].
  destruct (decode f a (childLeft p)) as [l|] eqn:Hl; [|done]. cbn in Hd.
  destruct (decode f a (childRight p)) as [r|] eqn:Hr; [|done]. cbn in Hd.
  injection Hd as <-. cbn [positions] in Hq.
  rewrite Hq, Hn by set_solver. cbn. rewrite E1, E2, E3.
  rewrite (IH a b _ l Hl) by (intros; apply Hq; set_solver). cbn.
  rewrite (IH a b _ r Hr) by (intros; apply Hq; set_solver). done.
Qed.

Lemma absentIsPadding_Split c i l r :
  absentIsPadding l = true → absentIsPadding r = true →
  absentIsPadding (Split c i l r) = true.
Proof.
  intros Hl Hr. cbn. destruct l, r; cbn in *; try done.
  all: by rewrite ?Hl, ?Hr.
Qed.

Section BuildFacts.
Context `{Scalar T} `{NthElement}.
Variable cloud : Matrix T.
Variable dimN : nat.

Lemma nodes_buildNodes_leaf (d fuel : nat) i p minV maxV (nodes : list Node) :
  0 <= p < Z.of_nat (length nodes) →
  ∃ nodes', buildNodes cloud (S fuel) [i] p minV maxV nodes = Some nodes'
            ∧ built d [i] p nodes nodes' (Leaf i).
Proof.
  intros Hp. cbn [buildNodes length].
  cbn [Z.of_nat Pos.of_succ_nat Z.eqb Pos.eqb head].
  cbn. rewrite store_Some by done. eexists. split; [done|].
  repeat split.
  - by rewrite length_insert.
  - intros f Hf. destruct f as [|f]; [lia|]. cbn [decode].
    rewrite list_lookup_insert_eq by lia. done.
  - done.
  - cbn. lia.
  - cbn. lia.
  - intros Hd. cbn in *. destruct d as [|d]; [done|].
    rewrite pow2_succ_nat in Hd. pose proof (pow2_nat_pos d). lia.
  - cbn. apply Forall_singleton. split; [apply inSubtree_refl|lia].
  - intros q Hq Hnot. cbn in Hnot. apply list_lookup_insert_ne.
    intros E. apply Hnot. apply list_elem_of_singleton. lia.
Qed.

Lemma nodes_buildNodes_spec (d : nat) : ∀ fuel pts p minV maxV (nodes : list Node),
  (d < fuel)%nat → (0 < dimN)%nat → Z.of_nat dimN < 2 ^ 31 →
  Forall (wfIndex cloud dimN) pts → length minV = dimN → length maxV = dimN →
  1 <= Z.of_nat (length pts) < 2 * 2 ^ Z.of_nat d →
  0 <= p → (p + 2) * 2 ^ Z.of_nat d <= Z.of_nat (length nodes) + 1 →
  Z.of_nat (length nodes) < 2 ^ 62 →
  ∃ nodes' t, buildNodes cloud fuel pts p minV maxV nodes = Some nodes'
              ∧ built d pts p nodes nodes' t.
Proof.
  induction d as [|d IH];
    intros fuel pts p minV maxV nodes Hf Hdim Hdim31 Hwf Hmin Hmax Hn Hp Hsz Hlen.
  { destruct pts as [|i [|? ?]]; cbn [length] in Hn;
      [cbn in Hn; lia| |change (2 ^ Z.of_nat 0) with 1 in Hn; lia].
    destruct fuel as [|fuel]; [lia|].
    destruct (nodes_buildNodes_leaf 0 fuel i p minV maxV nodes) as (nodes' & ? & ?);
      [change (2 ^ Z.of_nat 0) with 1 in Hsz; lia|].
    by exists nodes', (Leaf i). }
  destruct fuel as [|fuel]; [lia|].
  pose proof (pow2_nat_pos d) as Hpd. rewrite pow2_succ_nat in Hsz, Hn.
  assert (Hpn : 0 <= p < Z.of_nat (length nodes)) by nia.
  destruct (decide (length pts = 1%nat)) as [H1|H1].
  { destruct pts as [|i [|? ?]]; try done.
    destruct (nodes_buildNodes_leaf (S d) fuel i p minV maxV nodes) as (nodes' & ? & ?);
      [done|].
    by exists nodes', (Leaf i). }
  cbn [buildNodes].
  destruct (Z.of_nat (length pts) =? 1) eqn:E1; [lia|]. clear E1.
  set (cutDim := argMax (vsub maxV minV)).
  assert (HcutDim : (cutDim < dimN)%nat).
  { unfold cutDim.
    assert (Hl : length (vsub maxV minV) = dimN).
    { unfold vsub. rewrite length_zip_with. lia. }
    rewrite <- Hl. apply argMax_lt. intros E. rewrite E in Hl. cbn in Hl. lia. }
  assert (HcutDimZ : to_int (Z.of_nat cutDim) = Z.of_nat cutDim).
  { apply to_int_small. change (2 ^ 31) with 2147483648 in *. lia. }
  assert (Hn2 : 2 <= Z.of_nat (length pts)) by lia.
  assert (Hbig : Z.of_nat (length pts) < 2 ^ 62).
  { change (2 ^ 62) with 4611686018427387904 in *. nia. }
  rewrite (to_size_t_small (Z.of_nat (length pts) - 1))
    by (change (2 ^ 62) with 4611686018427387904 in Hbig;
        change (2 ^ 64) with 18446744073709551616; lia).
  set (m := Z.of_nat (length pts) - 1) in *.
  assert (Hdiv : 2 * (m / 2) <= m ∧ m < 2 * (m / 2) + 2).
  { pose proof (Z.div_mod m 2). pose proof (Z.mod_pos_bound m 2). lia. }
  rewrite (to_size_t_small (m - m / 2))
    by (change (2 ^ 62) with 4611686018427387904 in Hbig;
        change (2 ^ 64) with 18446744073709551616; lia).
  set (L := Z.to_nat (m - m / 2)).
  assert (HL : Z.of_nat L = m - m / 2) by (unfold L; lia).
  pose proof (nth_element_perm _ (CompareDim cloud cutDim) L pts) as Hperm.
  set (pts' := nth_element (CompareDim cloud cutDim) L pts) in *.
  assert (Hlen' : length pts' = length pts) by (by rewrite Hperm).
  assert (Hwf' : Forall (wfIndex cloud dimN) pts') by (by rewrite Hperm).
  destruct (pts' !! L) as [idx|] eqn:Hnth;
    [|apply lookup_ge_None in Hnth; lia].
  cbn [mbind option_bind].
  assert (Hidxwf : wfIndex cloud dimN idx).
  { eapply Forall_forall in Hwf'; [done|]. by eapply list_elem_of_lookup_2. }
  destruct Hidxwf as (Hidx0 & col & Hcol & Hcollen).
  destruct (mcoeff cloud cutDim (Z.to_nat idx)) as [cv|] eqn:Hcv.
  2:{ unfold mcoeff in Hcv. rewrite Hcol in Hcv. cbn in Hcv.
      apply lookup_ge_None in Hcv. lia. }
  cbn [mbind option_bind].
  rewrite store_Some by done. cbn [mbind option_bind].
  set (node := {| dim := to_int (Z.of_nat cutDim); index := idx |}).
  set (nodes1 := <[Z.to_nat p := node]> nodes).
  assert (Hlen1 : length nodes1 = length nodes) by apply length_insert.
  assert (Hp62 : 0 <= p < 2 ^ 62) by lia.
  rewrite childLeft_eq, childRight_eq by done.
  destruct (Z.of_nat (length pts) >? 2) eqn:E2.
  - (* three points or more: recurse on both sides *)
    assert (Hn3 : 2 <= m) by lia.
    destruct (IH fuel (take L pts') (2 * p + 1) minV (<[cutDim := cv]> maxV) nodes1)
      as (nodes2 & tl & Hbl & Hlen2 & Hdl & Hperml & Hpadl & Hdepl & Hexl
          & Hposl & Hfrl);
      [lia|done|done|by apply Forall_take|done|by rewrite length_insert
      |rewrite length_take; lia|lia|rewrite Hlen1; nia|by rewrite Hlen1|].
    rewrite Hbl. cbn [mbind option_bind].
    destruct (IH fuel (drop (L + 1) pts') (2 * p + 2) (<[cutDim := cv]> minV)
                maxV nodes2)
      as (nodes3 & tr & Hbr & Hlen3 & Hdr & Hpermr & Hpadr & Hdepr & Hexr
          & Hposr & Hfrr);
      [lia|done|done|by apply Forall_drop|by rewrite length_insert|done
      |rewrite length_drop; lia|lia|rewrite Hlen2, Hlen1; nia
      |by rewrite Hlen2, Hlen1|].
    rewrite Hbr. exists nodes3, (Split (to_int (Z.of_nat cutDim)) idx tl tr).
    split; [done|].
    assert (Hql : ∀ q, q ∈ positions tl (2 * p + 1) →
                       0 <= q ∧ 2 * p + 1 <= q ∧ q ∉ positions tr (2 * p + 2)).
    { intros q Hq. eapply Forall_forall in Hposl as [Hsub [Hq0 _]]; [|done].
      split; [done|]. split; [by apply inSubtree_ge|].
      intros Hqr. eapply Forall_forall in Hposr as [Hsub' _]; [|done].
      by eapply (inSubtree_children_disjoint p q). }
    assert (Hqr : ∀ q, q ∈ positions tr (2 * p + 2) → 0 <= q ∧ 2 * p + 2 <= q).
    { intros q Hq. eapply Forall_forall in Hposr as [Hsub [Hq0 _]]; [|done].
      split; [done|]. by apply inSubtree_ge. }
    assert (Hroot : nodes3 !! Z.to_nat p = Some node).
    { rewrite Hfrr, Hfrl; [|lia|intros Hq; apply Hql in Hq; lia
                           |lia|intros Hq; apply Hqr in Hq; lia].
      apply list_lookup_insert_eq. lia. }
    repeat split.
    + by rewrite Hlen3, Hlen2, Hlen1.
    + intros f Hf'. destruct f as [|f]; [lia|]. cbn [decode].
      rewrite Hroot. cbn [mbind option_bind]. cbn [dim index node].
      rewrite HcutDimZ.
      destruct (Z.of_nat cutDim =? -1) eqn:E3; [lia|].
      destruct (Z.of_nat cutDim =? -2) eqn:E4; [lia|].
      destruct (0 <=? Z.of_nat cutDim) eqn:E5; [|lia].
      rewrite childLeft_eq, childRight_eq by done.
      rewrite (nodes_decode_stable f nodes2 nodes3 (2 * p + 1) tl);
        [|apply Hdl; lia
         |intros q Hq; apply Hql in Hq as (? & ? & ?); by apply Hfrr].
      cbn [mbind option_bind]. rewrite Hdr by lia. done.
    + cbn [pointIndices]. rewrite Hperml, Hpermr.
      rewrite Permutation_middle.
      replace (L + 1)%nat with (S L) by lia.
      by rewrite take_drop_middle.
    + by apply absentIsPadding_Split.
    + cbn [depth]. lia.
    + cbn [depth]. lia.
    + intros Hex. cbn [depth]. rewrite pow2_succ_nat in Hex.
      rewrite Hexl; [lia|]. rewrite length_take. lia.
    + cbn [positions]. rewrite childLeft_eq, childRight_eq by done.
      apply Forall_cons. split; [split; [apply inSubtree_refl|done]|].
      apply Forall_app. split.
      * eapply Forall_impl; [exact Hposl|]. intros q [Hs Hb]. split.
        -- by apply inSubtree_left.
        -- by rewrite <- Hlen1.
      * eapply Forall_impl; [exact Hposr|]. intros q [Hs Hb]. split.
        -- by apply inSubtree_right.
        -- by rewrite <- Hlen1, <- Hlen2.
    + intros q Hq Hnot. cbn [positions] in Hnot.
      rewrite childLeft_eq, childRight_eq in Hnot by done.
      apply not_elem_of_cons in Hnot as [Hqp Hnot].
      apply not_elem_of_app in Hnot as [Hnl Hnr].
      rewrite Hfrr, Hfrl by done. apply list_lookup_insert_ne. lia.
  - (* two points: both children are written directly *)
    assert (Hm : m = 1) by lia.
    assert (HL1 : L = 1%nat) by (unfold L; rewrite Hm; done).
    rewrite HL1 in *. clearbody pts'.
    destruct pts' as [|first [|idx' [|? ?]]]; cbn [length] in Hlen'; try lia.
    cbn in Hnth. injection Hnth as ->.
    cbn [head mbind option_bind].
    rewrite store_Some by (rewrite Hlen1; nia). cbn [mbind option_bind].
    rewrite store_Some by (rewrite length_insert, Hlen1; nia).
    set (leaf := {| dim := -1; index := first |}).
    set (absent := {| dim := -2; index := 0 |}).
    set (nodes3 := <[Z.to_nat (2 * p + 2) := absent]>
                     (<[Z.to_nat (2 * p + 1) := leaf]> nodes1)).
    assert (Hl0 : nodes3 !! Z.to_nat p = Some node).
    { unfold nodes3, nodes1. rewrite !list_lookup_insert_ne by lia.
      apply list_lookup_insert_eq. lia. }
    assert (Hl1 : nodes3 !! Z.to_nat (2 * p + 1) = Some leaf).
    { unfold nodes3. rewrite list_lookup_insert_ne by lia.
      apply list_lookup_insert_eq. rewrite Hlen1. nia. }
    assert (Hl2 : nodes3 !! Z.to_nat (2 * p + 2) = Some absent).
    { unfold nodes3. apply list_lookup_insert_eq.
      rewrite length_insert, Hlen1. nia. }
    exists nodes3, (Split (to_int (Z.of_nat cutDim)) idx (Leaf first) Absent).
    split; [done|].
    repeat split.
    + unfold nodes3. by rewrite !length_insert.
    + intros f Hf'. destruct f as [|f]; [lia|]. cbn [decode].
      rewrite childLeft_eq, childRight_eq by done.
      rewrite Hl0. cbn [mbind option_bind]. cbn [dim index node].
      rewrite HcutDimZ.
      destruct (Z.of_nat cutDim =? -1) eqn:E3; [lia|].
      destruct (Z.of_nat cutDim =? -2) eqn:E4; [lia|].
      destruct (0 <=? Z.of_nat cutDim) eqn:E5; [|lia].
      destruct f as [|f]; [lia|]. cbn [decode].
      rewrite Hl1, Hl2. done.
    + cbn [pointIndices app]. rewrite <- Hperm. apply Permutation_swap.
    + done.
    + cbn [depth]. lia.
    + intros Hex. cbn [depth]. rewrite pow2_succ_nat in Hex.
      destruct d as [|d]; [done|]. rewrite pow2_succ_nat in Hex.
      pose proof (pow2_nat_pos d). lia.
    + cbn [positions app]. rewrite childLeft_eq, childRight_eq by done.
      repeat apply Forall_cons_2; [| | |apply Forall_nil_2].
      * split; [apply inSubtree_refl|done].
      * split; [apply inSubtree_left, inSubtree_refl|nia].
      * split; [apply inSubtree_right, inSubtree_refl|nia].
    + intros q Hq Hnot. cbn [positions app] in Hnot.
      rewrite childLeft_eq, childRight_eq in Hnot by done.
      apply not_elem_of_cons in Hnot as [Hq0 Hnot].
      apply not_elem_of_cons in Hnot as [Hq1 Hnot].
      apply not_elem_of_cons in Hnot as [Hq2 _].
      unfold nodes3, nodes1. rewrite !list_lookup_insert_ne by lia. done.
Qed.
End BuildFacts.
End PtInNodesFacts.

Lemma highBit_spec e : 1 <= e → 2 ^ highBit e <= e < 2 * 2 ^ highBit e ∧ 0 <= highBit e.
Proof.
  intros He. unfold highBit. destruct (e =? 0) eqn:E; [lia|].
  pose proof (Z.log2_spec e) as Hs. pose proof (Z.log2_nonneg e).
  rewrite Z.pow_succ_r in Hs by done. lia.
Qed.

Lemma leaves_budget_spec n :
  1 <= n →
  n <= 2 ^ Z.of_nat (PtInLeaves.budget n)
  ∧ 2 ^ Z.of_nat (PtInLeaves.budget n) < 2 * n
  ∧ Z.of_nat (PtInLeaves.budget n) < n
  ∧ 2 ^ (highBit (n - 1) + 2) = 2 * 2 ^ Z.of_nat (PtInLeaves.budget n).
Proof.
  intros Hn. unfold PtInLeaves.budget.
  destruct (Z.eq_dec n 1) as [->|Hne].
  { change (highBit (1 - 1)) with (-1). change (Z.to_nat (-1 + 1)) with 0%nat.
    change (2 ^ Z.of_nat 0) with 1. change (2 ^ (-1 + 2)) with 2. lia. }
  destruct (highBit_spec (n - 1)) as [Hs H0]; [lia|].
  rewrite Z2Nat.id by lia.
  pose proof (Z.pow_gt_lin_r 2 (highBit (n - 1))).
  rewrite !Z.pow_add_r, !Z.pow_1_r by lia. change (2 ^ 2) with 4. lia.
Qed.

Lemma nodes_budget_spec n :
  1 <= n →
  n < 2 * 2 ^ Z.of_nat (PtInNodes.budget n)
  ∧ 2 ^ Z.of_nat (PtInNodes.budget n) <= n
  ∧ Z.of_nat (PtInNodes.budget n) < n
  ∧ 2 ^ (highBit n + 1) = 2 * 2 ^ Z.of_nat (PtInNodes.budget n).
Proof.
  intros Hn. destruct (highBit_spec n) as [Hs H0]; [lia|].
  unfold PtInNodes.budget. rewrite Z2Nat.id by lia.
  pose proof (Z.pow_gt_lin_r 2 (highBit n)).
  rewrite !Z.pow_add_r, !Z.pow_1_r by lia. lia.
Qed.

Section TreeTheorems.
Context `{Scalar T} `{NthElement}.

(** The build of the points-in-leaves variant over the whole point
    vector, into an array of [getTreeSize] nodes. *)
Lemma leaves_build (dimN : nat) (pts : list (PtInLeaves.BuildPoint T))
    (minV maxV : list T) (nodes : list (PtInLeaves.Node T)) :
  1 <= Z.of_nat (length pts) < 2 ^ 31 →
  (0 < dimN)%nat → Z.of_nat dimN < 2 ^ 31 →
  Forall (PtInLeaves.wfPoint dimN) pts →
  length minV = dimN → length maxV = dimN →
  PtInLeaves.getTreeSize (Z.of_nat (length pts)) = Some (Z.of_nat (length nodes)) →
  ∃ nodes' t,
    PtInLeaves.buildNodes (length pts) pts 0 minV maxV nodes = Some nodes'
    ∧ PtInLeaves.getTreeDepth (Z.of_nat (length pts))
      = Some (Z.of_nat (PtInLeaves.budget (Z.of_nat (length pts))))
    ∧ PtInLeaves.depth t = Z.of_nat (PtInLeaves.budget (Z.of_nat (length pts)))
    ∧ PtInLeaves.built (PtInLeaves.budget (Z.of_nat (length pts)))
        pts 0 nodes nodes' t.
Proof.
  intros Hn Hdim Hdim31 Hwf Hmin Hmax Hsize.
  set (n := Z.of_nat (length pts)) in *.
  destruct (leaves_budget_spec n) as (Hle & Hlt & Hfuel & Hpow); [lia|].
  change (2 ^ 31) with 2147483648 in Hn.
  rewrite leaves_getTreeSize_spec in Hsize
    by (change (2 ^ 31) with 2147483648; lia).
  injection Hsize as Hsize. rewrite Hpow in Hsize.
  assert (Hb : 2 ^ Z.of_nat (PtInLeaves.budget n) <= 2 ^ 32).
  { change (2 ^ 32) with 4294967296. lia. }
  change (2 ^ 32) with 4294967296 in Hb.
  destruct (PtInLeavesFacts.leaves_buildNodes_spec dimN (PtInLeaves.budget n) (length pts)
              pts 0 minV maxV nodes) as (nodes' & t & Hbuild & Hbuilt);
    [lia|done|done|done|done|done|fold n; lia|lia|lia
    |change (2 ^ 62) with 4611686018427387904; lia|].
  exists nodes', t. split; [done|].
  assert (Hdepth : PtInLeaves.depth t = Z.of_nat (PtInLeaves.budget n)).
  { destruct Hbuilt as (_ & _ & _ & _ & Hex & _). apply Hex. fold n. lia. }
  split; [|done].
  destruct (Z.eq_dec n 1) as [E|E].
  - rewrite E. reflexivity.
  - rewrite leaves_getTreeDepth_spec
      by (change (2 ^ 64) with 18446744073709551616; lia).
    destruct (2 ^ 31 <=? n - 1) eqn:E31;
      [change (2 ^ 31) with 2147483648 in E31; lia|].
    f_equal. unfold PtInLeaves.budget, highBit.
    destruct (n - 1 =? 0) eqn:E0; [lia|].
    pose proof (Z.log2_nonneg (n - 1)). lia.
Qed.

(** The build of the points-in-nodes variant over the whole index
    vector, into an array of [getTreeSize] nodes. *)
Lemma nodes_build (cloud : Matrix T) (dimN : nat) (pts : list Z)
    (minV maxV : list T) (nodes : list PtInNodes.Node) :
  1 <= Z.of_nat (length pts) < 2 ^ 31 →
  (0 < dimN)%nat → Z.of_nat dimN < 2 ^ 31 →
  Forall (PtInNodes.wfIndex cloud dimN) pts →
  length minV = dimN → length maxV = dimN →
  PtInNodes.getTreeSize (Z.of_nat (length pts)) = Some (Z.of_nat (length nodes)) →
  ∃ nodes' t,
    PtInNodes.buildNodes cloud (length pts) pts 0 minV maxV nodes = Some nodes'
    ∧ PtInNodes.getTreeDepth (Z.of_nat (length pts))
      = Some (highBit (Z.of_nat (length pts)) + 1)
    ∧ PtInNodes.depth t = highBit (Z.of_nat (length pts))
    ∧ PtInNodes.built (PtInNodes.budget (Z.of_nat (length pts)))
        pts 0 nodes nodes' t.
Proof.
  intros Hn Hdim Hdim31 Hwf Hmin Hmax Hsize.
  set (n := Z.of_nat (length pts)) in *.
  destruct (nodes_budget_spec n) as (Hlt & Hle & Hfuel & Hpow); [lia|].
  destruct (highBit_spec n) as [_ Hh0]; [lia|].
  change (2 ^ 31) with 2147483648 in Hn.
  rewrite nodes_getTreeSize_spec in Hsize
    by (change (2 ^ 31) with 2147483648; lia).
  injection Hsize as Hsize. rewrite Hpow in Hsize.
  destruct (PtInNodesFacts.nodes_buildNodes_spec cloud dimN (PtInNodes.budget n)
              (length pts) pts 0 minV maxV nodes)
    as (nodes' & t & Hbuild & Hbuilt);
    [lia|done|done|done|done|done|fold n; lia|lia|lia
    |change (2 ^ 62) with 4611686018427387904; lia|].
  exists nodes', t. split; [done|].
  assert (Hdepth : PtInNodes.depth t = highBit n).
  { destruct Hbuilt as (_ & _ & _ & _ & _ & Hex & _).
    rewrite Hex; [unfold PtInNodes.budget; lia|]. fold n. lia. }
  split; [|done].
  rewrite nodes_getTreeDepth_spec
    by (change (2 ^ 64) with 18446744073709551616; lia).
  destruct (2 ^ 31 <=? n) eqn:E31;
    [change (2 ^ 31) with 2147483648 in E31; lia|done].
Qed.
End TreeTheorems.

(** ** Properties of the split choice, the tree sizes and the builds *)

(** C8.  On a non-empty vector of axis extents (no component below zero),
    [argMax] returns an index whose component no other component exceeds,
    and every component at a lower index is strictly smaller: among the
    axes attaining the maximum the first one wins. *)
Theorem argMax_first_maximum `{Scalar T} (v : list T) :
  v ≠ [] →
  Forall (λ x, gtb zero x = false) v →
  ∃ m, v !! argMax v = Some m
       ∧ (∀ j y, v !! j = Some y → gtb y m = false)
       ∧ (∀ j y, (j < argMax v)%nat → v !! j = Some y → gtb m y = true).
Proof.
  intros Hne Hpos. destruct (argMax_inv v) as (m & Hle & [[Hl Hfirst]|(Hi & Hmz & Hzm)]).
  - exists m. split; [done|]. split; [|done].
    intros j y Hy. apply Hle. by eapply list_elem_of_lookup_2.
  - rewrite Hi. destruct v as [|m0 v]; [done|]. exists m0. split; [done|].
    split; [|intros; lia].
    intros j y Hy. destruct (gtb y m0) eqn:Hym; [|done].
    apply Forall_cons in Hpos as [Hm0 _].
    destruct (gtb_cotrans _ zero _ Hym) as [Hyz|Hc]; [|congruence].
    destruct (gtb_cotrans _ m _ Hyz) as [Hc|Hc]; [|congruence].
    rewrite Hle in Hc; [done|]. by eapply list_elem_of_lookup_2.
Qed.

Lemma specLeavesTreeSize_eq n :
  1 <= n → specLeavesTreeSize n = 2 ^ (highBit (n - 1) + 2) - 1.
Proof.
  intros Hn. unfold specLeavesTreeSize, highBit.
  destruct (n =? 1) eqn:E1.
  - assert (n = 1) as -> by lia. reflexivity.
  - destruct (n - 1 =? 0) eqn:E0; [lia|].
    pose proof (Z.log2_nonneg (n - 1)) as Hh. set (h := Z.log2 (n - 1)) in *.
    rewrite Z.shiftl_1_l, Z.shiftl_mul_pow2, Z.pow_1_r by lia.
    rewrite Z.mul_comm, lor_even_1.
    replace (h + 2) with (h + 1 + 1) by lia.
    rewrite (Z.pow_add_r 2 (h + 1) 1); lia.
Qed.

Lemma specNodesTreeSize_eq n :
  1 <= n → specNodesTreeSize n = 2 ^ (highBit n + 1) - 1.
Proof.
  intros Hn. unfold specNodesTreeSize, highBit.
  destruct (n =? 0) eqn:E0; [lia|].
  pose proof (Z.log2_nonneg n). by rewrite Z.shiftl_1_l.
Qed.

(** C4, as stated, fails: for [n = 2^31 + 1] the highest set bit of
    [n - 1] is bit 31, the [int] mask [1 << 31] is negative and sets bits
    31 to 63 of [count], and [getTreeSize] returns [2^64 - 1] where the
    formula gives [2^33 - 1]. *)
Lemma getTreeSize_formula_fails_beyond_int :
  ¬ (∀ n, 1 <= n < 2 ^ 64 →
       PtInLeaves.getTreeSize n = Some (specLeavesTreeSize n)
       ∧ PtInNodes.getTreeSize n = Some (specNodesTreeSize n)).
Proof.
  intros Hall. destruct (Hall (2 ^ 31 + 1)) as [Hl _]; [done|].
  vm_compute in Hl. discriminate Hl.
Qed.

(** C4 (amended).  For every [n] with [1 <= n <= 2^31] the points-in-leaves
    [getTreeSize n] is [(((1<<(h+1))-1)<<1)|1] with [h] the highest set bit
    of [n-1] (and [1] for [n = 1]); for every [n] with [1 <= n < 2^31] the
    points-in-nodes [getTreeSize n] is [(1<<(h'+1))-1] with [h'] the
    highest set bit of [n]. *)
Theorem getTreeSize_formulas (n : Z) :
  (1 <= n <= 2 ^ 31 → PtInLeaves.getTreeSize n = Some (specLeavesTreeSize n))
  ∧ (1 <= n < 2 ^ 31 → PtInNodes.getTreeSize n = Some (specNodesTreeSize n)).
Proof.
  split; intros Hn.
  - rewrite specLeavesTreeSize_eq by lia. by apply leaves_getTreeSize_spec.
  - rewrite specNodesTreeSize_eq by lia. apply nodes_getTreeSize_spec. lia.
Qed.

Lemma getTreeSize_formulas_witness :
  PtInLeaves.getTreeSize 5 = Some (specLeavesTreeSize 5)
  ∧ PtInNodes.getTreeSize 5 = Some (specNodesTreeSize 5).
Proof.
  split; [apply (proj1 (getTreeSize_formulas 5))
         |apply (proj2 (getTreeSize_formulas 5))]; vm_compute; repeat split; congruence.
Defined.

(** C10, as stated, fails on a 64-bit [size_t]: for [elCount = 2^32 + 1]
    no bit of [elCount - 1] among the positions 0 to 31 is set. *)
Lemma getTreeDepth_no_low_bit :
  ¬ (∀ elCount, 2 <= elCount < 2 ^ 64 →
       ∃ i, 0 <= i <= 31 ∧ Z.testbit (elCount - 1) i = true
            ∧ PtInLeaves.getTreeDepth elCount = Some (i + 1)).
Proof.
  intros Hall. destruct (Hall (2 ^ 32 + 1)) as (i & Hi & Hbit & _); [done|].
  replace (2 ^ 32 + 1 - 1) with (2 ^ 32) in Hbit by lia.
  rewrite Z.pow2_bits_eqb in Hbit by lia.
  apply Z.eqb_eq in Hbit. lia.
Qed.

(** C10 (amended).  [getTreeDepth] of the points-in-leaves variant returns
    for every count: [0] for [elCount <= 1]; for [elCount >= 2] the scan
    leaves its loop at some [i] in [0, 31] and the result is [i + 1].  For
    [elCount <= 2^32] that [i] is the highest set bit of [elCount - 1];
    beyond, the loop still exits at [i = 31], because the [int] mask
    [1 << 31] is sign-extended over the bits 31 to 63. *)
Theorem getTreeDepth_terminates (elCount : Z) :
  0 <= elCount < 2 ^ 64 →
  (elCount <= 1 → PtInLeaves.getTreeDepth elCount = Some 0)
  ∧ (2 <= elCount →
     ∃ i, 0 <= i <= 31
          ∧ bitScanSize LOOP_FUEL (elCount - 1) 31 = Some i
          ∧ PtInLeaves.getTreeDepth elCount = Some (i + 1)
          ∧ (elCount <= 2 ^ 32 →
             Z.testbit (elCount - 1) i = true
             ∧ ∀ j, i < j → Z.testbit (elCount - 1) j = false)
          ∧ (2 ^ 32 < elCount →
             i = 31 ∧ Z.land (elCount - 1) highMask ≠ 0)).
Proof.
  intros Hrange. split; [apply leaves_getTreeDepth_le1|]. intros H2.
  change (2 ^ 64) with 18446744073709551616 in Hrange.
  pose proof (leaves_getTreeDepth_spec elCount) as Hd.
  pose proof (bitScanSize_31 LOOP_FUEL (elCount - 1)) as Hs.
  change (2 ^ 64) with 18446744073709551616 in Hd, Hs.
  rewrite Hd, Hs by (unfold LOOP_FUEL; lia). clear Hd Hs.
  pose proof (Z.log2_nonneg (elCount - 1)) as Hl0.
  destruct (2 ^ 31 <=? elCount - 1) eqn:E31.
  - apply Z.leb_le in E31. exists 31.
    split; [lia|]. split; [done|]. split; [done|]. split.
    + intros Hle. split.
      * apply Z.testbit_true; [lia|].
        assert ((elCount - 1) / 2 ^ 31 = 1) as ->; [|done].
        symmetry. apply Z.div_unique with (elCount - 1 - 2 ^ 31).
        -- change (2 ^ 32) with 4294967296 in Hle.
           change (2 ^ 31) with 2147483648 in *. lia.
        -- lia.
      * intros j Hj. apply Z.bits_above_log2; [lia|].
        assert (Z.log2 (elCount - 1) < 32); [|lia].
        apply Z.log2_lt_pow2; [lia|].
        change (2 ^ 32) with 4294967296 in *. lia.
    + intros _. split; [done|]. apply land_highMask_high.
      change (2 ^ 64) with 18446744073709551616. lia.
  - apply Z.leb_gt in E31.
    assert (Hl31 : Z.log2 (elCount - 1) < 31) by (apply Z.log2_lt_pow2; lia).
    exists (Z.log2 (elCount - 1)).
    split; [lia|]. split; [done|]. split; [done|]. split.
    + intros _. split; [apply Z.bit_log2; lia|].
      intros j Hj. apply Z.bits_above_log2; lia.
    + change (2 ^ 31) with 2147483648 in E31.
      change (2 ^ 32) with 4294967296 in *. lia.
Qed.

Lemma getTreeDepth_terminates_witness :
  ∃ i, 0 <= i <= 31
       ∧ bitScanSize LOOP_FUEL (9 - 1) 31 = Some i
       ∧ PtInLeaves.getTreeDepth 9 = Some (i + 1)
       ∧ (9 <= 2 ^ 32 →
          Z.testbit (9 - 1) i = true
          ∧ ∀ j, i < j → Z.testbit (9 - 1) j = false)
       ∧ (2 ^ 32 < 9 → i = 31 ∧ Z.land (9 - 1) highMask ≠ 0).
Proof.
  apply (proj2 (getTreeDepth_terminates 9 ltac:(vm_compute; split; congruence))).
  lia.
Defined.

Lemma NoDup_seqZ (n : nat) : NoDup (Z.of_nat <$> seq 0 n).
Proof. apply NoDup_fmap; [apply _|apply NoDup_seq]. Qed.

Lemma leafTags_leafIndices t :
  PtInLeaves.leafTags t = (λ i, -2 - i) <$> PtInLeaves.leafIndices t.
Proof.
  induction t as [i|c l IHl r IHr]; cbn; [done|]. by rewrite fmap_app, IHl, IHr.
Qed.

(** C5.  In the points-in-leaves variant a one-point range with original
    index [i] is stored as the leaf tag [-2 - i]; and after a build from
    [n >= 1] points with the indices [0 .. n-1], into an array of
    [getTreeSize n] nodes, the traversal of the array from the root finds
    leaf tags that are all [<= -2] and decode to the indices [0 .. n-1],
    each exactly once. *)
Theorem leaves_leaf_sentinels `{Scalar T} `{NthElement} (dimN : nat)
    (pts : list (PtInLeaves.BuildPoint T)) (minV maxV : list T)
    (nodes : list (PtInLeaves.Node T)) :
  1 <= Z.of_nat (length pts) < 2 ^ 31 →
  PtInLeaves.index <$> pts = Z.of_nat <$> seq 0 (length pts) →
  (0 < dimN)%nat → Z.of_nat dimN < 2 ^ 31 →
  Forall (λ bp, length (PtInLeaves.pos bp) = dimN) pts →
  length minV = dimN → length maxV = dimN →
  PtInLeaves.getTreeSize (Z.of_nat (length pts)) = Some (Z.of_nat (length nodes)) →
  (∀ bp, bp ∈ pts → ∀ fuel p minV' maxV' nodes0,
     PtInLeaves.buildNodes (S fuel) [bp] p minV' maxV' nodes0
     = store p {| PtInLeaves.dim := -2 - PtInLeaves.index bp;
                  PtInLeaves.cutVal := zero |} nodes0)
  ∧ ∃ nodes' t,
      PtInLeaves.buildNodes (length pts) pts 0 minV maxV nodes = Some nodes'
      ∧ (∀ f, (PtInLeaves.budget (Z.of_nat (length pts)) < f)%nat →
              PtInLeaves.decode f nodes' 0 = Some t)
      ∧ PtInLeaves.leafTags t = (λ i, -2 - i) <$> PtInLeaves.leafIndices t
      ∧ Forall (λ tag, tag <= -2) (PtInLeaves.leafTags t)
      ∧ PtInLeaves.leafIndices t ≡ₚ Z.of_nat <$> seq 0 (length pts)
      ∧ NoDup (PtInLeaves.leafIndices t).
Proof.
  intros Hn Hidx Hdim Hdim31 Hpos Hmin Hmax Hsize.
  assert (Hrange : ∀ bp, bp ∈ pts → 0 <= PtInLeaves.index bp <= 2 ^ 31 - 2).
  { intros bp Hbp.
    assert (Hin : PtInLeaves.index bp ∈ PtInLeaves.index <$> pts)
      by (by apply list_elem_of_fmap_2).
    rewrite Hidx in Hin. apply list_elem_of_fmap in Hin as (k & -> & Hk).
    apply elem_of_seq in Hk. change (2 ^ 31) with 2147483648 in *. lia. }
  split.
  - intros bp Hbp fuel p minV' maxV' nodes0. cbn.
    rewrite to_int_small; [done|].
    specialize (Hrange bp Hbp). change (2 ^ 31) with 2147483648 in *. lia.
  - assert (Hwf : Forall (PtInLeaves.wfPoint dimN) pts).
    { apply Forall_forall. intros bp Hbp. split; [|by apply Hrange].
      by eapply Forall_forall in Hpos. }
    destruct (leaves_build dimN pts minV maxV nodes)
      as (nodes' & t & Hbuild & _ & _ & Hbuilt); try done.
    destruct Hbuilt as (_ & Hdec & Hperm & _).
    exists nodes', t. split; [done|]. split; [done|].
    split; [apply leafTags_leafIndices|].
    rewrite Hidx in Hperm.
    split; [|split; [done|]].
    + rewrite leafTags_leafIndices. apply Forall_fmap, Forall_forall.
      intros i Hi. rewrite Hperm in Hi.
      apply list_elem_of_fmap in Hi as (k & -> & _). cbn. lia.
    + rewrite Hperm. apply NoDup_seqZ.
Qed.

(** A two-point range of the points-in-nodes variant: one point goes to
    the current position and both child slots are written directly; no
    recursive call is made (one unit of fuel is enough). *)
Lemma nodes_two_points `{Scalar T} `{NthElement} (cloud : Matrix T) (dimN : nat)
    (a b p : Z) (minV maxV : list T) (nodes0 : list PtInNodes.Node) :
  (0 < dimN)%nat → Z.of_nat dimN < 2 ^ 31 →
  PtInNodes.wfIndex cloud dimN a → PtInNodes.wfIndex cloud dimN b →
  length minV = dimN → length maxV = dimN →
  ∃ cutDim first idx,
    [first; idx] ≡ₚ [a; b] ∧ 0 <= cutDim
    ∧ PtInNodes.buildNodes cloud 1 [a; b] p minV maxV nodes0
      = (nodes1 ← store p {| PtInNodes.dim := cutDim; PtInNodes.index := idx |} nodes0;
         nodes2 ← store (childLeft p)
                    {| PtInNodes.dim := -1; PtInNodes.index := first |} nodes1;
         store (childRight p) {| PtInNodes.dim := -2; PtInNodes.index := 0 |} nodes2).
Proof.
  intros Hdim Hdim31 Ha Hb Hmin Hmax.
  cbn [PtInNodes.buildNodes length].
  change (Z.of_nat 2 =? 1) with false. cbn match.
  change (to_size_t (Z.of_nat 2 - 1)) with 1.
  change (to_size_t (1 - 1 / 2)) with 1.
  change (Z.to_nat 1) with 1%nat.
  change (Z.of_nat 2 >? 2) with false. cbn match.
  set (cutDim := argMax (vsub maxV minV)).
  assert (HcutDim : (cutDim < dimN)%nat).
  { unfold cutDim.
    assert (Hl : length (vsub maxV minV) = dimN).
    { unfold vsub. rewrite length_zip_with. lia. }
    rewrite <- Hl. apply argMax_lt. intros E. rewrite E in Hl. cbn in Hl. lia. }
  pose proof (nth_element_perm _ (PtInNodes.CompareDim cloud cutDim) 1 [a; b]) as Hperm.
  set (pts' := nth_element (PtInNodes.CompareDim cloud cutDim) 1 [a; b]) in *.
  clearbody pts'.
  assert (Hlen : length pts' = 2%nat) by (by rewrite Hperm).
  destruct pts' as [|first [|idx [|? ?]]]; cbn [length] in Hlen; try lia.
  assert (Hidx : PtInNodes.wfIndex cloud dimN idx).
  { assert (Hin : idx ∈ [a; b]) by (rewrite <- Hperm; set_solver).
    apply elem_of_cons in Hin as [->|Hin]; [done|].
    by apply list_elem_of_singleton in Hin as ->. }
  destruct Hidx as (_ & col & Hcol & Hcollen).
  exists (to_int (Z.of_nat cutDim)), first, idx.
  split; [done|]. split.
  { rewrite to_int_small; [lia|]. change (2 ^ 31) with 2147483648 in *. lia. }
  cbn [lookup list_lookup mbind option_bind head].
  unfold mcoeff. rewrite Hcol. cbn [mbind option_bind].
  destruct (col !! cutDim) as [cv|] eqn:Hcv;
    [done|apply lookup_ge_None in Hcv; lia].
Qed.

(** C6.  In the points-in-nodes variant a one-point range is stored as the
    leaf [(-1, index)]; a two-point range stores one point at the current
    position and writes the child slots as [(-1, index)] and [(-2, 0)]
    without recursing; and after a build over the indices [0 .. n-1] of a
    cloud of [n >= 1] points, into an array of [getTreeSize n] nodes, the
    indices found in the leaves and in the split nodes are [0 .. n-1], each
    exactly once, while every [(-2, _)] marker is the right sibling of a
    one-point leaf, holds no point, and nothing was written outside the
    positions of the tree (so nothing lies below a marker). *)
Theorem nodes_points_and_markers `{Scalar T} `{NthElement} (cloud : Matrix T)
    (dimN : nat) (minV maxV : list T) (nodes : list PtInNodes.Node) :
  1 <= cols cloud < 2 ^ 31 →
  (0 < dimN)%nat → Z.of_nat dimN < 2 ^ 31 →
  Forall (λ c, (dimN <= length c)%nat) (columns cloud) →
  length minV = dimN → length maxV = dimN →
  PtInNodes.getTreeSize (cols cloud) = Some (Z.of_nat (length nodes)) →
  (∀ i fuel p minV' maxV' nodes0,
     PtInNodes.buildNodes cloud (S fuel) [i] p minV' maxV' nodes0
     = store p {| PtInNodes.dim := -1; PtInNodes.index := i |} nodes0)
  ∧ (∀ a b p minV' maxV' nodes0,
       PtInNodes.wfIndex cloud dimN a → PtInNodes.wfIndex cloud dimN b →
       length minV' = dimN → length maxV' = dimN →
       ∃ cutDim first idx,
         [first; idx] ≡ₚ [a; b] ∧ 0 <= cutDim
         ∧ PtInNodes.buildNodes cloud 1 [a; b] p minV' maxV' nodes0
           = (nodes1 ← store p {| PtInNodes.dim := cutDim;
                                  PtInNodes.index := idx |} nodes0;
              nodes2 ← store (childLeft p)
                         {| PtInNodes.dim := -1; PtInNodes.index := first |} nodes1;
              store (childRight p)
                {| PtInNodes.dim := -2; PtInNodes.index := 0 |} nodes2))
  ∧ ∃ nodes' t,
      PtInNodes.buildNodes cloud (length (columns cloud))
        (Z.of_nat <$> seq 0 (length (columns cloud))) 0 minV maxV nodes
      = Some nodes'
      ∧ (∀ f, (PtInNodes.budget (cols cloud) < f)%nat →
              PtInNodes.decode f nodes' 0 = Some t)
      ∧ PtInNodes.pointIndices t ≡ₚ Z.of_nat <$> seq 0 (length (columns cloud))
      ∧ NoDup (PtInNodes.pointIndices t)
      ∧ PtInNodes.absentIsPadding t = true
      ∧ (∀ q, 0 <= q → q ∉ PtInNodes.positions t 0 →
              nodes' !! Z.to_nat q = nodes !! Z.to_nat q).
Proof.
  intros Hn Hdim Hdim31 Hcols Hmin Hmax Hsize.
  split; [done|]. split.
  { intros a b p minV' maxV' nodes0 Ha Hb Hmin' Hmax'.
    by eapply nodes_two_points. }
  unfold cols in *.
  set (pts := Z.of_nat <$> seq 0 (length (columns cloud))).
  assert (Hlen : length pts = length (columns cloud)).
  { unfold pts. by rewrite length_fmap, length_seq. }
  assert (Hwf : Forall (PtInNodes.wfIndex cloud dimN) pts).
  { apply Forall_forall. intros i Hi.
    apply list_elem_of_fmap in Hi as (k & -> & Hk). apply elem_of_seq in Hk.
    split; [lia|]. rewrite Nat2Z.id.
    destruct (lookup_lt_is_Some_2 (columns cloud) k) as [c Hc]; [lia|].
    exists c. split; [done|].
    eapply Forall_forall in Hcols; [done|]. by eapply list_elem_of_lookup_2. }
  destruct (nodes_build cloud dimN pts minV maxV nodes)
    as (nodes' & t & Hbuild & _ & _ & Hbuilt); rewrite ?Hlen; try done.
  rewrite Hlen in Hbuild, Hbuilt.
  destruct Hbuilt as (_ & Hdec & Hperm & Hpad & _ & _ & _ & Hframe).
  exists nodes', t. repeat split; try done.
  rewrite Hperm. apply NoDup_seqZ.
Qed.

(** C3, as stated, fails for the points-in-nodes variant: a cloud of one
    point is built into the single leaf at the root, of depth [0], and
    [getTreeDepth 1] is [1]. *)
Lemma nodes_getTreeDepth_exceeds_depth :
  ∃ nodes' t,
    PtInNodes.buildNodes singleCloud 1 [0] 0 [4; 2] [4; 2]
      [{| PtInNodes.dim := -2; PtInNodes.index := 0 |}] = Some nodes'
    ∧ PtInNodes.decode 1 nodes' 0 = Some t
    ∧ PtInNodes.depth t = 0
    ∧ PtInNodes.getTreeDepth 1 = Some 1
    ∧ PtInNodes.getTreeDepth 1 ≠ Some (PtInNodes.depth t).
Proof.
  exists [{| PtInNodes.dim := -1; PtInNodes.index := 0 |}], (PtInNodes.Leaf 0).
  repeat split; vm_compute; congruence.
Qed.

(** C3 (amended).  For every point count [1 <= n < 2^31] and every point
    configuration: in the points-in-leaves variant [getTreeDepth n] is the
    maximum root-to-leaf depth of the tree that [buildNodes] produces; in
    the points-in-nodes variant [getTreeDepth n] is that depth plus one
    (the number of levels); and in both variants every position written by
    the build is below [getTreeSize n], the size of the array. *)
Theorem buildNodes_depth_and_positions `{Scalar T} `{NthElement} (dimN : nat)
    (minV maxV : list T) :
  (0 < dimN)%nat → Z.of_nat dimN < 2 ^ 31 →
  length minV = dimN → length maxV = dimN →
  (∀ (pts : list (PtInLeaves.BuildPoint T)) (nodes : list (PtInLeaves.Node T)),
     1 <= Z.of_nat (length pts) < 2 ^ 31 →
     Forall (PtInLeaves.wfPoint dimN) pts →
     PtInLeaves.getTreeSize (Z.of_nat (length pts)) = Some (Z.of_nat (length nodes)) →
     ∃ nodes' t D,
       PtInLeaves.buildNodes (length pts) pts 0 minV maxV nodes = Some nodes'
       ∧ PtInLeaves.getTreeDepth (Z.of_nat (length pts)) = Some D
       ∧ (∀ f, D < Z.of_nat f → PtInLeaves.decode f nodes' 0 = Some t)
       ∧ PtInLeaves.depth t = D
       ∧ Forall (λ q, 0 <= q < Z.of_nat (length nodes)) (PtInLeaves.positions t 0)
       ∧ (∀ q, 0 <= q → q ∉ PtInLeaves.positions t 0 →
               nodes' !! Z.to_nat q = nodes !! Z.to_nat q))
  ∧ (∀ (cloud : Matrix T) (pts : list Z) (nodes : list PtInNodes.Node),
       1 <= Z.of_nat (length pts) < 2 ^ 31 →
       Forall (PtInNodes.wfIndex cloud dimN) pts →
       PtInNodes.getTreeSize (Z.of_nat (length pts)) = Some (Z.of_nat (length nodes)) →
       ∃ nodes' t D,
         PtInNodes.buildNodes cloud (length pts) pts 0 minV maxV nodes = Some nodes'
         ∧ PtInNodes.getTreeDepth (Z.of_nat (length pts)) = Some D
         ∧ (∀ f, D <= Z.of_nat f → PtInNodes.decode f nodes' 0 = Some t)
         ∧ PtInNodes.depth t + 1 = D
         ∧ Forall (λ q, 0 <= q < Z.of_nat (length nodes)) (PtInNodes.positions t 0)
         ∧ (∀ q, 0 <= q → q ∉ PtInNodes.positions t 0 →
                 nodes' !! Z.to_nat q = nodes !! Z.to_nat q)).
Proof.
  intros Hdim Hdim31 Hmin Hmax. split.
  - intros pts nodes Hn Hwf Hsize.
    destruct (leaves_build dimN pts minV maxV nodes)
      as (nodes' & t & Hbuild & Hdepth & Hd & Hbuilt); try done.
    destruct Hbuilt as (_ & Hdec & _ & _ & _ & Hpos & Hframe).
    exists nodes', t, (Z.of_nat (PtInLeaves.budget (Z.of_nat (length pts)))).
    split; [done|]. split; [done|]. split; [intros f Hf; apply Hdec; lia|].
    split; [done|]. split; [|done].
    eapply Forall_impl; [exact Hpos|]. by intros q [_ ?].
  - intros cloud pts nodes Hn Hwf Hsize.
    destruct (nodes_build cloud dimN pts minV maxV nodes)
      as (nodes' & t & Hbuild & Hdepth & Hd & Hbuilt); try done.
    destruct Hbuilt as (_ & Hdec & _ & _ & _ & _ & Hpos & Hframe).
    destruct (highBit_spec (Z.of_nat (length pts))) as [_ Hh0]; [lia|].
    exists nodes', t, (highBit (Z.of_nat (length pts)) + 1).
    split; [done|]. split; [done|].
    split; [intros f Hf; apply Hdec; unfold PtInNodes.budget; lia|].
    split; [lia|]. split; [|done].
    eapply Forall_impl; [exact Hpos|]. by intros q [_ ?].
Qed.

Lemma argMax_first_maximum_witness :
  exampleExtents ≠ []
  ∧ Forall (λ x : Z, gtb zero x = false) exampleExtents
  ∧ ∃ m : Z, exampleExtents !! argMax exampleExtents = Some m
       ∧ (∀ j y, exampleExtents !! j = Some y → gtb y m = false)
       ∧ (∀ j y, (j < argMax exampleExtents)%nat →
                 exampleExtents !! j = Some y → gtb m y = true).
Proof.
  assert (Hne : exampleExtents ≠ []) by discriminate.
  assert (Hpos : Forall (λ x : Z, gtb zero x = false) exampleExtents)
    by (repeat constructor).
  split; [exact Hne|]. split; [exact Hpos|].
  exact (argMax_first_maximum exampleExtents Hne Hpos).
Defined.

Lemma leaves_leaf_sentinels_witness :
  ∃ nodes' t,
    PtInLeaves.buildNodes 5 examplePoints 0 [0; 0] [10; 10] exampleLeavesNodes
    = Some nodes'
    ∧ (∀ f, (PtInLeaves.budget 5 < f)%nat → PtInLeaves.decode f nodes' 0 = Some t)
    ∧ PtInLeaves.leafTags t = (λ i, -2 - i) <$> PtInLeaves.leafIndices t
    ∧ Forall (λ tag, tag <= -2) (PtInLeaves.leafTags t)
    ∧ PtInLeaves.leafIndices t ≡ₚ [0; 1; 2; 3; 4]
    ∧ NoDup (PtInLeaves.leafIndices t).
Proof.
  apply (leaves_leaf_sentinels (T := Z) 2 examplePoints [0; 0] [10; 10]
           exampleLeavesNodes).
  - vm_compute. split; congruence.
  - reflexivity.
  - lia.
  - vm_compute. reflexivity.
  - repeat constructor.
  - reflexivity.
  - reflexivity.
  - reflexivity.
Defined.

Lemma nodes_points_and_markers_witness :
  ∃ nodes' t,
    PtInNodes.buildNodes exampleCloud 5 [0; 1; 2; 3; 4] 0 [0; 0] [10; 10]
      exampleNodesNodes = Some nodes'
    ∧ (∀ f, (PtInNodes.budget 5 < f)%nat → PtInNodes.decode f nodes' 0 = Some t)
    ∧ PtInNodes.pointIndices t ≡ₚ [0; 1; 2; 3; 4]
    ∧ NoDup (PtInNodes.pointIndices t)
    ∧ PtInNodes.absentIsPadding t = true
    ∧ (∀ q, 0 <= q → q ∉ PtInNodes.positions t 0 →
            nodes' !! Z.to_nat q = exampleNodesNodes !! Z.to_nat q).
Proof.
  apply (nodes_points_and_markers (T := Z) exampleCloud 2 [0; 0] [10; 10]
           exampleNodesNodes).
  - vm_compute. split; congruence.
  - lia.
  - vm_compute. reflexivity.
  - repeat constructor.
  - reflexivity.
  - reflexivity.
  - reflexivity.
Defined.

Lemma buildNodes_depth_and_positions_witness :
  (∃ nodes' t D,
     PtInLeaves.buildNodes 5 examplePoints 0 [0; 0] [10; 10] exampleLeavesNodes
     = Some nodes'
     ∧ PtInLeaves.getTreeDepth 5 = Some D
     ∧ (∀ f, D < Z.of_nat f → PtInLeaves.decode f nodes' 0 = Some t)
     ∧ PtInLeaves.depth t = D
     ∧ Forall (λ q, 0 <= q < 15) (PtInLeaves.positions t 0)
     ∧ (∀ q, 0 <= q → q ∉ PtInLeaves.positions t 0 →
             nodes' !! Z.to_nat q = exampleLeavesNodes !! Z.to_nat q))
  ∧ (∃ nodes' t D,
       PtInNodes.buildNodes exampleCloud 5 [0; 1; 2; 3; 4] 0 [0; 0] [10; 10]
         exampleNodesNodes = Some nodes'
       ∧ PtInNodes.getTreeDepth 5 = Some D
       ∧ (∀ f, D <= Z.of_nat f → PtInNodes.decode f nodes' 0 = Some t)
       ∧ PtInNodes.depth t + 1 = D
       ∧ Forall (λ q, 0 <= q < 7) (PtInNodes.positions t 0)
       ∧ (∀ q, 0 <= q → q ∉ PtInNodes.positions t 0 →
               nodes' !! Z.to_nat q = exampleNodesNodes !! Z.to_nat q)).
Proof.
  destruct (buildNodes_depth_and_positions (T := Z) 2 [0; 0] [10; 10])
    as [Hleaves Hnodes]; [lia|vm_compute; reflexivity|reflexivity|reflexivity|].
  split.
  - apply (Hleaves examplePoints exampleLeavesNodes).
    + vm_compute. split; congruence.
    + repeat constructor; vm_compute; congruence.
    + reflexivity.
  - apply (Hnodes exampleCloud [0; 1; 2; 3; 4] exampleNodesNodes).
    + vm_compute. split; congruence.
    + repeat constructor; try (vm_compute; congruence).
      all: eexists; split; [reflexivity|cbn; lia].
    + reflexivity.
Defined.

(** ** The host side *)

Section HostFacts.
Context {T : Type} `{Platform T}.

Lemma bind_inr {A B} (c : M (World T) A) (k : A → M (World T) B) w b w' :
  bind c k w = (inr b, w') → ∃ a w1, c w = (inr a, w1) ∧ k a w1 = (inr b, w').
Proof.
  unfold bind. destruct (c w) as [[e|a] w1]; [discriminate|]. intros Hk.
  by exists a, w1.
Qed.

Lemma noCap_ret {A} (a : A) : noCapacityError (T := T) (ret a).
Proof. intros w. done. Qed.

Lemma noCap_throw {A} (e : exn) :
  e ≠ capacityError → noCapacityError (T := T) (@throw _ A e).
Proof. intros He w. cbn. congruence. Qed.

Lemma noCap_bind {A B} (c : M (World T) A) (k : A → M (World T) B) :
  noCapacityError (T := T) c → (∀ a, noCapacityError (T := T) (k a)) →
  noCapacityError (T := T) (bind c k).
Proof.
  intros Hc Hk w. unfold bind. specialize (Hc w).
  destruct (c w) as [[e|a] w']; cbn in *; [congruence|apply Hk].
Qed.

Lemma noCap_setArg slot a : noCapacityError (T := T) (setArg slot a).
Proof.
  intros w. unfold setArg, bind, get. destruct (knnKernel w); done.
Qed.

Lemma noCap_setOutputs i d : noCapacityError (T := T) (setOutputs i d).
Proof. intros w. done. Qed.

Lemma noCap_get : noCapacityError (T := T) (@get (World T)).
Proof. intros w. done. Qed.

(** Beyond the capacity, [knn] throws before it touches the state. *)
Lemma knn_over_capacity (self : Search T) (query : Matrix T) (k : Z)
    (epsilon : T) (optionFlags : Z) (w : World T) :
  MAX_K < k →
  knn self query k epsilon optionFlags w
  = (inl (default capacityError (checkSizesKnn query (indices w) (dists2 w) k)), w).
Proof.
  intros Hk. unfold knn, bind, get.
  destruct (checkSizesKnn query (indices w) (dists2 w) k) as [e|]; [done|].
  destruct (k >? MAX_K) eqn:E; [done|lia].
Qed.

(** Within the capacity, whatever else [knn] does, it does not end with
    the capacity error. *)
Lemma knn_within_capacity (self : Search T) (query : Matrix T) (k : Z)
    (epsilon : T) (optionFlags : Z) (w : World T) :
  checkSizesKnn query (indices w) (dists2 w) k = None →
  k <= MAX_K →
  fst (knn self query k epsilon optionFlags w) ≠ inl capacityError.
Proof.
  intros Hc Hk. unfold knn. unfold bind at 1. unfold get at 1. rewrite Hc.
  destruct (k >? MAX_K) eqn:E; [lia|].
  destruct (_ || _); [done|]. destruct (_ || _); [done|].
  repeat first
    [ apply noCap_bind; [|intros ?]
    | apply noCap_setArg | apply noCap_ret | apply noCap_get
    | apply noCap_setOutputs
    | apply noCap_throw; discriminate
    | match goal with |- context [if ?b then _ else _] => destruct b end
    | match goal with |- context [match ?x with Some _ => _ | None => _ end] =>
        destruct x end
    | match goal with |- context [let '(_, _) := ?x in _] =>
        destruct x as [[? ?] ?] end ].
Qed.

(** The header only reads the platform: it leaves the state alone and
    does not depend on it. *)
Lemma defines_pure (self : Search T) device defs (w w' : World T) :
  defines self device defs w' = (fst (defines self device defs w), w').
Proof.
  unfold defines, bind, typeSupportCode.
  destruct (scalarKind self); [done|].
  destruct (found _ _); [done|]. destruct (found _ _); done.
Qed.

Lemma loadFiles_pure files (w w' : World T) :
  loadFiles files w' = (fst (loadFiles files w), w').
Proof.
  induction files as [|file files IH]; [done|]. cbn [loadFiles].
  destruct (readFile file); [|done]. unfold bind. rewrite IH.
  destruct (loadFiles files w) as [[e|rest] w1]; done.
Qed.

(** The dump returns, having appended the logs to the error stream. *)
Lemma dumpLogs_spec sources ds (w : World T) :
  dumpLogs sources ds w
  = (inr tt, {| contextManager := contextManager w;
                cerr := cerr w ++ compileLogs sources ds;
                knnKernel := knnKernel w;
                indices := indices w; dists2 := dists2 w |}).
Proof.
  revert w. induction ds as [|d ds IH]; intros w.
  - cbn. rewrite app_nil_r. by destruct w.
  - cbn [dumpLogs]. unfold bind, print. rewrite IH. cbn [cerr contextManager
      knnKernel indices dists2]. unfold compileLogs. cbn [mbind list_bind].
    by rewrite <- !app_assoc.
Qed.

(** The state after a failed build in [initOpenCL]: the logs are on the
    error stream and the program that did not compile is in the cache
    under the generated source. *)
Lemma initOpenCL_failed_build (self : Search T) clFileName kernelName defs
    (w : World T) c back source files :
  contextManager w !! deviceType self = Some c →
  last (devices c) = Some back →
  fst (defines self back defs w) = inr source →
  cachedPrograms c !! source = None →
  fst (loadFiles [OPENCL_SOURCE_DIR +:+ "structure.cl";
                  OPENCL_SOURCE_DIR +:+ "heap.cl";
                  OPENCL_SOURCE_DIR +:+ clFileName] w) = inr files →
  programBuild (source :: files) (devices c) ≠ CL_SUCCESS →
  initOpenCL self clFileName kernelName defs w
  = (inl (cl_Error (programBuild (source :: files) (devices c))),
     {| contextManager :=
          <[deviceType self :=
              {| devices := devices c;
                 cachedPrograms :=
                   <[source := {| programSources := source :: files;
                                  programBuilt := false |}]> (cachedPrograms c) |}]>
            (contextManager w);
        cerr := cerr w ++ compileLogs (source :: files) (devices c);
        knnKernel := knnKernel w;
        indices := indices w; dists2 := dists2 w |}).
Proof.
  intros Hc Hback Hdef Hmiss Hfiles Hfail.
  unfold initOpenCL. unfold bind at 1. unfold getSourceCacher at 1.
  unfold bind at 1. unfold get at 1. rewrite Hc. unfold ret at 1.
  rewrite Hback. unfold bind at 1.
  rewrite (defines_pure self back defs w w), Hdef.
  unfold contains. rewrite Hmiss.
  rewrite bool_decide_eq_false_2 by (by intros [? ?]).
  unfold bind at 1. unfold bind at 1.
  rewrite (loadFiles_pure _ w w), Hfiles.
  unfold bind at 1. unfold setCacher at 1.
  destruct (programBuild (source :: files) (devices c) =? CL_SUCCESS) eqn:E;
    [apply Z.eqb_eq in E; done|].
  unfold bind at 1. unfold bind at 1. unfold ret at 1.
  unfold bind at 1. rewrite dumpLogs_spec. done.
Qed.

(** A request for a source that is in the cache goes straight to the
    creation of the kernel: nothing is read, compiled or logged. *)
Lemma initOpenCL_cached (self : Search T) clFileName kernelName defs
    (w : World T) c back source program :
  contextManager w !! deviceType self = Some c →
  last (devices c) = Some back →
  fst (defines self back defs w) = inr source →
  cachedPrograms c !! source = Some program →
  initOpenCL self clFileName kernelName defs w
  = if kernelCreate program kernelName =? CL_SUCCESS then
      (setKernel {| kernelProgram := program; kernelName := kernelName;
                    kernelArgs := ∅ |};;
       if negb (directAccess (cloud self)) || rowMajor (cloud self) then
         throw (runtime_error "wrong memory mapping in point cloud")
       else setArg 0 BufCloud) w
    else (inl (cl_Error (kernelCreate program kernelName)), w).
Proof.
  intros Hc Hback Hdef Hhit.
  unfold initOpenCL. unfold bind at 1. unfold getSourceCacher at 1.
  unfold bind at 1. unfold get at 1. rewrite Hc. unfold ret at 1.
  rewrite Hback. unfold bind at 1.
  rewrite (defines_pure self back defs w w), Hdef.
  unfold contains. rewrite Hhit.
  rewrite bool_decide_eq_true_2 by (by eexists).
  unfold bind at 1. unfold ret at 1.
  unfold bind at 1. unfold getSourceCacher.
  unfold bind at 1. unfold get at 1. rewrite Hc. unfold ret at 1.
  rewrite Hhit. destruct (kernelCreate program kernelName =? CL_SUCCESS); done.
Qed.

(** When [initOpenCL] returns, the kernel of the object is a fresh one
    with only the cloud bound, at slot 0. *)
Lemma initOpenCL_returns (self : Search T) clFileName kernelName defs
    (w w' : World T) :
  initOpenCL self clFileName kernelName defs w = (inr tt, w') →
  ∃ kernel, knnKernel w' = Some kernel
            ∧ kernelArgs kernel = {[ 0%nat := BufCloud ]}.
Proof.
  intros Hi. unfold initOpenCL in Hi.
  apply bind_inr in Hi as (c & w0 & _ & Hi).
  destruct (last (devices c)) as [back|]; [|discriminate Hi].
  apply bind_inr in Hi as (source & w1 & _ & Hi).
  apply bind_inr in Hi as (? & w2 & _ & Hi).
  apply bind_inr in Hi as (c' & w3 & _ & Hi).
  destruct (cachedPrograms c' !! source) as [program|]; [|discriminate Hi].
  destruct (kernelCreate program kernelName =? CL_SUCCESS); [|discriminate Hi].
  apply bind_inr in Hi as (? & w4 & Hset & Hi).
  unfold setKernel in Hset. injection Hset as _ <-.
  destruct (negb (directAccess (cloud self)) || rowMajor (cloud self));
    [discriminate Hi|].
  unfold setArg, bind, get, setKernel in Hi. cbn in Hi.
  injection Hi as <-. cbn. eexists. split; [reflexivity|]. cbn.
  by rewrite insert_empty.
Qed.

Lemma setArg_after_init slot (a : Arg T) (w w' : World T) kernel :
  knnKernel w = Some kernel →
  setArg slot a w = (inr tt, w') →
  knnKernel w' = Some {| kernelProgram := kernelProgram kernel;
                         kernelName := kernelName kernel;
                         kernelArgs := <[slot := a]> (kernelArgs kernel) |}.
Proof.
  intros Hk. unfold setArg, bind, get. rewrite Hk. unfold setKernel.
  intros [= <-]. done.
Qed.
End HostFacts.

Lemma string_app_assoc (a b c : string) : (a +:+ b) +:+ c = a +:+ (b +:+ c).
Proof.
  induction a as [|x a IH]; [done|].
  change (String x ((a +:+ b) +:+ c) = String x (a +:+ (b +:+ c))).
  by rewrite IH.
Qed.

Lemma pretty_MAX_K : pretty MAX_K = "32".
Proof. vm_compute. reflexivity. Qed.

(** C7.  If the requested neighbour count [k] exceeds [MAX_K], [knn] fails
    with an exception and the state is the one it was called in: neither
    output matrix has been written, no kernel argument has been bound and
    nothing was dispatched. *)
Theorem knn_capacity_error_writes_nothing `{Platform T} (self : Search T)
    (query : Matrix T) (k : Z) (epsilon : T) (optionFlags : Z) (w : World T) :
  MAX_K < k →
  ∃ e, knn self query k epsilon optionFlags w = (inl e, w)
       ∧ (checkSizesKnn query (indices w) (dists2 w) k = None →
          e = runtime_error "number of neighbors too large for OpenCL").
Proof.
  intros Hk. rewrite knn_over_capacity by done. eexists. split; [done|].
  by intros ->.
Qed.

Lemma knn_capacity_error_writes_nothing_witness :
  MAX_K < 33
  ∧ ∃ e, @knn Z (examplePlatform true) (exampleSearch 0) exampleCloud 33 0 0
           exampleWorld = (inl e, exampleWorld)
         ∧ (@checkSizesKnn Z (examplePlatform true) exampleCloud
              (indices exampleWorld) (dists2 exampleWorld) 33 = None →
            e = runtime_error "number of neighbors too large for OpenCL").
Proof.
  assert (Hk : MAX_K < 33) by (vm_compute; reflexivity).
  split; [exact Hk|].
  exact (@knn_capacity_error_writes_nothing Z (examplePlatform true)
           (exampleSearch 0) exampleCloud 33 0 0 exampleWorld Hk).
Defined.

(** C9.  The neighbour capacity is 32.  Whatever the scalar type and the
    index variant, [knn] raises its capacity error exactly when [k > 32]
    (provided the size check of the base class passes), and every macro
    header that [initOpenCL] generates contains the line
    [#define MAX_K 32]. *)
Theorem MAX_K_is_32 :
  MAX_K = 32
  ∧ (∀ T (P : Platform T) (self : Search T) (query : Matrix T) (k : Z)
       (epsilon : T) (optionFlags : Z) (w : World T),
       checkSizesKnn query (indices w) (dists2 w) k = None →
       (fst (knn self query k epsilon optionFlags w) = inl capacityError ↔ 32 < k))
  ∧ (∀ T (P : Platform T) (self : Search T) (device : Device)
       (additionalDefines : string) (w w' : World T) (source : string),
       defines self device additionalDefines w = (inr source, w') →
       ∃ pre post, source = pre +:+ "#define MAX_K 32" +:+ nl +:+ post).
Proof.
  split; [reflexivity|]. split.
  - intros T P self query k epsilon optionFlags w Hc. split.
    + intros Herr. destruct (Z.lt_ge_cases 32 k) as [?|Hle]; [done|].
      exfalso. by eapply (knn_within_capacity self query k epsilon optionFlags w).
    + intros Hk. rewrite knn_over_capacity by done. by rewrite Hc.
  - intros T P self device additionalDefines w w' source Hdef.
    unfold defines, bind in Hdef.
    destruct (typeSupportCode (scalarKind self) device w) as [[e|code] w1];
      [discriminate Hdef|].
    unfold ret in Hdef. injection Hdef as <- _.
    exists (code +:+ "#define EPSILON " +:+ epsilonText (scalarKind self) +:+ nl
            +:+ "#define DIM_COUNT " +:+ pretty (dim self) +:+ nl
            +:+ "#define POINT_STRIDE " +:+ pretty (stride (cloud self)) +:+ nl).
    eexists. rewrite pretty_MAX_K. rewrite !string_app_assoc. reflexivity.
Qed.

Lemma MAX_K_is_32_witness :
  fst (@knn Z (examplePlatform true) (exampleSearch 0) exampleCloud 33 0 0
         exampleContext) = inl capacityError
  ∧ ∃ pre post, exampleSource = pre +:+ "#define MAX_K 32" +:+ nl +:+ post.
Proof.
  destruct MAX_K_is_32 as (_ & Hknn & Hheader). split.
  - apply (Hknn Z (examplePlatform true)); [reflexivity|lia].
  - apply (Hheader Z (examplePlatform true) (exampleSearch 0) 0%nat EmptyString
             exampleContext exampleContext).
    vm_compute. reflexivity.
Defined.

(** C1, on the code: a failed build stays in the cache.  If the
    compilation of a program that is not in the cache fails, [initOpenCL]
    writes the name and the compilation log of every device of the context
    to the error stream and throws the [cl::Error] of the build; no kernel
    is created, and the program that did not compile is left in the cache
    under the generated source ([contains] answers [true]).  The next
    request with the same source therefore compiles nothing and writes no
    log: it goes straight on to create the kernel from the program that was
    never built. *)
Theorem failed_build_stays_cached `{Platform T} (self : Search T)
    (clFileName kernelName defs : string) (w : World T) (c : SourceCacher)
    (back : Device) (source : string) (files : list string) :
  contextManager w !! deviceType self = Some c →
  last (devices c) = Some back →
  fst (defines self back defs w) = inr source →
  cachedPrograms c !! source = None →
  fst (loadFiles [OPENCL_SOURCE_DIR +:+ "structure.cl";
                  OPENCL_SOURCE_DIR +:+ "heap.cl";
                  OPENCL_SOURCE_DIR +:+ clFileName] w) = inr files →
  programBuild (source :: files) (devices c) ≠ CL_SUCCESS →
  ∃ w1 c1 program,
    initOpenCL self clFileName kernelName defs w
    = (inl (cl_Error (programBuild (source :: files) (devices c))), w1)
    ∧ cerr w1 = cerr w ++ compileLogs (source :: files) (devices c)
    ∧ knnKernel w1 = knnKernel w
    ∧ contextManager w1 !! deviceType self = Some c1
    ∧ cachedPrograms c1 !! source = Some program
    ∧ programSources program = source :: files
    ∧ programBuilt program = false
    ∧ contains c1 source = true
    ∧ initOpenCL self clFileName kernelName defs w1
      = if kernelCreate program kernelName =? CL_SUCCESS then
          (setKernel {| kernelProgram := program; kernelName := kernelName;
                        kernelArgs := ∅ |};;
           if negb (directAccess (cloud self)) || rowMajor (cloud self) then
             throw (runtime_error "wrong memory mapping in point cloud")
           else setArg 0 BufCloud) w1
        else (inl (cl_Error (kernelCreate program kernelName)), w1).
Proof.
  intros Hc Hback Hdef Hmiss Hfiles Hfail.
  rewrite (initOpenCL_failed_build self clFileName kernelName defs w c back
             source files) by done.
  set (program := {| programSources := source :: files; programBuilt := false |}).
  set (c1 := {| devices := devices c;
                cachedPrograms := <[source := program]> (cachedPrograms c) |}).
  eexists _, c1, program. split; [reflexivity|].
  assert (Hhit : cachedPrograms c1 !! source = Some program)
    by apply lookup_insert_eq.
  split; [done|]. split; [done|].
  split; [apply lookup_insert_eq|]. split; [done|]. split; [done|].
  split; [done|]. split.
  - unfold contains. rewrite Hhit. apply bool_decide_eq_true_2. by eexists.
  - apply (initOpenCL_cached self clFileName kernelName defs _ c1 back source);
      [apply lookup_insert_eq|done| |done].
    by rewrite (defines_pure self back defs w).
Qed.

Lemma failed_build_stays_cached_witness :
  ∃ w1 c1 program,
    @initOpenCL Z (examplePlatform false) (exampleSearch 0)
      "knn_bf.cl" "knnBruteForce" EmptyString exampleContext
    = (inl (cl_Error CL_BUILD_PROGRAM_FAILURE), w1)
    ∧ cerr w1 = ["device : device0" +:+ nl;
                 "compilation log:" +:+ nl +:+ "error: syntax" +:+ nl]
    ∧ contextManager w1 !! 4 = Some c1
    ∧ cachedPrograms c1 !! exampleSource = Some program
    ∧ programBuilt program = false
    ∧ contains c1 exampleSource = true
    ∧ @initOpenCL Z (examplePlatform false) (exampleSearch 0)
        "knn_bf.cl" "knnBruteForce" EmptyString w1
      = (inl (cl_Error CL_INVALID_PROGRAM_EXECUTABLE), w1).
Proof.
  destruct (@failed_build_stays_cached Z (examplePlatform false)
              (exampleSearch 0) "knn_bf.cl" "knnBruteForce" EmptyString
              exampleContext {| devices := [0%nat]; cachedPrograms := ∅ |}
              0%nat exampleSource
              ["// /opencl/structure.cl"; "// /opencl/heap.cl";
               "// /opencl/knn_bf.cl"])
    as (w1 & c1 & program & Hrun & Hcerr & _ & Hc1 & Hhit & _ & Hunbuilt
        & Hcontains & Hagain).
  - reflexivity.
  - reflexivity.
  - vm_compute. reflexivity.
  - reflexivity.
  - vm_compute. reflexivity.
  - vm_compute. congruence.
  - exists w1, c1, program. split; [exact Hrun|]. split; [exact Hcerr|].
    split; [exact Hc1|]. split; [exact Hhit|]. split; [exact Hunbuilt|].
    split; [exact Hcontains|].
    rewrite Hagain. cbn. rewrite Hunbuilt. reflexivity.
Defined.

(** C2, on the code: the constructor of the points-in-leaves variant binds
    the node buffer at slot 10 whether statistics are collected or not,
    and leaves slot 11 unbound; the constructor of the points-in-nodes
    variant binds it at slot 11 when statistics are collected and at slot
    10 otherwise. *)
Theorem tree_buffer_slots `{Scalar T} `{NthElement} `{Platform T}
    (self : Search T) (w : World T) :
  (∀ defaultNode nodes w',
     KDTreeBalancedPtInLeavesStackOpenCL self defaultNode w = (inr nodes, w') →
     ∃ kernel, knnKernel w' = Some kernel
               ∧ kernelArgs kernel !! 10%nat = Some BufNodes
               ∧ kernelArgs kernel !! 11%nat = None)
  ∧ (∀ defaultNode nodes w',
       KDTreeBalancedPtInNodesStackOpenCL self defaultNode w = (inr nodes, w') →
       ∃ kernel, knnKernel w' = Some kernel
                 ∧ if collectStatistics (creationOptionFlags self)
                   then kernelArgs kernel !! 11%nat = Some BufNodes
                        ∧ kernelArgs kernel !! 10%nat = None
                   else kernelArgs kernel !! 10%nat = Some BufNodes
                        ∧ kernelArgs kernel !! 11%nat = None).
Proof.
  split.
  - intros defaultNode nodes w' Hrun.
    unfold KDTreeBalancedPtInLeavesStackOpenCL in Hrun.
    apply bind_inr in Hrun as (? & w0 & _ & Hrun).
    destruct (computeBounds self) as [lo hi].
    apply bind_inr in Hrun as (size & w1 & _ & Hrun).
    apply bind_inr in Hrun as (nodes1 & w2 & _ & Hrun).
    apply bind_inr in Hrun as (depth & w3 & _ & Hrun).
    apply bind_inr in Hrun as ([] & w4 & Hinit & Hrun).
    apply bind_inr in Hrun as ([] & w5 & Hset & Hrun).
    injection Hrun as _ <-.
    apply initOpenCL_returns in Hinit as (kernel & Hk & Hargs).
    rewrite (setArg_after_init _ _ _ _ _ Hk Hset).
    eexists. split; [reflexivity|]. cbn. rewrite Hargs. split.
    + apply lookup_insert_eq.
    + rewrite lookup_insert_ne by lia. apply lookup_singleton_ne. lia.
  - intros defaultNode nodes w' Hrun.
    unfold KDTreeBalancedPtInNodesStackOpenCL in Hrun.
    apply bind_inr in Hrun as (? & w0 & _ & Hrun).
    destruct (computeBounds self) as [lo hi].
    apply bind_inr in Hrun as (size & w1 & _ & Hrun).
    apply bind_inr in Hrun as (nodes1 & w2 & _ & Hrun).
    apply bind_inr in Hrun as (depth & w3 & _ & Hrun).
    apply bind_inr in Hrun as ([] & w4 & Hinit & Hrun).
    apply bind_inr in Hrun as ([] & w5 & Hset & Hrun).
    injection Hrun as _ <-.
    apply initOpenCL_returns in Hinit as (kernel & Hk & Hargs).
    destruct (collectStatistics (creationOptionFlags self)).
    + rewrite (setArg_after_init _ _ _ _ _ Hk Hset).
      eexists. split; [reflexivity|]. cbn. rewrite Hargs. split.
      * apply lookup_insert_eq.
      * rewrite lookup_insert_ne by lia. apply lookup_singleton_ne. lia.
    + rewrite (setArg_after_init _ _ _ _ _ Hk Hset).
      eexists. split; [reflexivity|]. cbn. rewrite Hargs. split.
      * apply lookup_insert_eq.
      * rewrite lookup_insert_ne by lia. apply lookup_singleton_ne. lia.
Qed.

Lemma tree_buffer_slots_witness :
  @collectStatistics Z (examplePlatform true) (creationOptionFlags (exampleSearch 1))
  = true
  ∧ (∃ nodes w' kernel,
       @KDTreeBalancedPtInLeavesStackOpenCL Z _ _ (examplePlatform true)
         (exampleSearch 1) exampleLeavesDefault exampleWorld = (inr nodes, w')
       ∧ knnKernel w' = Some kernel
       ∧ kernelArgs kernel !! 10%nat = Some BufNodes
       ∧ kernelArgs kernel !! 11%nat = None)
  ∧ (∃ nodes w' kernel,
       @KDTreeBalancedPtInNodesStackOpenCL Z _ _ (examplePlatform true)
         (exampleSearch 1) exampleNodesDefault exampleWorld = (inr nodes, w')
       ∧ knnKernel w' = Some kernel
       ∧ kernelArgs kernel !! 11%nat = Some BufNodes
       ∧ kernelArgs kernel !! 10%nat = None).
Proof.
  destruct (@tree_buffer_slots Z _ _ (examplePlatform true) (exampleSearch 1)
              exampleWorld) as [Hleaves Hnodes].
  split; [reflexivity|]. split.
  - destruct (@KDTreeBalancedPtInLeavesStackOpenCL Z _ _ (examplePlatform true)
                (exampleSearch 1) exampleLeavesDefault exampleWorld)
      as [[e|nodes] w'] eqn:Hrun; [vm_compute in Hrun; discriminate Hrun|].
    destruct (Hleaves exampleLeavesDefault nodes w' Hrun) as (kernel & Hk & H10 & H11).
    exists nodes, w', kernel.
    split; [reflexivity|]. split; [exact Hk|]. split; [exact H10|exact H11].
  - destruct (@KDTreeBalancedPtInNodesStackOpenCL Z _ _ (examplePlatform true)
                (exampleSearch 1) exampleNodesDefault exampleWorld)
      as [[e|nodes] w'] eqn:Hrun; [vm_compute in Hrun; discriminate Hrun|].
    destruct (Hnodes exampleNodesDefault nodes w' Hrun) as (kernel & Hk & Hslots).
    change (@collectStatistics Z (examplePlatform true)
              (creationOptionFlags (exampleSearch 1))) with true in Hslots.
    destruct Hslots as [H11 H10]. exists nodes, w', kernel.
    split; [reflexivity|]. split; [exact Hk|]. split; [exact H11|exact H10].
Defined.

(** With statistics collected, the first query on the points-in-leaves
    index binds the visit counts at slot 10, over the node buffer, which is
    then bound at no slot at all. *)
Lemma leaves_statistics_overwrite_nodes :
  let built := @KDTreeBalancedPtInLeavesStackOpenCL Z _ _ (examplePlatform true)
                 (exampleSearch 1) exampleLeavesDefault exampleWorld in
  let queried := @knn Z (examplePlatform true) (exampleSearch 1) exampleCloud
                   1 0 0 (snd built) in
  fst queried = inr 7
  ∧ (kernelArgs <$> knnKernel (snd queried)) ≫= (λ a, a !! 10%nat)
    = Some BufVisitCount
  ∧ (kernelArgs <$> knnKernel (snd queried)) ≫= (λ a, a !! 11%nat) = None.
Proof. vm_compute. repeat split. Qed.

(** * Further properties *)

(** ** More on the sizing functions *)

Lemma highBit_mono a b : 0 <= a <= b → highBit a <= highBit b.
Proof.
  intros Hab. unfold highBit.
  destruct (a =? 0) eqn:Ea, (b =? 0) eqn:Eb; try lia.
  - pose proof (Z.log2_nonneg b). lia.
  - apply Z.log2_le_mono. lia.
Qed.

Lemma highBit_pow2_pred k : 1 <= k → highBit (2 ^ k - 1) = k - 1.
Proof.
  intros Hk. apply highBit_hit; [lia|].
  replace (k - 1 + 1) with k by lia.
  replace k with (k - 1 + 1) at 2 by lia.
  rewrite (Z.pow_add_r 2 (k - 1) 1), Z.pow_1_r by lia.
  pose proof (Z.pow_pos_nonneg 2 (k - 1)). lia.
Qed.

Lemma fillLow_31 : fillLow LOOP_FUEL 0 0 31 = Some (2 ^ 64 - 1).
Proof. vm_compute. reflexivity. Qed.

Lemma leaves_getTreeDepth_highBit n :
  1 <= n <= 2 ^ 31 → PtInLeaves.getTreeDepth n = Some (highBit (n - 1) + 1).
Proof.
  intros Hn. destruct (Z.eq_dec n 1) as [->|Hne]; [reflexivity|].
  change (2 ^ 31) with 2147483648 in Hn.
  rewrite leaves_getTreeDepth_spec
    by (change (2 ^ 64) with 18446744073709551616; lia).
  destruct (2 ^ 31 <=? n - 1) eqn:E31;
    [change (2 ^ 31) with 2147483648 in E31; lia|].
  unfold highBit. destruct (n - 1 =? 0) eqn:E0; [lia|done].
Qed.

Lemma nodes_getTreeDepth_highBit n :
  0 <= n < 2 ^ 31 → PtInNodes.getTreeDepth n = Some (highBit n + 1).
Proof.
  intros Hn. change (2 ^ 31) with 2147483648 in Hn.
  rewrite nodes_getTreeDepth_spec
    by (change (2 ^ 64) with 18446744073709551616; lia).
  destruct (2 ^ 31 <=? n) eqn:E31;
    [change (2 ^ 31) with 2147483648 in E31; lia|done].
Qed.

(** [getTreeDepth] of the size of the array, as the constructors call it. *)
Lemma leaves_getTreeDepth_size n :
  2 <= n <= 2 ^ 31 →
  PtInLeaves.getTreeDepth (2 ^ (highBit (n - 1) + 2) - 1) = Some (highBit (n - 1) + 2).
Proof.
  intros Hn. destruct (highBit_spec (n - 1)) as [_ Hh0]; [lia|].
  pose proof (highBit_range (n - 1) 31) as Hr.
  change (2 ^ 31) with 2147483648 in Hn, Hr.
  set (h := highBit (n - 1)) in *.
  assert (Hp : 2 ^ 2 <= 2 ^ (h + 2) <= 2 ^ 32) by (split; apply pow2_le_mono; lia).
  change (2 ^ 2) with 4 in Hp. change (2 ^ 32) with 4294967296 in Hp.
  rewrite leaves_getTreeDepth_spec
    by (change (2 ^ 64) with 18446744073709551616; lia).
  destruct (Z.eq_dec h 30) as [->|Hh30]; [reflexivity|].
  assert (Hp' : 2 ^ (h + 2) <= 2 ^ 31) by (apply pow2_le_mono; lia).
  destruct (2 ^ 31 <=? 2 ^ (h + 2) - 1 - 1) eqn:E31; [apply Z.leb_le in E31; lia|].
  f_equal.
  assert (Hlog : Z.log2 (2 ^ (h + 2) - 1 - 1) = h + 1); [|lia].
  apply Z.log2_unique; [lia|].
  rewrite Z.pow_succ_r by lia.
  replace (h + 2) with (h + 1 + 1) by lia.
  rewrite (Z.pow_add_r 2 (h + 1) 1), Z.pow_1_r by lia.
  assert (H2 : 2 ^ 1 <= 2 ^ (h + 1)) by (apply pow2_le_mono; lia).
  change (2 ^ 1) with 2 in H2. lia.
Qed.

Lemma nodes_getTreeDepth_size n :
  1 <= n < 2 ^ 31 →
  PtInNodes.getTreeDepth (2 ^ (highBit n + 1) - 1) = Some (highBit n + 1).
Proof.
  intros Hn. destruct (highBit_spec n) as [_ Hh0]; [lia|].
  pose proof (highBit_range n 31) as Hr.
  change (2 ^ 31) with 2147483648 in Hn, Hr.
  set (h := highBit n) in *.
  assert (Hp : 2 ^ 1 <= 2 ^ (h + 1) <= 2 ^ 31) by (split; apply pow2_le_mono; lia).
  change (2 ^ 1) with 2 in Hp.
  rewrite nodes_getTreeDepth_spec
    by (change (2 ^ 31) with 2147483648 in Hp;
        change (2 ^ 64) with 18446744073709551616; lia).
  destruct (2 ^ 31 <=? 2 ^ (h + 1) - 1) eqn:E31; [apply Z.leb_le in E31; lia|].
  rewrite highBit_pow2_pred by lia. f_equal. lia.
Qed.

(** Past the range of the [int] masks. *)
Lemma leaves_sizing_saturated n :
  2 ^ 31 < n < 2 ^ 64 →
  PtInLeaves.getTreeSize n = Some (2 ^ 64 - 1)
  ∧ PtInLeaves.getTreeDepth n = Some 32.
Proof.
  change (2 ^ 31) with 2147483648. change (2 ^ 64) with 18446744073709551616.
  intros Hn. split.
  - unfold PtInLeaves.getTreeSize. destruct (n =? 0) eqn:E; [lia|].
    rewrite to_size_t_small by (change (2 ^ 64) with 18446744073709551616; lia).
    rewrite bitScanInt_31
      by (unfold LOOP_FUEL; change (2 ^ 64) with 18446744073709551616; lia).
    destruct (2 ^ 31 <=? n - 1) eqn:E31;
      [|change (2 ^ 31) with 2147483648 in E31; lia].
    cbn [mbind option_bind]. rewrite fillLow_31. reflexivity.
  - rewrite leaves_getTreeDepth_spec
      by (change (2 ^ 64) with 18446744073709551616; lia).
    destruct (2 ^ 31 <=? n - 1) eqn:E31;
      [done|change (2 ^ 31) with 2147483648 in E31; lia].
Qed.

Lemma nodes_sizing_saturated n :
  2 ^ 31 <= n < 2 ^ 64 →
  PtInNodes.getTreeSize n = Some (2 ^ 64 - 1)
  ∧ PtInNodes.getTreeDepth n = Some 32.
Proof.
  change (2 ^ 31) with 2147483648. change (2 ^ 64) with 18446744073709551616.
  intros Hn. split.
  - unfold PtInNodes.getTreeSize.
    rewrite bitScanInt_31
      by (unfold LOOP_FUEL; change (2 ^ 64) with 18446744073709551616; lia).
    destruct (2 ^ 31 <=? n) eqn:E31;
      [|change (2 ^ 31) with 2147483648 in E31; lia].
    cbn [mbind option_bind]. by rewrite fillLow_31.
  - rewrite nodes_getTreeDepth_spec
      by (change (2 ^ 64) with 18446744073709551616; lia).
    destruct (2 ^ 31 <=? n) eqn:E31;
      [done|change (2 ^ 31) with 2147483648 in E31; lia].
Qed.

(** The node array has room for the tree and is linear in the number of
    points: a tree with [n] leaves has [2n - 1] nodes, and the
    points-in-leaves [getTreeSize n] lies between [2n - 1] and [4n - 1];
    a tree with a point in every node has [n] nodes, and the
    points-in-nodes [getTreeSize n] lies between [n] and [2n]. *)
Theorem getTreeSize_room (n : Z) :
  (1 <= n <= 2 ^ 31 →
   ∃ size, PtInLeaves.getTreeSize n = Some size ∧ 2 * n - 1 <= size < 4 * n)
  ∧ (0 <= n < 2 ^ 31 →
     ∃ size, PtInNodes.getTreeSize n = Some size ∧ n <= size <= 2 * n).
Proof.
  split; intros Hn.
  - rewrite leaves_getTreeSize_spec by done. eexists. split; [done|].
    destruct (leaves_budget_spec n) as (Hle & Hlt & _ & ->); lia.
  - rewrite nodes_getTreeSize_spec by done. eexists. split; [done|].
    destruct (Z.eq_dec n 0) as [->|Hne]; [cbn; lia|].
    destruct (nodes_budget_spec n) as (Hlt & Hle & _ & ->); lia.
Qed.

Lemma getTreeSize_room_witness :
  (∃ size, PtInLeaves.getTreeSize 5 = Some size ∧ 2 * 5 - 1 <= size < 4 * 5)
  ∧ (∃ size, PtInNodes.getTreeSize 5 = Some size ∧ 5 <= size <= 2 * 5).
Proof.
  split; [apply (proj1 (getTreeSize_room 5))|apply (proj2 (getTreeSize_room 5))];
    vm_compute; split; congruence.
Defined.

(** The array is a complete binary tree as deep as [getTreeDepth] says:
    [2^(D+1) - 1] nodes in the points-in-leaves variant, where
    [getTreeDepth] counts edges, and [2^D - 1] nodes in the points-in-nodes
    variant, where it counts levels. *)
Theorem getTreeSize_is_complete_tree (n : Z) :
  (1 <= n <= 2 ^ 31 →
   ∃ size D, PtInLeaves.getTreeSize n = Some size
             ∧ PtInLeaves.getTreeDepth n = Some D
             ∧ 0 <= D <= 31 ∧ size = 2 ^ (D + 1) - 1)
  ∧ (0 <= n < 2 ^ 31 →
     ∃ size D, PtInNodes.getTreeSize n = Some size
               ∧ PtInNodes.getTreeDepth n = Some D
               ∧ 0 <= D <= 31 ∧ size = 2 ^ D - 1).
Proof.
  split; intros Hn.
  - rewrite leaves_getTreeSize_spec, leaves_getTreeDepth_highBit by done.
    pose proof (highBit_range (n - 1) 31) as Hr.
    change (2 ^ 31) with 2147483648 in Hn, Hr.
    eexists _, _. split; [done|]. split; [done|]. split; [lia|].
    f_equal. f_equal. lia.
  - rewrite nodes_getTreeSize_spec, nodes_getTreeDepth_highBit by done.
    pose proof (highBit_range n 31) as Hr.
    change (2 ^ 31) with 2147483648 in Hn, Hr.
    eexists _, _. split; [done|]. split; [done|]. split; [lia|done].
Qed.

Lemma getTreeSize_is_complete_tree_witness :
  (∃ size D, PtInLeaves.getTreeSize 5 = Some size
             ∧ PtInLeaves.getTreeDepth 5 = Some D
             ∧ 0 <= D <= 31 ∧ size = 2 ^ (D + 1) - 1)
  ∧ (∃ size D, PtInNodes.getTreeSize 5 = Some size
               ∧ PtInNodes.getTreeDepth 5 = Some D
               ∧ 0 <= D <= 31 ∧ size = 2 ^ D - 1).
Proof.
  split; [apply (proj1 (getTreeSize_is_complete_tree 5))
         |apply (proj2 (getTreeSize_is_complete_tree 5))];
    vm_compute; split; congruence.
Defined.

(** More points never need a smaller array or a shallower tree: both
    [getTreeSize] and [getTreeDepth] are monotone over all the counts of a
    [size_t], from 1 on in the points-in-leaves variant and from 0 on in
    the points-in-nodes variant, the saturated range included. *)
Theorem getTreeSize_getTreeDepth_monotone (m n : Z) :
  (1 <= m <= n → n < 2 ^ 64 →
   ∃ sm sn dm dn,
     PtInLeaves.getTreeSize m = Some sm ∧ PtInLeaves.getTreeSize n = Some sn
     ∧ PtInLeaves.getTreeDepth m = Some dm ∧ PtInLeaves.getTreeDepth n = Some dn
     ∧ sm <= sn ∧ dm <= dn)
  ∧ (0 <= m <= n → n < 2 ^ 64 →
     ∃ sm sn dm dn,
       PtInNodes.getTreeSize m = Some sm ∧ PtInNodes.getTreeSize n = Some sn
       ∧ PtInNodes.getTreeDepth m = Some dm ∧ PtInNodes.getTreeDepth n = Some dn
       ∧ sm <= sn ∧ dm <= dn).
Proof.
  split; intros Hm Hn.
  - destruct (Z.le_gt_cases n (2 ^ 31)) as [Hn31|Hn31];
      [|destruct (Z.le_gt_cases m (2 ^ 31)) as [Hm31|Hm31]].
    + (* both within the range of the masks *)
      pose proof (highBit_mono (m - 1) (n - 1)) as Hmono.
      pose proof (highBit_range (m - 1) 31) as Hrm.
      pose proof (highBit_range (n - 1) 31) as Hrn.
      change (2 ^ 31) with 2147483648 in Hn31, Hrm, Hrn.
      rewrite !leaves_getTreeSize_spec, !leaves_getTreeDepth_highBit
        by (change (2 ^ 31) with 2147483648; lia).
      eexists _, _, _, _. repeat (split; [reflexivity|]).
      split; [|lia].
      assert (2 ^ (highBit (m - 1) + 2) <= 2 ^ (highBit (n - 1) + 2));
        [apply pow2_le_mono|]; lia.
    + (* [n] saturated, [m] not *)
      destruct (leaves_sizing_saturated n) as [-> ->]; [lia|].
      pose proof (highBit_range (m - 1) 31) as Hrm.
      change (2 ^ 31) with 2147483648 in Hm31, Hrm.
      rewrite leaves_getTreeSize_spec, leaves_getTreeDepth_highBit
        by (change (2 ^ 31) with 2147483648; lia).
      eexists _, _, _, _. repeat (split; [reflexivity|]).
      split; [|lia].
      assert (2 ^ (highBit (m - 1) + 2) <= 2 ^ 64); [apply pow2_le_mono|]; lia.
    + (* both saturated *)
      destruct (leaves_sizing_saturated n) as [-> ->]; [lia|].
      destruct (leaves_sizing_saturated m) as [-> ->]; [lia|].
      eexists _, _, _, _. repeat (split; [reflexivity|]). lia.
  - destruct (Z.lt_ge_cases n (2 ^ 31)) as [Hn31|Hn31];
      [|destruct (Z.lt_ge_cases m (2 ^ 31)) as [Hm31|Hm31]].
    + pose proof (highBit_mono m n) as Hmono.
      pose proof (highBit_range m 31) as Hrm.
      pose proof (highBit_range n 31) as Hrn.
      change (2 ^ 31) with 2147483648 in Hn31, Hrm, Hrn.
      rewrite !nodes_getTreeSize_spec, !nodes_getTreeDepth_highBit
        by (change (2 ^ 31) with 2147483648; lia).
      eexists _, _, _, _. repeat (split; [reflexivity|]).
      split; [|lia].
      assert (2 ^ (highBit m + 1) <= 2 ^ (highBit n + 1));
        [apply pow2_le_mono|]; lia.
    + destruct (nodes_sizing_saturated n) as [-> ->]; [lia|].
      pose proof (highBit_range m 31) as Hrm.
      change (2 ^ 31) with 2147483648 in Hm31, Hrm.
      rewrite nodes_getTreeSize_spec, nodes_getTreeDepth_highBit
        by (change (2 ^ 31) with 2147483648; lia).
      eexists _, _, _, _. repeat (split; [reflexivity|]).
      split; [|lia].
      assert (2 ^ (highBit m + 1) <= 2 ^ 64); [apply pow2_le_mono|]; lia.
    + destruct (nodes_sizing_saturated n) as [-> ->]; [lia|].
      destruct (nodes_sizing_saturated m) as [-> ->]; [lia|].
      eexists _, _, _, _. repeat (split; [reflexivity|]). lia.
Qed.

Lemma getTreeSize_getTreeDepth_monotone_witness :
  (∃ sm sn dm dn,
     PtInLeaves.getTreeSize 4 = Some sm
     ∧ PtInLeaves.getTreeSize (2 ^ 31 + 1) = Some sn
     ∧ PtInLeaves.getTreeDepth 4 = Some dm
     ∧ PtInLeaves.getTreeDepth (2 ^ 31 + 1) = Some dn
     ∧ sm <= sn ∧ dm <= dn)
  ∧ (∃ sm sn dm dn,
       PtInNodes.getTreeSize 3 = Some sm ∧ PtInNodes.getTreeSize (2 ^ 31) = Some sn
       ∧ PtInNodes.getTreeDepth 3 = Some dm ∧ PtInNodes.getTreeDepth (2 ^ 31) = Some dn
       ∧ sm <= sn ∧ dm <= dn).
Proof.
  split; [apply (proj1 (getTreeSize_getTreeDepth_monotone 4 (2 ^ 31 + 1)))
         |apply (proj2 (getTreeSize_getTreeDepth_monotone 3 (2 ^ 31)))];
    vm_compute; (split; congruence) || congruence.
Defined.

(** The constructors apply [getTreeDepth] to the size of the array, not
    to the number of points.  In the points-in-leaves variant this is one
    more than the depth of the tree as soon as there are two points; in the
    points-in-nodes variant it is the number of levels again.  The stack
    depth compiled into the kernel, one more than this, therefore exceeds
    the depth of the tree. *)
Theorem getTreeDepth_of_getTreeSize (n : Z) :
  (2 <= n <= 2 ^ 31 →
   ∃ size D, PtInLeaves.getTreeSize n = Some size
             ∧ PtInLeaves.getTreeDepth n = Some D
             ∧ PtInLeaves.getTreeDepth size = Some (D + 1))
  ∧ (1 <= n < 2 ^ 31 →
     ∃ size D, PtInNodes.getTreeSize n = Some size
               ∧ PtInNodes.getTreeDepth n = Some D
               ∧ PtInNodes.getTreeDepth size = Some D).
Proof.
  split; intros Hn.
  - rewrite leaves_getTreeSize_spec, leaves_getTreeDepth_highBit by lia.
    eexists _, _. split; [done|]. split; [done|].
    rewrite leaves_getTreeDepth_size by done. f_equal. lia.
  - rewrite nodes_getTreeSize_spec, nodes_getTreeDepth_highBit by lia.
    eexists _, _. split; [done|]. split; [done|].
    by rewrite nodes_getTreeDepth_size.
Qed.

Lemma getTreeDepth_of_getTreeSize_witness :
  (∃ size D, PtInLeaves.getTreeSize 5 = Some size
             ∧ PtInLeaves.getTreeDepth 5 = Some D
             ∧ PtInLeaves.getTreeDepth size = Some (D + 1))
  ∧ (∃ size D, PtInNodes.getTreeSize 5 = Some size
               ∧ PtInNodes.getTreeDepth 5 = Some D
               ∧ PtInNodes.getTreeDepth size = Some D).
Proof.
  split; [apply (proj1 (getTreeDepth_of_getTreeSize 5))
         |apply (proj2 (getTreeDepth_of_getTreeSize 5))];
    vm_compute; split; congruence.
Defined.

(** Past the range of the [int] masks the sizing functions saturate:
    every count whose bit 31 or a higher bit is set makes [getTreeSize]
    return the largest [size_t], [2^64 - 1], and [getTreeDepth] return 32. *)
Theorem getTreeSize_saturates (n : Z) :
  (2 ^ 31 < n < 2 ^ 64 →
   PtInLeaves.getTreeSize n = Some (2 ^ 64 - 1)
   ∧ PtInLeaves.getTreeDepth n = Some 32)
  ∧ (2 ^ 31 <= n < 2 ^ 64 →
     PtInNodes.getTreeSize n = Some (2 ^ 64 - 1)
     ∧ PtInNodes.getTreeDepth n = Some 32).
Proof.
  change (2 ^ 31) with 2147483648. change (2 ^ 64) with 18446744073709551616.
  split; intros Hn.
  - split.
    + unfold PtInLeaves.getTreeSize. destruct (n =? 0) eqn:E; [lia|].
      rewrite to_size_t_small by (change (2 ^ 64) with 18446744073709551616; lia).
      rewrite bitScanInt_31
        by (unfold LOOP_FUEL; change (2 ^ 64) with 18446744073709551616; lia).
      destruct (2 ^ 31 <=? n - 1) eqn:E31;
        [|change (2 ^ 31) with 2147483648 in E31; lia].
      cbn [mbind option_bind]. rewrite fillLow_31. reflexivity.
    + rewrite leaves_getTreeDepth_spec
        by (change (2 ^ 64) with 18446744073709551616; lia).
      destruct (2 ^ 31 <=? n - 1) eqn:E31;
        [done|change (2 ^ 31) with 2147483648 in E31; lia].
  - split.
    + unfold PtInNodes.getTreeSize.
      rewrite bitScanInt_31
        by (unfold LOOP_FUEL; change (2 ^ 64) with 18446744073709551616; lia).
      destruct (2 ^ 31 <=? n) eqn:E31;
        [|change (2 ^ 31) with 2147483648 in E31; lia].
      cbn [mbind option_bind]. by rewrite fillLow_31.
    + rewrite nodes_getTreeDepth_spec
        by (change (2 ^ 64) with 18446744073709551616; lia).
      destruct (2 ^ 31 <=? n) eqn:E31;
        [done|change (2 ^ 31) with 2147483648 in E31; lia].
Qed.

Lemma getTreeSize_saturates_witness :
  (PtInLeaves.getTreeSize (2 ^ 40) = Some (2 ^ 64 - 1)
   ∧ PtInLeaves.getTreeDepth (2 ^ 40) = Some 32)
  ∧ (PtInNodes.getTreeSize (2 ^ 40) = Some (2 ^ 64 - 1)
     ∧ PtInNodes.getTreeDepth (2 ^ 40) = Some 32).
Proof.
  split; [apply (proj1 (getTreeSize_saturates (2 ^ 40)))
         |apply (proj2 (getTreeSize_saturates (2 ^ 40)))];
    vm_compute; split; congruence.
Defined.

(** ** More on argMax and the bounds *)

Section ScalarFacts.
Context `{Scalar T}.

(** [a <= b], that is [!(a > b)], is transitive. *)
Lemma ngtb_trans (a b c : T) :
  gtb a b = false → gtb b c = false → gtb a c = false.
Proof.
  intros Hab Hbc. destruct (gtb a c) eqn:Hac; [|done].
  destruct (gtb_cotrans a b c Hac); congruence.
Qed.

Lemma gtb_asym (a b : T) : gtb a b = true → gtb b a = false.
Proof.
  intros Hab. destruct (gtb b a) eqn:Hba; [|done].
  pose proof (gtb_trans _ _ _ Hab Hba) as Haa. by rewrite gtb_irrefl in Haa.
Qed.

Lemma argMaxLoop_keeps (v : list T) : ∀ i maxVal maxIdx,
  Forall (λ x, gtb x maxVal = false) v → argMaxLoop v i maxVal maxIdx = maxIdx.
Proof.
  induction v as [|x v IH]; intros i maxVal maxIdx Hv; [done|].
  apply Forall_cons in Hv as [Hx Hv]. cbn [argMaxLoop]. rewrite Hx. by apply IH.
Qed.

Lemma smin_le_l (a b : T) : gtb (smin a b) a = false.
Proof. unfold smin. destruct (gtb a b) eqn:E; [by apply gtb_asym|apply gtb_irrefl]. Qed.

Lemma smin_le_r (a b : T) : gtb (smin a b) b = false.
Proof. unfold smin. destruct (gtb a b) eqn:E; [apply gtb_irrefl|done]. Qed.

Lemma smax_ge_l (a b : T) : gtb a (smax a b) = false.
Proof. unfold smax. destruct (gtb b a) eqn:E; [by apply gtb_asym|apply gtb_irrefl]. Qed.

Lemma smax_ge_r (a b : T) : gtb b (smax a b) = false.
Proof. unfold smax. destruct (gtb b a) eqn:E; [apply gtb_irrefl|done]. Qed.

(** The bounds loop from any pair of bounds of [dimN] components. *)
Lemma boundsLoop_spec (dimN : nat) (cols : list (list T)) : ∀ lo hi,
  length lo = dimN → length hi = dimN →
  Forall (λ c, (dimN <= length c)%nat) cols →
  ∀ lo' hi',
    foldl (λ '(lo, hi) column,
             let v := take dimN column in
             (zip_with smin lo v, zip_with smax hi v)) (lo, hi) cols = (lo', hi') →
    length lo' = dimN ∧ length hi' = dimN
    ∧ (∀ j a a', lo !! j = Some a → lo' !! j = Some a' → gtb a' a = false)
    ∧ (∀ j b b', hi !! j = Some b → hi' !! j = Some b' → gtb b b' = false)
    ∧ (∀ c j x a' b', c ∈ cols → c !! j = Some x →
         lo' !! j = Some a' → hi' !! j = Some b' →
         gtb a' x = false ∧ gtb x b' = false).
Proof.
  induction cols as [|c cols IH]; intros lo hi Hlo Hhi Hcols lo' hi' Hf.
  - cbn in Hf. injection Hf as <- <-. split; [done|]. split; [done|].
    split; [|split].
    + intros j a a' Ha Ha'. rewrite Ha in Ha'. injection Ha' as <-. apply gtb_irrefl.
    + intros j b b' Hb Hb'. rewrite Hb in Hb'. injection Hb' as <-. apply gtb_irrefl.
    + intros c j x a' b' Hc. by apply elem_of_nil in Hc.
  - apply Forall_cons in Hcols as [Hc Hcols]. cbn [foldl] in Hf.
    set (lo1 := zip_with smin lo (take dimN c)) in *.
    set (hi1 := zip_with smax hi (take dimN c)) in *.
    assert (Hlo1 : length lo1 = dimN)
      by (unfold lo1; rewrite length_zip_with, length_take; lia).
    assert (Hhi1 : length hi1 = dimN)
      by (unfold hi1; rewrite length_zip_with, length_take; lia).
    destruct (IH lo1 hi1 Hlo1 Hhi1 Hcols lo' hi' Hf)
      as (Hl' & Hh' & Hmin & Hmax & Hin).
    assert (Hlo1j : ∀ j a1, lo1 !! j = Some a1 →
              ∃ a x, lo !! j = Some a ∧ c !! j = Some x ∧ a1 = smin a x).
    { intros j a1 Hj. unfold lo1 in Hj.
      apply lookup_zip_with_Some in Hj as (a & x & -> & Ha & Hx).
      apply lookup_take_Some in Hx as [Hx _]. by exists a, x. }
    assert (Hhi1j : ∀ j b1, hi1 !! j = Some b1 →
              ∃ b x, hi !! j = Some b ∧ c !! j = Some x ∧ b1 = smax b x).
    { intros j b1 Hj. unfold hi1 in Hj.
      apply lookup_zip_with_Some in Hj as (b & x & -> & Hb & Hx).
      apply lookup_take_Some in Hx as [Hx _]. by exists b, x. }
    assert (Hsome1 : ∀ j, (j < dimN)%nat → is_Some (lo1 !! j) ∧ is_Some (hi1 !! j)).
    { intros j Hj. split; apply lookup_lt_is_Some; lia. }
    split; [done|]. split; [done|]. split; [|split].
    + intros j a a' Ha Ha'.
      assert (Hj : (j < dimN)%nat) by (apply lookup_lt_Some in Ha; lia).
      destruct (Hsome1 j Hj) as [[a1 Ha1] _].
      destruct (Hlo1j j a1 Ha1) as (a0 & x & Ha0 & Hx & ->).
      rewrite Ha in Ha0. injection Ha0 as <-.
      eapply ngtb_trans; [by eapply Hmin|apply smin_le_l].
    + intros j b b' Hb Hb'.
      assert (Hj : (j < dimN)%nat) by (apply lookup_lt_Some in Hb; lia).
      destruct (Hsome1 j Hj) as [_ [b1 Hb1]].
      destruct (Hhi1j j b1 Hb1) as (b0 & x & Hb0 & Hx & ->).
      rewrite Hb in Hb0. injection Hb0 as <-.
      eapply ngtb_trans; [apply smax_ge_l|by eapply Hmax].
    + intros c0 j x a' b' Hc0 Hx Ha' Hb'.
      apply elem_of_cons in Hc0 as [->|Hc0]; [|by eapply Hin].
      assert (Hj : (j < dimN)%nat) by (apply lookup_lt_Some in Ha'; lia).
      destruct (Hsome1 j Hj) as [[a1 Ha1] [b1 Hb1]].
      destruct (Hlo1j j a1 Ha1) as (a0 & x0 & Ha0 & Hx0 & ->).
      destruct (Hhi1j j b1 Hb1) as (b0 & x1 & Hb0 & Hx1 & ->).
      rewrite Hx in Hx0, Hx1. injection Hx0 as <-. injection Hx1 as <-.
      split.
      * eapply ngtb_trans; [by eapply Hmin|apply smin_le_r].
      * eapply ngtb_trans; [apply smax_ge_r|by eapply Hmax].
Qed.
End ScalarFacts.

(** [argMax] starts from the value zero and the index 0.  If no component
    exceeds zero (all the points coincide, or the vector is empty) it
    answers 0; as soon as one component exceeds zero it answers the first
    index of the greatest component, which then exceeds zero: a component
    that is zero or negative is never preferred to a positive one. *)
Theorem argMax_starts_from_zero `{Scalar T} (v : list T) :
  (Forall (λ x, gtb x zero = false) v → argMax v = 0%nat)
  ∧ (Exists (λ x, gtb x zero = true) v →
     ∃ m, v !! argMax v = Some m
          ∧ gtb m zero = true
          ∧ (∀ y, y ∈ v → gtb y m = false)
          ∧ (∀ j y, (j < argMax v)%nat → v !! j = Some y → gtb m y = true)).
Proof.
  split.
  - intros Hv. by apply argMaxLoop_keeps.
  - intros Hex. apply Exists_exists in Hex as (x & Hx & Hx0).
    destruct (argMax_inv v) as (m & Hle & [[Hl Hfirst]|(Hi & Hmz & Hzm)]).
    + exists m. split; [done|]. split; [|done].
      destruct (gtb_cotrans x m zero Hx0) as [Hc|Hc]; [|done].
      by rewrite (Hle x Hx) in Hc.
    + destruct (gtb_cotrans x m zero Hx0) as [Hc|Hc].
      * by rewrite (Hle x Hx) in Hc.
      * by rewrite Hmz in Hc.
Qed.

Lemma argMax_starts_from_zero_witness :
  argMax [0; -3; 0]%Z = 0%nat
  ∧ ∃ m : Z, [-1; 4; 4]%Z !! argMax [-1; 4; 4]%Z = Some m
       ∧ gtb m zero = true
       ∧ (∀ y, y ∈ [-1; 4; 4]%Z → gtb y m = false)
       ∧ (∀ j y, (j < argMax [-1; 4; 4]%Z)%nat → [-1; 4; 4]%Z !! j = Some y →
                 gtb m y = true).
Proof.
  split.
  - apply (proj1 (argMax_starts_from_zero [0; -3; 0]%Z)). repeat constructor.
  - apply (proj2 (argMax_starts_from_zero [-1; 4; 4]%Z)).
    apply Exists_cons_tl, Exists_cons_hd. reflexivity.
Defined.

(** The loop that folds the cloud into the bounds: when the bounds of
    the base class and every column of the cloud have the [dim] coordinates
    of the search, the bounds keep [dim] components, the lower bound never
    rises and the upper bound never falls, and no coordinate of any point
    of the cloud lies below the lower bound or above the upper bound. *)
Theorem computeBounds_encloses `{Scalar T} (self : Search T) (lo hi : list T) :
  length (minBound self) = Z.to_nat (dim self) →
  length (maxBound self) = Z.to_nat (dim self) →
  Forall (λ c, (Z.to_nat (dim self) <= length c)%nat) (columns (cloud self)) →
  computeBounds self = (lo, hi) →
  length lo = Z.to_nat (dim self) ∧ length hi = Z.to_nat (dim self)
  ∧ (∀ j a a', minBound self !! j = Some a → lo !! j = Some a' → gtb a' a = false)
  ∧ (∀ j b b', maxBound self !! j = Some b → hi !! j = Some b' → gtb b b' = false)
  ∧ (∀ c j x a' b', c ∈ columns (cloud self) → c !! j = Some x →
       lo !! j = Some a' → hi !! j = Some b' →
       gtb a' x = false ∧ gtb x b' = false).
Proof.
  intros Hmin Hmax Hcols Hb.
  by apply (boundsLoop_spec (Z.to_nat (dim self)) (columns (cloud self))
              (minBound self) (maxBound self)).
Qed.

Lemma computeBounds_encloses_witness :
  length [1; 1]%Z = Z.to_nat (dim (exampleSearch 0)) ∧ length [7; 9]%Z = Z.to_nat (dim (exampleSearch 0))
  ∧ (∀ j a a', minBound (exampleSearch 0) !! j = Some a → [1; 1]%Z !! j = Some a' →
               gtb a' a = false)
  ∧ (∀ j b b', maxBound (exampleSearch 0) !! j = Some b → [7; 9]%Z !! j = Some b' →
               gtb b b' = false)
  ∧ (∀ c j x a' b', c ∈ columns (cloud (exampleSearch 0)) → c !! j = Some x →
       [1; 1]%Z !! j = Some a' → [7; 9]%Z !! j = Some b' →
       gtb a' x = false ∧ gtb x b' = false).
Proof.
  apply (computeBounds_encloses (exampleSearch 0) [1; 1]%Z [7; 9]%Z).
  - reflexivity.
  - reflexivity.
  - repeat constructor.
  - vm_compute. reflexivity.
Defined.

(** ** More on the queries *)

Section QueryFacts.
Context {T : Type} `{Platform T}.

Lemma bind_inl {A B} (c : M (World T) A) (k : A → M (World T) B) w e w' :
  bind c k w = (inl e, w') →
  c w = (inl e, w') ∨ ∃ a w1, c w = (inr a, w1) ∧ k a w1 = (inl e, w').
Proof.
  unfold bind. destruct (c w) as [[e0|a] w1]; intros Hk.
  - injection Hk as <- <-. by left.
  - right. by exists a, w1.
Qed.

Lemma throwsOnly_ret {A} Q (a : A) : throwsOnly (T := T) Q (ret a).
Proof. intros w e. done. Qed.

Lemma throwsOnly_throw {A} (Q : exn → Prop) e :
  Q e → throwsOnly (T := T) Q (@throw _ A e).
Proof. intros HQ w e' [= <-]. done. Qed.

Lemma throwsOnly_bind {A B} Q (c : M (World T) A) (k : A → M (World T) B) :
  throwsOnly Q c → (∀ a, throwsOnly Q (k a)) → throwsOnly Q (bind c k).
Proof.
  intros Hc Hk w e. unfold bind. specialize (Hc w).
  destruct (c w) as [[e0|a] w1]; cbn in *; [intros [= <-]; by apply Hc|apply Hk].
Qed.

Lemma throwsOnly_get Q : throwsOnly (T := T) Q (@get (World T)).
Proof. intros w e. done. Qed.

Lemma throwsOnly_setOutputs Q i d : throwsOnly (T := T) Q (setOutputs i d).
Proof. intros w e. done. Qed.

Lemma throwsOnly_setArg (Q : exn → Prop) slot a :
  Q (cl_Error CL_INVALID_KERNEL) → throwsOnly (T := T) Q (setArg slot a).
Proof.
  intros HQ w e. unfold setArg, bind, get. destruct (knnKernel w); [done|].
  intros [= <-]. done.
Qed.

#[export] Instance sameKernelButQuery_preorder : PreOrder (@sameKernelButQuery T).
Proof.
  split.
  - intros [k|]; cbn; [|done]. by repeat split.
  - intros [k1|] [k2|] [k3|]; cbn; try done.
    intros (Hp & Hn & H0 & Hs) (Hp' & Hn' & H0' & Hs').
    split; [congruence|]. split; [congruence|]. split; [congruence|].
    intros slot Hslot. by rewrite Hs', Hs.
Qed.

#[export] Instance queryFrame_preorder : PreOrder (@queryFrame T).
Proof.
  split.
  - intros w. split; [done|]. split; [done|]. reflexivity.
  - intros w1 w2 w3 (Hc & He & Hk) (Hc' & He' & Hk').
    split; [congruence|]. split; [congruence|]. by etrans.
Qed.

Lemma preserves_ret {A} R `{!Reflexive R} (a : A) : preserves (T := T) R (ret a).
Proof. intros w. cbn. done. Qed.

Lemma preserves_throw {A} R `{!Reflexive R} e : preserves (T := T) R (@throw _ A e).
Proof. intros w. cbn. done. Qed.

Lemma preserves_get R `{!Reflexive R} : preserves (T := T) R (@get (World T)).
Proof. intros w. cbn. done. Qed.

Lemma preserves_bind {A B} R `{!Transitive R}
    (c : M (World T) A) (k : A → M (World T) B) :
  preserves R c → (∀ a, preserves R (k a)) → preserves R (bind c k).
Proof.
  intros Hc Hk w. unfold bind. specialize (Hc w).
  destruct (c w) as [[e|a] w1]; cbn in *; [done|]. etrans; [exact Hc|apply Hk].
Qed.

Lemma queryFrame_setArg slot (a : Arg T) :
  (1 <= slot <= 10)%nat → preserves queryFrame (setArg slot a).
Proof.
  intros Hslot w. unfold setArg, bind, get.
  destruct (knnKernel w) as [k|] eqn:Hk; cbn.
  - split; [done|]. split; [done|]. rewrite Hk. cbn. split; [done|]. split; [done|].
    split; [apply lookup_insert_ne; lia|].
    intros s Hs. apply lookup_insert_ne. lia.
  - split; [done|]. split; [done|]. by rewrite Hk.
Qed.

Lemma queryFrame_setOutputs i d : preserves (T := T) queryFrame (setOutputs i d).
Proof. intros w. cbn. split; [done|]. split; [done|]. reflexivity. Qed.

Lemma setArg_inr slot (a : Arg T) (w w' : World T) u :
  setArg slot a w = (inr u, w') →
  ∃ kernel, knnKernel w = Some kernel
    ∧ w' = withKernel w {| kernelProgram := kernelProgram kernel;
                           kernelName := kernelName kernel;
                           kernelArgs := <[slot := a]> (kernelArgs kernel) |}.
Proof.
  unfold setArg, bind, get. destruct (knnKernel w) as [k|]; [|discriminate].
  unfold setKernel. intros [= <-]. by exists k.
Qed.
End QueryFacts.

(** Every [runtime_error] that comes out of [knn] was thrown by one of
    its checks, which all precede the first binding: the state is the one
    the call started in.  (The same holds for whatever the size check of the
    base class throws.) *)
Theorem knn_runtime_error_keeps_state `{Platform T} (self : Search T)
    (query : Matrix T) (k : Z) (epsilon : T) (optionFlags : Z) (w w' : World T)
    (what : string) :
  knn self query k epsilon optionFlags w = (inl (runtime_error what), w') →
  w' = w.
Proof.
  unfold knn. unfold bind at 1. unfold get at 1.
  destruct (checkSizesKnn query (indices w) (dists2 w) k) as [e|];
    [by intros [= _ <-]|].
  destruct (k >? MAX_K); [by intros [= _ <-]|].
  destruct (_ || _); [by intros [= _ <-]|].
  destruct (_ || _); [by intros [= _ <-]|].
  intros Hrun. exfalso.
  assert (Hno : ∀ A (c : M (World T) A),
             throwsOnly (λ e, ∀ m, e ≠ runtime_error m) c →
             ∀ w1 w2, c w1 ≠ (inl (runtime_error what), w2)).
  { intros A c Hc w1 w2 E.
    by apply (Hc w1 (runtime_error what) ltac:(by rewrite E) what). }
  revert Hrun. apply Hno.
  repeat first
    [ apply throwsOnly_setArg; discriminate
    | apply throwsOnly_setOutputs
    | apply throwsOnly_ret | apply throwsOnly_get
    | apply throwsOnly_throw; discriminate
    | apply throwsOnly_bind; [|intros ?]
    | match goal with |- context [if ?b then _ else _] => destruct b end
    | match goal with |- context [match ?x with Some _ => _ | None => _ end] =>
        destruct x end
    | match goal with |- context [let '(_, _) := ?x in _] =>
        destruct x as [[? ?] ?] end ].
Qed.

Lemma knn_runtime_error_keeps_state_witness :
  fst (@knn Z (examplePlatform true) (exampleSearch 0) exampleQuery3 1 0 0
         exampleContext)
  = inl (runtime_error "query is not of the same dimensionality as the point cloud")
  ∧ snd (@knn Z (examplePlatform true) (exampleSearch 0) exampleQuery3 1 0 0
           exampleContext) = exampleContext.
Proof.
  split; [reflexivity|].
  apply (@knn_runtime_error_keeps_state Z (examplePlatform true) (exampleSearch 0)
           exampleQuery3 1 0 0 exampleContext _
           "query is not of the same dimensionality as the point cloud").
  reflexivity.
Defined.

(** However [knn] ends, it leaves alone the contexts with their program
    caches and the error stream, and of the kernel its program, its name,
    the cloud bound at slot 0 and every slot from 11 on: a query binds the
    slots 1 to 10 and nothing else. *)
Theorem knn_frame `{Platform T} (self : Search T) (query : Matrix T) (k : Z)
    (epsilon : T) (optionFlags : Z) (w : World T) :
  queryFrame w (snd (knn self query k epsilon optionFlags w)).
Proof.
  revert w. change (preserves queryFrame (knn self query k epsilon optionFlags)).
  unfold knn.
  repeat first
    [ apply queryFrame_setArg; lia
    | apply queryFrame_setOutputs
    | apply preserves_ret; apply _ | apply preserves_get; apply _
    | apply preserves_throw; apply _
    | apply preserves_bind; [apply _| |intros ?]
    | match goal with |- context [if ?b then _ else _] => destruct b end
    | match goal with |- context [match ?x with Some _ => _ | None => _ end] =>
        destruct x end
    | match goal with |- context [let '(_, _) := ?x in _] =>
        destruct x as [[? ?] ?] end ].
Qed.

Section QueryInversion.
Context {T : Type} `{Platform T}.

(** All that is known when [knn] has returned. *)
Lemma knn_inr_inv (self : Search T) (query : Matrix T) (k : Z)
    (epsilon : T) (optionFlags : Z) (w w' : World T) (n : Z) :
  knn self query k epsilon optionFlags w = (inr n, w') →
  (checkSizesKnn query (indices w) (dists2 w) k = None
   ∧ k <= MAX_K
   ∧ stride query = stride (cloud self) ∧ rows query = rows (cloud self)
   ∧ directAccess query = true ∧ rowMajor query = false
   ∧ directAccess (indices w) = true ∧ rowMajor (indices w) = false
   ∧ directAccess (dists2 w) = true ∧ rowMajor (dists2 w) = false)
  ∧ ∃ kernel0 visitCounts,
      knnKernel w = Some kernel0
      ∧ let kernel :=
          {| kernelProgram := kernelProgram kernel0;
             kernelName := kernelName kernel0;
             kernelArgs :=
               queryArgs self k epsilon optionFlags (stride (indices w))
                 (stride (dists2 w)) (collectStatistics (creationOptionFlags self))
                 (kernelArgs kernel0) |} in
        knnKernel w' = Some kernel
        ∧ kernelRun kernel query (indices w) (dists2 w)
          = (indices w', dists2 w', visitCounts)
        ∧ n = if collectStatistics (creationOptionFlags self)
              then to_size_t (foldr Z.add 0 visitCounts) else 0.
Proof.
  unfold knn. intros Hrun.
  apply bind_inr in Hrun as (w0 & w1 & Hget & Hrun).
  injection Hget as <- <-.
  destruct (checkSizesKnn query (indices w) (dists2 w) k) as [e|];
    [discriminate Hrun|].
  destruct (k >? MAX_K) eqn:Ek; [discriminate Hrun|].
  destruct (negb (stride query =? stride (cloud self))
            || negb (rows query =? rows (cloud self))) eqn:Ed; [discriminate Hrun|].
  apply orb_false_iff in Ed as [Es Er].
  apply negb_false_iff, Z.eqb_eq in Es. apply negb_false_iff, Z.eqb_eq in Er.
  destruct (negb (directAccess query) || rowMajor query) eqn:Em; [discriminate Hrun|].
  apply orb_false_iff in Em as [Ea Eb]. apply negb_false_iff in Ea.
  apply bind_inr in Hrun as ([] & w1 & H1 & Hrun).
  apply setArg_inr in H1 as (kernel0 & Hk0 & ->).
  apply bind_inr in Hrun as ([] & w2 & Hc2 & Hrun).
  destruct (directAccess (indices w) && negb (rowMajor (indices w))) eqn:Ei;
    [|discriminate Hc2]. injection Hc2 as <-.
  apply andb_true_iff in Ei as [Eia Eib]. apply negb_true_iff in Eib.
  apply bind_inr in Hrun as ([] & w2 & H2 & Hrun).
  apply setArg_inr in H2 as (? & [= <-] & ->).
  apply bind_inr in Hrun as ([] & w3 & Hc3 & Hrun).
  destruct (directAccess (dists2 w) && negb (rowMajor (dists2 w))) eqn:Ed2;
    [|discriminate Hc3]. injection Hc3 as <-.
  apply andb_true_iff in Ed2 as [Eda Edb]. apply negb_true_iff in Edb.
  split; [repeat split; try done; lia|].
  exists kernel0.
  apply bind_inr in Hrun as ([] & w3 & H3 & Hrun).
  apply setArg_inr in H3 as (? & [= <-] & ->).
  apply bind_inr in Hrun as ([] & w4 & H4 & Hrun).
  apply setArg_inr in H4 as (? & [= <-] & ->).
  apply bind_inr in Hrun as ([] & w5 & H5 & Hrun).
  apply setArg_inr in H5 as (? & [= <-] & ->).
  apply bind_inr in Hrun as ([] & w6 & H6 & Hrun).
  apply setArg_inr in H6 as (? & [= <-] & ->).
  apply bind_inr in Hrun as ([] & w7 & H7 & Hrun).
  apply setArg_inr in H7 as (? & [= <-] & ->).
  apply bind_inr in Hrun as ([] & w8 & H8 & Hrun).
  apply setArg_inr in H8 as (? & [= <-] & ->).
  apply bind_inr in Hrun as ([] & w9 & H9 & Hrun).
  apply setArg_inr in H9 as (? & [= <-] & ->).
  cbn [kernelProgram kernelName kernelArgs] in Hrun.
  unfold queryArgs.
  destruct (collectStatistics (creationOptionFlags self)).
  - apply bind_inr in Hrun as ([] & w10 & H10 & Hrun).
    apply setArg_inr in H10 as (? & [= <-] & ->).
    cbn [kernelProgram kernelName kernelArgs] in Hrun.
    apply bind_inr in Hrun as (w11 & w12 & Hget & Hrun).
    injection Hget as <- <-. cbn [knnKernel withKernel indices dists2] in Hrun.
    destruct (kernelRun _ query (indices w) (dists2 w)) as [[i d] visitCounts] eqn:Hk.
    apply bind_inr in Hrun as ([] & w13 & Hout & Hrun).
    injection Hout as <-. injection Hrun as <- <-.
    exists visitCounts. split; [done|]. cbn zeta.
    split; [reflexivity|]. split; [first [exact Hk|reflexivity]|]. reflexivity.
  - apply bind_inr in Hrun as ([] & w10 & H10 & Hrun). injection H10 as <-.
    apply bind_inr in Hrun as (w11 & w12 & Hget & Hrun).
    injection Hget as <- <-. cbn [knnKernel withKernel indices dists2] in Hrun.
    destruct (kernelRun _ query (indices w) (dists2 w)) as [[i d] visitCounts] eqn:Hk.
    apply bind_inr in Hrun as ([] & w13 & Hout & Hrun).
    injection Hout as <-. injection Hrun as <- <-.
    exists visitCounts. split; [done|]. cbn zeta.
    split; [reflexivity|]. split; [first [exact Hk|reflexivity]|]. reflexivity.
Qed.

End QueryInversion.

(** [knn] returns only when the size check of the base class passes,
    [k] is within the capacity, the query has the stride and the rows of the
    cloud, the query and the two output matrices are column-major with
    direct access, and the search object has a kernel: each of these is
    necessary for a result. *)
Theorem knn_returns_only_when `{Platform T} (self : Search T) (query : Matrix T)
    (k : Z) (epsilon : T) (optionFlags : Z) (w w' : World T) (n : Z) :
  knn self query k epsilon optionFlags w = (inr n, w') →
  checkSizesKnn query (indices w) (dists2 w) k = None
  ∧ k <= MAX_K
  ∧ stride query = stride (cloud self) ∧ rows query = rows (cloud self)
  ∧ directAccess query = true ∧ rowMajor query = false
  ∧ directAccess (indices w) = true ∧ rowMajor (indices w) = false
  ∧ directAccess (dists2 w) = true ∧ rowMajor (dists2 w) = false
  ∧ is_Some (knnKernel w).
Proof.
  intros Hrun.
  apply knn_inr_inv in Hrun
    as ((? & ? & ? & ? & ? & ? & ? & ? & ? & ?) & kernel0 & ? & Hk0 & _).
  repeat (split; [done|]). by exists kernel0.
Qed.

(** When [knn] returns, the kernel has run once on the caller's
    matrices with the arguments of [queryArgs] bound over those the kernel
    had; the output matrices are what the device wrote, and the result is
    the sum of the visit counts when statistics are collected and 0
    otherwise. *)
Theorem knn_returns `{Platform T} (self : Search T) (query : Matrix T) (k : Z)
    (epsilon : T) (optionFlags : Z) (w w' : World T) (n : Z) :
  knn self query k epsilon optionFlags w = (inr n, w') →
  ∃ kernel0 visitCounts,
    knnKernel w = Some kernel0
    ∧ let kernel :=
        {| kernelProgram := kernelProgram kernel0;
           kernelName := kernelName kernel0;
           kernelArgs :=
             queryArgs self k epsilon optionFlags (stride (indices w))
               (stride (dists2 w)) (collectStatistics (creationOptionFlags self))
               (kernelArgs kernel0) |} in
      knnKernel w' = Some kernel
      ∧ kernelRun kernel query (indices w) (dists2 w)
        = (indices w', dists2 w', visitCounts)
      ∧ n = if collectStatistics (creationOptionFlags self)
            then to_size_t (foldr Z.add 0 visitCounts) else 0.
Proof. intros Hrun. by apply knn_inr_inv in Hrun as [_ ?]. Qed.

(** ** More on initOpenCL *)

Section InitFacts.
Context {T : Type} `{Platform T}.

(** The files are read in order up to the first that cannot be opened. *)
Lemma loadFiles_missing pre file post (w : World T) :
  Forall (λ f, is_Some (readFile f)) pre → readFile file = None →
  loadFiles (pre ++ file :: post) w
  = (inl (runtime_error ("cannot open file: " +:+ file)), w).
Proof.
  intros Hpre Hfile. induction Hpre as [|f pre [content Hf] _ IH]; cbn [loadFiles app].
  - by rewrite Hfile.
  - rewrite Hf. unfold bind. by rewrite IH.
Qed.

Lemma loadFiles_state files (w : World T) : snd (loadFiles files w) = w.
Proof.
  induction files as [|file files IH]; [done|]. cbn [loadFiles].
  destruct (readFile file); [|done]. unfold bind.
  destruct (loadFiles files w) as [[e|rest] w1]; cbn in *; done.
Qed.

Lemma loadFiles_inl files (w : World T) e :
  fst (loadFiles files w) = inl e →
  ∃ file, file ∈ files ∧ e = runtime_error ("cannot open file: " +:+ file).
Proof.
  induction files as [|file files IH]; [done|]. cbn [loadFiles].
  destruct (readFile file).
  - unfold bind. destruct (loadFiles files w) as [[e'|rest] w1]; cbn in *; [|done].
    intros [= <-]. destruct (IH eq_refl) as (f & Hf & ->).
    exists f. split; [by right|done].
  - intros [= <-]. exists file. split; [by left|done].
Qed.

Lemma defines_state (self : Search T) device defs (w : World T) :
  snd (defines self device defs w) = w.
Proof. by rewrite (defines_pure self device defs w w). Qed.

Lemma defines_inl (self : Search T) device defs (w : World T) e :
  fst (defines self device defs w) = inl e →
  e = runtime_error
        "The OpenCL platform does not support 64 bits double-precision floating-points scalars.".
Proof.
  unfold defines, bind, typeSupportCode.
  destruct (scalarKind self); [done|].
  destruct (found _ _); [done|]. destruct (found _ _); [done|]. by intros [= <-].
Qed.

(** The end of [initOpenCL], from the creation of the kernel on. *)
Lemma kernelSetup_spec (self : Search T) program kernelName (w : World T) :
  (setKernel {| kernelProgram := program; kernelName := kernelName;
                kernelArgs := ∅ |};;
   if negb (directAccess (cloud self)) || rowMajor (cloud self) then
     throw (runtime_error "wrong memory mapping in point cloud")
   else setArg 0 BufCloud) w
  = if negb (directAccess (cloud self)) || rowMajor (cloud self)
    then (inl (runtime_error "wrong memory mapping in point cloud"),
          withKernel w {| kernelProgram := program; kernelName := kernelName;
                          kernelArgs := ∅ |})
    else (inr tt,
          withKernel w {| kernelProgram := program; kernelName := kernelName;
                          kernelArgs := {[ 0%nat := BufCloud ]} |}).
Proof.
  unfold bind, setKernel. destruct (_ || _); [done|].
  unfold setArg, bind, get, setKernel, withKernel. cbn. by rewrite insert_empty.
Qed.

Lemma initOpenCL_no_context (self : Search T) clFileName kernelName defs (w : World T) :
  contextManager w !! deviceType self = None →
  initOpenCL self clFileName kernelName defs w
  = (inl (runtime_error "Attempt to get source cacher before creating a context"), w).
Proof.
  intros Hc. unfold initOpenCL. unfold bind at 1. unfold getSourceCacher at 1.
  unfold bind at 1. unfold get at 1. by rewrite Hc.
Qed.

Lemma initOpenCL_no_device (self : Search T) clFileName kernelName defs (w : World T) c :
  contextManager w !! deviceType self = Some c → last (devices c) = None →
  initOpenCL self clFileName kernelName defs w
  = (inl (aborted "devices.back() on an empty vector"), w).
Proof.
  intros Hc Hback. unfold initOpenCL. unfold bind at 1. unfold getSourceCacher at 1.
  unfold bind at 1. unfold get at 1. rewrite Hc. unfold ret at 1. by rewrite Hback.
Qed.

Lemma initOpenCL_no_header (self : Search T) clFileName kernelName defs (w : World T)
    c back e :
  contextManager w !! deviceType self = Some c → last (devices c) = Some back →
  fst (defines self back defs w) = inl e →
  initOpenCL self clFileName kernelName defs w = (inl e, w).
Proof.
  intros Hc Hback Hdef. unfold initOpenCL. unfold bind at 1. unfold getSourceCacher at 1.
  unfold bind at 1. unfold get at 1. rewrite Hc. unfold ret at 1. rewrite Hback.
  unfold bind at 1. by rewrite (defines_pure self back defs w w), Hdef.
Qed.

Lemma initOpenCL_no_file (self : Search T) clFileName kernelName defs (w : World T)
    c back source e :
  contextManager w !! deviceType self = Some c → last (devices c) = Some back →
  fst (defines self back defs w) = inr source →
  cachedPrograms c !! source = None →
  fst (loadFiles [OPENCL_SOURCE_DIR +:+ "structure.cl";
                  OPENCL_SOURCE_DIR +:+ "heap.cl";
                  OPENCL_SOURCE_DIR +:+ clFileName] w) = inl e →
  initOpenCL self clFileName kernelName defs w = (inl e, w).
Proof.
  intros Hc Hback Hdef Hmiss Hfiles.
  unfold initOpenCL. unfold bind at 1. unfold getSourceCacher at 1.
  unfold bind at 1. unfold get at 1. rewrite Hc. unfold ret at 1.
  rewrite Hback. unfold bind at 1.
  rewrite (defines_pure self back defs w w), Hdef.
  unfold contains. rewrite Hmiss.
  rewrite bool_decide_eq_false_2 by (by intros [? ?]).
  unfold bind at 1. unfold bind at 1.
  by rewrite (loadFiles_pure _ w w), Hfiles.
Qed.

(** A miss followed by a successful build: the built program is in the
    cache under the generated source, the logs are on the error stream, and
    [initOpenCL] goes on to create the kernel from it. *)
Lemma initOpenCL_built (self : Search T) clFileName kernelName defs (w : World T)
    c back source files :
  contextManager w !! deviceType self = Some c → last (devices c) = Some back →
  fst (defines self back defs w) = inr source →
  cachedPrograms c !! source = None →
  fst (loadFiles [OPENCL_SOURCE_DIR +:+ "structure.cl";
                  OPENCL_SOURCE_DIR +:+ "heap.cl";
                  OPENCL_SOURCE_DIR +:+ clFileName] w) = inr files →
  programBuild (source :: files) (devices c) = CL_SUCCESS →
  let program := {| programSources := source :: files; programBuilt := true |} in
  let wB := {| contextManager :=
                 <[deviceType self :=
                     {| devices := devices c;
                        cachedPrograms := <[source := program]> (cachedPrograms c) |}]>
                   (contextManager w);
               cerr := cerr w ++ compileLogs (source :: files) (devices c);
               knnKernel := knnKernel w;
               indices := indices w; dists2 := dists2 w |} in
  initOpenCL self clFileName kernelName defs w
  = if kernelCreate program kernelName =? CL_SUCCESS then
      (setKernel {| kernelProgram := program; kernelName := kernelName;
                    kernelArgs := ∅ |};;
       if negb (directAccess (cloud self)) || rowMajor (cloud self) then
         throw (runtime_error "wrong memory mapping in point cloud")
       else setArg 0 BufCloud) wB
    else (inl (cl_Error (kernelCreate program kernelName)), wB).
Proof.
  intros Hc Hback Hdef Hmiss Hfiles Hok program wB.
  unfold initOpenCL. unfold bind at 1. unfold getSourceCacher at 1.
  unfold bind at 1. unfold get at 1. rewrite Hc. unfold ret at 1.
  rewrite Hback. unfold bind at 1.
  rewrite (defines_pure self back defs w w), Hdef.
  unfold contains. rewrite Hmiss.
  rewrite bool_decide_eq_false_2 by (by intros [? ?]).
  unfold bind at 1. unfold bind at 1. unfold bind at 1.
  rewrite (loadFiles_pure _ w w), Hfiles.
  unfold bind at 1. unfold setCacher at 1.
  rewrite Hok. change (CL_SUCCESS =? CL_SUCCESS) with true. cbn match.
  unfold bind at 1. unfold bind at 1. unfold setCacher at 1.
  cbn [contextManager cerr knnKernel indices dists2].
  rewrite dumpLogs_spec. cbn [contextManager cerr knnKernel indices dists2].
  unfold ret at 1. rewrite insert_insert_eq.
  unfold bind at 1. unfold getSourceCacher at 1. unfold bind at 1. unfold get at 1.
  cbn [contextManager]. rewrite lookup_insert_eq. unfold ret at 1.
  cbn [cachedPrograms]. rewrite lookup_insert_eq.
  fold program. fold wB. destruct (kernelCreate program kernelName =? CL_SUCCESS); done.
Qed.

(** What is known of the state in which [initOpenCL] has returned. *)
Lemma initOpenCL_inr_inv (self : Search T) clFileName kernelName defs (w w1 : World T) :
  initOpenCL self clFileName kernelName defs w = (inr tt, w1) →
  ∃ c back source c1 program,
    contextManager w !! deviceType self = Some c
    ∧ last (devices c) = Some back
    ∧ fst (defines self back defs w) = inr source
    ∧ contextManager w1 !! deviceType self = Some c1
    ∧ devices c1 = devices c
    ∧ cachedPrograms c1 !! source = Some program
    ∧ kernelCreate program kernelName = CL_SUCCESS
    ∧ directAccess (cloud self) = true ∧ rowMajor (cloud self) = false
    ∧ knnKernel w1 = Some {| kernelProgram := program; kernelName := kernelName;
                             kernelArgs := {[ 0%nat := BufCloud ]} |}
    ∧ indices w1 = indices w ∧ dists2 w1 = dists2 w.
Proof.
  intros Hrun.
  destruct (contextManager w !! deviceType self) as [c|] eqn:Hc;
    [|by rewrite initOpenCL_no_context in Hrun].
  destruct (last (devices c)) as [back|] eqn:Hback;
    [|by rewrite (initOpenCL_no_device _ _ _ _ _ c) in Hrun].
  destruct (fst (defines self back defs w)) as [e|source] eqn:Hdef;
    [by rewrite (initOpenCL_no_header _ _ _ _ _ c back e) in Hrun|].
  exists c, back, source.
  assert (Hmap : ∀ program (wX : World T) w',
    (setKernel {| kernelProgram := program; kernelName := kernelName;
                  kernelArgs := ∅ |};;
     if negb (directAccess (cloud self)) || rowMajor (cloud self) then
       throw (runtime_error "wrong memory mapping in point cloud")
     else setArg 0 BufCloud) wX = (inr tt, w') →
    directAccess (cloud self) = true ∧ rowMajor (cloud self) = false
    ∧ w' = withKernel wX {| kernelProgram := program; kernelName := kernelName;
                            kernelArgs := {[ 0%nat := BufCloud ]} |}).
  { intros program wX w' Hk. rewrite kernelSetup_spec in Hk.
    destruct (negb (directAccess (cloud self)) || rowMajor (cloud self)) eqn:Em;
      [discriminate Hk|].
    apply orb_false_iff in Em as [Ea Eb]. apply negb_false_iff in Ea.
    by injection Hk as <-. }
  destruct (cachedPrograms c !! source) as [program|] eqn:Hhit.
  - rewrite (initOpenCL_cached _ _ _ _ _ c back source program) in Hrun by done.
    destruct (kernelCreate program kernelName =? CL_SUCCESS) eqn:Ek;
      [|discriminate Hrun].
    apply Z.eqb_eq in Ek. apply Hmap in Hrun as (Ha & Hb & ->).
    exists c, program. by repeat split.
  - destruct (fst (loadFiles [OPENCL_SOURCE_DIR +:+ "structure.cl";
                              OPENCL_SOURCE_DIR +:+ "heap.cl";
                              OPENCL_SOURCE_DIR +:+ clFileName] w))
      as [e|files] eqn:Hfiles;
      [by rewrite (initOpenCL_no_file _ _ _ _ _ c back source e) in Hrun|].
    destruct (Z.eq_dec (programBuild (source :: files) (devices c)) CL_SUCCESS)
      as [Hok|Hfail].
    + rewrite (initOpenCL_built _ _ _ _ _ c back source files) in Hrun by done.
      cbn zeta in Hrun.
      destruct (kernelCreate _ kernelName =? CL_SUCCESS) eqn:Ek; [|discriminate Hrun].
      apply Z.eqb_eq in Ek. apply Hmap in Hrun as (Ha & Hb & ->).
      eexists _, _. split; [done|]. split; [done|]. split; [done|].
      split; [apply lookup_insert_eq|]. split; [done|].
      split; [apply lookup_insert_eq|]. by repeat split.
    + by rewrite (initOpenCL_failed_build _ _ _ _ _ c back source files) in Hrun.
Qed.

(** A further call, in any state with the same contexts, finds the
    program in the cache. *)
Lemma initOpenCL_rerun (self self' : Search T) clFileName clFileName' kernelName defs
    (w w1 w2 : World T) :
  initOpenCL self clFileName kernelName defs w = (inr tt, w1) →
  scalarKind self' = scalarKind self → dim self' = dim self →
  stride (cloud self') = stride (cloud self) →
  creationOptionFlags self' = creationOptionFlags self →
  deviceType self' = deviceType self →
  directAccess (cloud self') = directAccess (cloud self) →
  rowMajor (cloud self') = rowMajor (cloud self) →
  contextManager w2 = contextManager w1 →
  ∃ kernel, knnKernel w1 = Some kernel
    ∧ kernelArgs kernel = {[ 0%nat := BufCloud ]}
    ∧ initOpenCL self' clFileName' kernelName defs w2 = (inr tt, withKernel w2 kernel).
Proof.
  intros Hrun Hkind Hdim Hstride Hflags Hdt Hdirect Hcol Hcm.
  apply initOpenCL_inr_inv in Hrun
    as (c & back & source & c1 & program & Hc & Hback & Hdef & Hc1 & Hdev1 & Hhit
        & Hkernel & Ha & Hb & Hk1 & Hi1 & Hd1).
  eexists. split; [exact Hk1|]. split; [done|].
  rewrite (initOpenCL_cached self' clFileName' kernelName defs w2 c1 back source
             program).
  - rewrite Hkernel. change (CL_SUCCESS =? CL_SUCCESS) with true. cbn match.
    by rewrite kernelSetup_spec, Hdirect, Hcol, Ha, Hb.
  - by rewrite Hcm, Hdt.
  - by rewrite Hdev1.
  - rewrite (defines_pure self' back defs w w2). cbn [fst]. rewrite <- Hdef.
    unfold defines, bind. by rewrite Hkind, Hdim, Hstride, Hflags.
  - done.
Qed.

Lemma withKernel_same (w : World T) k : knnKernel w = Some k → withKernel w k = w.
Proof. intros Hk. unfold withKernel. rewrite <- Hk. by destruct w. Qed.

#[export] Instance cacheGrows_preorder : PreOrder (@cacheGrows T).
Proof.
  split.
  - intros w. split; [done|]. split; [|done]. intros dt c Hc. by exists c.
  - intros w1 w2 w3 (Hn & Hs & He & Hi & Hd) (Hn' & Hs' & He' & Hi' & Hd').
    split; [by auto|]. split.
    + intros dt c Hc. destruct (Hs dt c Hc) as (c2 & Hc2 & Hd2 & Hp2).
      destruct (Hs' dt c2 Hc2) as (c3 & Hc3 & Hd3 & Hp3).
      exists c3. split; [done|]. split; [congruence|]. by auto.
    + split; [by etrans|]. split; congruence.
Qed.

Lemma cacheGrows_withKernel (w : World T) k : cacheGrows w (withKernel w k).
Proof. split; [done|]. split; [|done]. intros dt c Hc. by exists c. Qed.

Lemma cacheGrows_insert (w : World T) dt c source program logs :
  contextManager w !! dt = Some c → cachedPrograms c !! source = None →
  cacheGrows w
    {| contextManager :=
         <[dt := {| devices := devices c;
                    cachedPrograms := <[source := program]> (cachedPrograms c) |}]>
           (contextManager w);
       cerr := cerr w ++ logs; knnKernel := knnKernel w;
       indices := indices w; dists2 := dists2 w |}.
Proof.
  intros Hc Hmiss. split; [|split; [|split; [|done]]]; cbn.
  - intros dt' Hnone. rewrite lookup_insert_ne; [done|]. congruence.
  - intros dt' c' Hc'. destruct (decide (dt' = dt)) as [->|Hne].
    + rewrite Hc in Hc'. injection Hc' as <-. eexists. split; [apply lookup_insert_eq|].
      split; [done|]. intros s p Hp. cbn. rewrite lookup_insert_ne; [done|]. congruence.
    + exists c'. rewrite lookup_insert_ne by done. done.
  - by apply prefix_app_r.
Qed.

Lemma cacheGrows_kernelSetup (self : Search T) program kernelName (w : World T) :
  cacheGrows w
    (snd ((setKernel {| kernelProgram := program; kernelName := kernelName;
                        kernelArgs := ∅ |};;
           if negb (directAccess (cloud self)) || rowMajor (cloud self) then
             throw (runtime_error "wrong memory mapping in point cloud")
           else setArg 0 BufCloud) w)).
Proof.
  rewrite kernelSetup_spec. destruct (_ || _); apply cacheGrows_withKernel.
Qed.
End InitFacts.

(** A file that cannot be opened stops [initOpenCL] before anything is
    compiled or cached: when the generated source is not in the cache and
    [file] is the first of the three files (the two shared ones, then the
    kernel file) that cannot be opened, [initOpenCL] throws
    [cannot open file: ] followed by its path and the state is the one the
    call started in. *)
Theorem initOpenCL_missing_file `{Platform T} (self : Search T)
    (clFileName kernelName defs : string) (w : World T) (c : SourceCacher)
    (back : Device) (source : string) (pre post : list string) (file : string) :
  contextManager w !! deviceType self = Some c →
  last (devices c) = Some back →
  fst (defines self back defs w) = inr source →
  cachedPrograms c !! source = None →
  [OPENCL_SOURCE_DIR +:+ "structure.cl"; OPENCL_SOURCE_DIR +:+ "heap.cl";
   OPENCL_SOURCE_DIR +:+ clFileName] = pre ++ file :: post →
  Forall (λ f, is_Some (readFile f)) pre →
  readFile file = None →
  initOpenCL self clFileName kernelName defs w
  = (inl (runtime_error ("cannot open file: " +:+ file)), w).
Proof.
  intros Hc Hback Hdef Hmiss Hsplit Hpre Hfile.
  apply (initOpenCL_no_file self clFileName kernelName defs w c back source);
    try done.
  rewrite Hsplit. by rewrite loadFiles_missing.
Qed.

(** When [initOpenCL] returns for a generated source that was not in the
    cache, it has read the three files, the build has succeeded, the kernel
    has been created and the cloud is column-major with direct access; the
    built program is then in the cache under the generated source, the name
    and the compilation log of every device are on the error stream (they
    are written after every build, failed or not), and the kernel of the
    object is a fresh kernel of that program with the cloud bound at slot 0
    and nothing else. *)
Theorem initOpenCL_compiles_and_caches `{Platform T} (self : Search T)
    (clFileName kernelName defs : string) (w w1 : World T) (c : SourceCacher)
    (back : Device) (source : string) :
  contextManager w !! deviceType self = Some c →
  last (devices c) = Some back →
  fst (defines self back defs w) = inr source →
  cachedPrograms c !! source = None →
  initOpenCL self clFileName kernelName defs w = (inr tt, w1) →
  ∃ files,
    fst (loadFiles [OPENCL_SOURCE_DIR +:+ "structure.cl";
                    OPENCL_SOURCE_DIR +:+ "heap.cl";
                    OPENCL_SOURCE_DIR +:+ clFileName] w) = inr files
    ∧ programBuild (source :: files) (devices c) = CL_SUCCESS
    ∧ kernelCreate {| programSources := source :: files; programBuilt := true |}
        kernelName = CL_SUCCESS
    ∧ directAccess (cloud self) = true ∧ rowMajor (cloud self) = false
    ∧ w1 = {| contextManager :=
                <[deviceType self :=
                    {| devices := devices c;
                       cachedPrograms :=
                         <[source := {| programSources := source :: files;
                                        programBuilt := true |}]>
                           (cachedPrograms c) |}]>
                  (contextManager w);
              cerr := cerr w ++ compileLogs (source :: files) (devices c);
              knnKernel :=
                Some {| kernelProgram := {| programSources := source :: files;
                                            programBuilt := true |};
                        kernelName := kernelName;
                        kernelArgs := {[ 0%nat := BufCloud ]} |};
              indices := indices w; dists2 := dists2 w |}.
Proof.
  intros Hc Hback Hdef Hmiss Hrun.
  destruct (fst (loadFiles [OPENCL_SOURCE_DIR +:+ "structure.cl";
                            OPENCL_SOURCE_DIR +:+ "heap.cl";
                            OPENCL_SOURCE_DIR +:+ clFileName] w))
    as [e|files] eqn:Hfiles;
    [by rewrite (initOpenCL_no_file _ _ _ _ _ c back source e) in Hrun|].
  exists files. split; [done|].
  destruct (Z.eq_dec (programBuild (source :: files) (devices c)) CL_SUCCESS)
    as [Hok|Hfail];
    [|by rewrite (initOpenCL_failed_build _ _ _ _ _ c back source files) in Hrun].
  split; [done|].
  rewrite (initOpenCL_built _ _ _ _ _ c back source files) in Hrun by done.
  cbn zeta in Hrun.
  destruct (kernelCreate _ kernelName =? CL_SUCCESS) eqn:Ek; [|discriminate Hrun].
  apply Z.eqb_eq in Ek. split; [done|].
  rewrite kernelSetup_spec in Hrun.
  destruct (negb (directAccess (cloud self)) || rowMajor (cloud self)) eqn:Em;
    [discriminate Hrun|].
  apply orb_false_iff in Em as [Ea Eb]. apply negb_false_iff in Ea.
  split; [done|]. split; [done|]. by injection Hrun as <-.
Qed.

(** The program cache is keyed by the generated macro header alone.  Once
    [initOpenCL] has returned for a search object, a further call for any
    search object with the same scalar type, dimension, stride, creation
    flags and device type, the same additional defines and the same kernel
    name finds the program in the cache, whatever kernel file it names:
    however that call ends, it has read no file, compiled nothing and
    written nothing to the error stream, so the contexts with their caches
    and the error stream are as they were; and if it returns, its kernel is
    a kernel of the program that the earlier call used, compiled from the
    kernel file of an earlier call, with the cloud bound at slot 0. *)
Theorem initOpenCL_cache_key_is_header `{Platform T} (self self' : Search T)
    (clFileName clFileName' kernelName defs : string) (w w1 w2 : World T)
    (res : exn + unit) :
  initOpenCL self clFileName kernelName defs w = (inr tt, w1) →
  scalarKind self' = scalarKind self → dim self' = dim self →
  stride (cloud self') = stride (cloud self) →
  creationOptionFlags self' = creationOptionFlags self →
  deviceType self' = deviceType self →
  initOpenCL self' clFileName' kernelName defs w1 = (res, w2) →
  contextManager w2 = contextManager w1
  ∧ cerr w2 = cerr w1
  ∧ (res = inr tt →
     ∃ kernel1 kernel2,
       knnKernel w1 = Some kernel1 ∧ knnKernel w2 = Some kernel2
       ∧ kernelProgram kernel2 = kernelProgram kernel1
       ∧ kernelArgs kernel2 = {[ 0%nat := BufCloud ]}).
Proof.
  intros Hrun Hkind Hdim Hstride Hflags Hdt Hrun2.
  apply initOpenCL_inr_inv in Hrun
    as (c & back & source & c1 & program & Hc & Hback & Hdef & Hc1 & Hdev1 & Hhit
        & Hkernel & Ha & Hb & Hk1 & Hi1 & Hd1).
  rewrite (initOpenCL_cached self' clFileName' kernelName defs w1 c1 back source
             program) in Hrun2.
  - rewrite Hkernel in Hrun2. change (CL_SUCCESS =? CL_SUCCESS) with true in Hrun2.
    cbn match in Hrun2. rewrite kernelSetup_spec in Hrun2.
    destruct (negb (directAccess (cloud self')) || rowMajor (cloud self'));
      injection Hrun2 as <- <-.
    + split; [done|]. split; [done|]. intros [=].
    + split; [done|]. split; [done|]. intros _.
      eexists _, _. split; [exact Hk1|]. split; [reflexivity|]. done.
  - by rewrite Hdt.
  - by rewrite Hdev1.
  - rewrite (defines_pure self' back defs w w1). cbn [fst]. rewrite <- Hdef.
    unfold defines, bind. by rewrite Hkind, Hdim, Hstride, Hflags.
  - done.
Qed.

(** However [initOpenCL] ends, no context appears or disappears, the
    devices of every context stay, no program leaves a cache or is replaced
    in it (a failed build included), the error stream only grows, and the
    output matrices are not touched. *)
Theorem initOpenCL_cache_grows `{Platform T} (self : Search T)
    (clFileName kernelName defs : string) (w : World T) :
  cacheGrows w (snd (initOpenCL self clFileName kernelName defs w)).
Proof.
  destruct (contextManager w !! deviceType self) as [c|] eqn:Hc;
    [|by rewrite initOpenCL_no_context].
  destruct (last (devices c)) as [back|] eqn:Hback;
    [|by rewrite (initOpenCL_no_device _ _ _ _ _ c)].
  destruct (fst (defines self back defs w)) as [e|source] eqn:Hdef;
    [by rewrite (initOpenCL_no_header _ _ _ _ _ c back e)|].
  destruct (cachedPrograms c !! source) as [program|] eqn:Hhit.
  - rewrite (initOpenCL_cached _ _ _ _ _ c back source program) by done.
    destruct (kernelCreate program kernelName =? CL_SUCCESS); [|done].
    apply cacheGrows_kernelSetup.
  - destruct (fst (loadFiles [OPENCL_SOURCE_DIR +:+ "structure.cl";
                              OPENCL_SOURCE_DIR +:+ "heap.cl";
                              OPENCL_SOURCE_DIR +:+ clFileName] w))
      as [e|files] eqn:Hfiles;
      [by rewrite (initOpenCL_no_file _ _ _ _ _ c back source e)|].
    destruct (Z.eq_dec (programBuild (source :: files) (devices c)) CL_SUCCESS)
      as [Hok|Hfail].
    + rewrite (initOpenCL_built _ _ _ _ _ c back source files) by done. cbn zeta.
      destruct (kernelCreate _ kernelName =? CL_SUCCESS).
      * etrans; [|apply cacheGrows_kernelSetup]. by apply cacheGrows_insert.
      * cbn [snd]. by apply cacheGrows_insert.
    + rewrite (initOpenCL_failed_build _ _ _ _ _ c back source files) by done.
      cbn [snd]. by apply cacheGrows_insert.
Qed.

(** A [runtime_error] other than the one about the memory layout of the
    cloud comes out of [initOpenCL] before anything is compiled: the context
    was never created, the device lacks double precision, or a file could
    not be opened.  The state is then the one the call started in. *)
Theorem initOpenCL_early_error_keeps_state `{Platform T} (self : Search T)
    (clFileName kernelName defs : string) (w w' : World T) (what : string) :
  initOpenCL self clFileName kernelName defs w = (inl (runtime_error what), w') →
  what ≠ "wrong memory mapping in point cloud" →
  w' = w
  ∧ (what = "Attempt to get source cacher before creating a context"
     ∨ what = "The OpenCL platform does not support 64 bits double-precision floating-points scalars."
     ∨ ∃ file, what = "cannot open file: " +:+ file).
Proof.
  intros Hrun Hwhat.
  assert (Hmap : ∀ program (wX : World T),
    (setKernel {| kernelProgram := program; kernelName := kernelName;
                  kernelArgs := ∅ |};;
     if negb (directAccess (cloud self)) || rowMajor (cloud self) then
       throw (runtime_error "wrong memory mapping in point cloud")
     else setArg 0 BufCloud) wX ≠ (inl (runtime_error what), w')).
  { intros program wX. rewrite kernelSetup_spec. destruct (_ || _); congruence. }
  destruct (contextManager w !! deviceType self) as [c|] eqn:Hc.
  2:{ rewrite initOpenCL_no_context in Hrun by done. injection Hrun as <- <-.
      split; [done|]. by left. }
  destruct (last (devices c)) as [back|] eqn:Hback;
    [|by rewrite (initOpenCL_no_device _ _ _ _ _ c) in Hrun].
  destruct (fst (defines self back defs w)) as [e|source] eqn:Hdef.
  { rewrite (initOpenCL_no_header _ _ _ _ _ c back e) in Hrun by done.
    injection Hrun as -> <-. apply defines_inl in Hdef. injection Hdef as ->.
    split; [done|]. right. by left. }
  destruct (cachedPrograms c !! source) as [program|] eqn:Hhit.
  - rewrite (initOpenCL_cached _ _ _ _ _ c back source program) in Hrun by done.
    destruct (kernelCreate program kernelName =? CL_SUCCESS); [|discriminate Hrun].
    by apply Hmap in Hrun.
  - destruct (fst (loadFiles [OPENCL_SOURCE_DIR +:+ "structure.cl";
                              OPENCL_SOURCE_DIR +:+ "heap.cl";
                              OPENCL_SOURCE_DIR +:+ clFileName] w))
      as [e|files] eqn:Hfiles.
    { rewrite (initOpenCL_no_file _ _ _ _ _ c back source e) in Hrun by done.
      injection Hrun as -> <-. apply loadFiles_inl in Hfiles as (file & _ & Hfile).
      injection Hfile as ->. split; [done|]. right. right. by exists file. }
    destruct (Z.eq_dec (programBuild (source :: files) (devices c)) CL_SUCCESS)
      as [Hok|Hfail].
    + rewrite (initOpenCL_built _ _ _ _ _ c back source files) in Hrun by done.
      cbn zeta in Hrun.
      destruct (kernelCreate _ kernelName =? CL_SUCCESS); [|discriminate Hrun].
      by apply Hmap in Hrun.
    + by rewrite (initOpenCL_failed_build _ _ _ _ _ c back source files) in Hrun.
Qed.

(** ** The context manager and the constructors *)

Section ContextFacts.
Context {T : Type} `{Platform T}.

Lemma createContext_present deviceType (w : World T) c :
  contextManager w !! deviceType = Some c → createContext deviceType w = (inr tt, w).
Proof. intros Hc. unfold createContext, bind, get. by rewrite Hc. Qed.

Lemma createContext_inr deviceType (w w1 : World T) :
  createContext deviceType w = (inr tt, w1) →
  (∃ c, contextManager w !! deviceType = Some c ∧ w1 = w)
  ∨ (contextManager w !! deviceType = None
     ∧ ∃ ds, contextDevices deviceType = Some ds ∧ ds ≠ []
        ∧ w1 = {| contextManager :=
                    <[deviceType := {| devices := ds; cachedPrograms := ∅ |}]>
                      (contextManager w);
                  cerr := cerr w; knnKernel := knnKernel w;
                  indices := indices w; dists2 := dists2 w |}).
Proof.
  unfold createContext, bind, get.
  destruct (contextManager w !! deviceType) as [c|] eqn:Hc.
  - intros [= <-]. left. by exists c.
  - unfold newSourceCacher.
    destruct (contextDevices deviceType) as [[|d ds]|]; try discriminate.
    unfold ret, setCacher. intros [= <-]. right. split; [done|].
    by exists (d :: ds).
Qed.
End ContextFacts.

Section ConstructorFacts.
Context {T : Type} `{Scalar T} `{NthElement} `{Platform T}.

Lemma bind_ext {A B} (c : M (World T) A) (k k' : A → M (World T) B) w :
  (∀ a w', k a w' = k' a w') → bind c k w = bind c k' w.
Proof. intros Hk. unfold bind. destruct (c w) as [[e|a] w']; [done|apply Hk]. Qed.

Lemma defined_Some {A} what (a : A) (w : World T) :
  defined what (Some a) w = (inr a, w).
Proof. done. Qed.

Lemma block_length (self : Search T) column :
  (Z.to_nat (dim self) <= length column)%nat →
  length (block self column) = Z.to_nat (dim self).
Proof. intros Hc. unfold block. rewrite length_take. lia. Qed.

Lemma computeBounds_length (self : Search T) lo hi :
  length (minBound self) = Z.to_nat (dim self) →
  length (maxBound self) = Z.to_nat (dim self) →
  Forall (λ c, (Z.to_nat (dim self) <= length c)%nat) (columns (cloud self)) →
  computeBounds self = (lo, hi) →
  length lo = Z.to_nat (dim self) ∧ length hi = Z.to_nat (dim self).
Proof.
  intros Hmin Hmax Hcols Hb.
  destruct (boundsLoop_spec (Z.to_nat (dim self)) (columns (cloud self))
              (minBound self) (maxBound self) Hmin Hmax Hcols lo hi Hb)
    as (? & ? & _). done.
Qed.

Lemma to_unsigned_small z : 0 <= z < 2 ^ 32 → to_unsigned z = z.
Proof. intros Hz. unfold to_unsigned, INT_BITS. by rewrite Z.mod_small. Qed.

(** The build points of the points-in-leaves constructor. *)
Lemma leaves_buildPoints_wf (self : Search T) :
  cols (cloud self) < 2 ^ 31 →
  Forall (λ c, (Z.to_nat (dim self) <= length c)%nat) (columns (cloud self)) →
  Forall (PtInLeaves.wfPoint (Z.to_nat (dim self)))
    (imap (λ i column, {| PtInLeaves.pos := block self column;
                          PtInLeaves.index := Z.of_nat i |})
          (columns (cloud self))).
Proof.
  intros Hn Hcols. unfold cols in Hn. apply Forall_lookup. intros i bp Hbp.
  apply list_lookup_imap_Some in Hbp as (column & Hcol & ->).
  split; cbn.
  - apply block_length. by eapply Forall_lookup in Hcols.
  - apply lookup_lt_Some in Hcol. change (2 ^ 31) with 2147483648 in *. lia.
Qed.

Lemma leaves_buildPoints_index (self : Search T) :
  PtInLeaves.index <$>
    imap (λ i column, {| PtInLeaves.pos := block self column;
                         PtInLeaves.index := Z.of_nat i |})
         (columns (cloud self))
  = Z.of_nat <$> seq 0 (length (columns (cloud self))).
Proof.
  apply list_eq. intros i. rewrite !list_lookup_fmap, list_lookup_imap.
  destruct (columns (cloud self) !! i) as [column|] eqn:Hcol; cbn.
  - apply lookup_lt_Some in Hcol. by rewrite lookup_seq_lt.
  - apply lookup_ge_None in Hcol. by rewrite lookup_seq_ge.
Qed.

Lemma nodes_buildPoints_wf (self : Search T) :
  Forall (λ c, (Z.to_nat (dim self) <= length c)%nat) (columns (cloud self)) →
  Forall (PtInNodes.wfIndex (cloud self) (Z.to_nat (dim self)))
    (Z.of_nat <$> seq 0 (length (columns (cloud self)))).
Proof.
  intros Hcols. apply Forall_fmap, Forall_forall. intros i Hi.
  apply elem_of_seq in Hi. cbn. split; [lia|]. rewrite Nat2Z.id.
  destruct (columns (cloud self) !! i) as [column|] eqn:Hcol.
  - exists column. split; [done|]. by eapply Forall_lookup in Hcols.
  - apply lookup_ge_None in Hcol. lia.
Qed.
End ConstructorFacts.

(** The context manager keeps one source cacher per device type.  After
    [createContext] has returned, [getSourceCacher] finds the cacher of that
    device type and a further [createContext] changes nothing; a cacher that
    was there is kept as it is, with its programs, and a new one has at
    least one device and an empty cache; the cachers of the other device
    types are not touched. *)
Theorem createContext_then_getSourceCacher `{Platform T} (deviceType : Z)
    (w w1 : World T) :
  createContext deviceType w = (inr tt, w1) →
  (∃ c, getSourceCacher deviceType w1 = (inr c, w1)
        ∧ (contextManager w !! deviceType = Some c
           ∨ contextManager w !! deviceType = None
             ∧ devices c ≠ [] ∧ cachedPrograms c = ∅))
  ∧ createContext deviceType w1 = (inr tt, w1)
  ∧ (is_Some (contextManager w !! deviceType) → w1 = w)
  ∧ (∀ dt, dt ≠ deviceType → contextManager w1 !! dt = contextManager w !! dt)
  ∧ knnKernel w1 = knnKernel w.
Proof.
  intros Hrun.
  apply createContext_inr in Hrun as [(c & Hc & ->)|(Hnone & ds & Hds & Hne & ->)].
  - split; [|split; [|split; [|split]]]; try done.
    + exists c. split; [|by left]. unfold getSourceCacher, bind, get. by rewrite Hc.
    + by apply (createContext_present _ _ c).
  - split; [|split; [|split; [|split]]]; try done.
    + eexists. split.
      * unfold getSourceCacher, bind, get. cbn [contextManager].
        by rewrite lookup_insert_eq.
      * right. by repeat split.
    + eapply createContext_present. cbn. apply lookup_insert_eq.
    + rewrite Hnone. by intros [? ?].
    + intros dt Hdt. cbn. by rewrite lookup_insert_ne.
Qed.

Lemma createContext_then_getSourceCacher_witness :
  (∃ c, @getSourceCacher Z 4 exampleContext = (inr c, exampleContext)
        ∧ (contextManager (@exampleWorld) !! 4 = Some c
           ∨ contextManager exampleWorld !! 4 = None
             ∧ devices c ≠ [] ∧ cachedPrograms c = ∅))
  ∧ @createContext Z (examplePlatform true) 4 exampleContext = (inr tt, exampleContext)
  ∧ (is_Some (contextManager exampleWorld !! 4) → exampleContext = exampleWorld)
  ∧ (∀ dt, dt ≠ 4 → contextManager exampleContext !! dt
                    = contextManager exampleWorld !! dt)
  ∧ knnKernel exampleContext = knnKernel exampleWorld.
Proof.
  apply (@createContext_then_getSourceCacher Z (examplePlatform true) 4
           exampleWorld exampleContext).
  vm_compute. reflexivity.
Defined.

(** Neither kd-tree can be built over an empty cloud.  On an empty range
    [buildNodes] reads the element at [first + leftCount], which is past
    the end, whatever the depth of recursion allowed; the points-in-leaves
    constructor stops at the assertion of [getTreeSize] before that, and
    the points-in-nodes constructor, whose [getTreeSize] accepts 0, goes on
    into [buildNodes].  Neither constructor returns. *)
Theorem kdtree_of_empty_cloud `{Scalar T} `{NthElement} `{Platform T} :
  (∀ fuel p lo hi (nodes : list (PtInLeaves.Node T)),
     PtInLeaves.buildNodes fuel [] p lo hi nodes = None)
  ∧ (∀ cloud fuel p lo hi nodes,
       PtInNodes.buildNodes cloud fuel [] p lo hi nodes = None)
  ∧ (∀ (self : Search T) defaultNode (w : World T),
       columns (cloud self) = [] →
       ∃ e, fst (KDTreeBalancedPtInLeavesStackOpenCL self defaultNode w) = inl e
            ∧ (is_Some (contextManager w !! deviceType self) →
               e = aborted "getTreeSize"))
  ∧ (∀ (self : Search T) defaultNode (w : World T),
       columns (cloud self) = [] →
       ∃ e, fst (KDTreeBalancedPtInNodesStackOpenCL self defaultNode w) = inl e
            ∧ (is_Some (contextManager w !! deviceType self) →
               e = aborted "buildNodes")).
Proof.
  split; [|split; [|split]].
  - intros [|fuel] p lo hi nodes; [done|]. cbn [PtInLeaves.buildNodes length].
    change (Z.of_nat 0 =? 1) with false. cbn match.
    pose proof (nth_element_perm _ (PtInLeaves.CompareDim (argMax (vsub hi lo)))
                  (Z.to_nat (to_size_t (Z.of_nat 0 - Z.of_nat 0 / 2)))
                  ([] : list (PtInLeaves.BuildPoint T))) as Hperm.
    apply Permutation_nil_r in Hperm. by rewrite Hperm.
  - intros cloud [|fuel] p lo hi nodes; [done|]. cbn [PtInNodes.buildNodes length].
    change (Z.of_nat 0 =? 1) with false. cbn match.
    match goal with |- context [nth_element ?c ?n []] =>
      pose proof (nth_element_perm _ c n ([] : list Z)) as Hperm end.
    apply Permutation_nil_r in Hperm. by rewrite Hperm.
  - intros self defaultNode w Hempty.
    unfold KDTreeBalancedPtInLeavesStackOpenCL, OpenCLSearch. unfold bind at 1.
    destruct (contextManager w !! deviceType self) as [c|] eqn:Hc.
    + rewrite (createContext_present _ _ c) by done.
      destruct (computeBounds self) as [lo hi]. unfold cols. rewrite Hempty.
      eexists. split; [reflexivity|done].
    + destruct (createContext (deviceType self) w) as [[e|[]] w0].
      * exists e. split; [done|]. by intros [? ?].
      * destruct (computeBounds self) as [lo hi]. unfold cols. rewrite Hempty.
        eexists. split; [reflexivity|]. by intros [? ?].
  - intros self defaultNode w Hempty.
    unfold KDTreeBalancedPtInNodesStackOpenCL, OpenCLSearch. unfold bind at 1.
    destruct (contextManager w !! deviceType self) as [c|] eqn:Hc.
    + rewrite (createContext_present _ _ c) by done.
      destruct (computeBounds self) as [lo hi]. unfold cols. rewrite Hempty.
      eexists. split; [reflexivity|done].
    + destruct (createContext (deviceType self) w) as [[e|[]] w0].
      * exists e. split; [done|]. by intros [? ?].
      * destruct (computeBounds self) as [lo hi]. unfold cols. rewrite Hempty.
        eexists. split; [reflexivity|]. by intros [? ?].
Qed.

(** On a cloud of [n >= 2] points that all have the [dim] coordinates of
    the search, the points-in-leaves constructor builds its tree without
    leaving defined behaviour and is then: create the context, compile
    with [MAX_STACK_DEPTH] two more than the depth of the tree (for
    [getTreeDepth] is applied to the size of the array), bind the nodes at
    slot 10 and keep the array. *)
Theorem KDTreeBalancedPtInLeavesStackOpenCL_stack_depth
    `{Scalar T} `{NthElement} `{Platform T} (self : Search T)
    (defaultNode : PtInLeaves.Node T) (w : World T) :
  2 <= cols (cloud self) < 2 ^ 31 →
  0 < dim self < 2 ^ 31 →
  length (minBound self) = Z.to_nat (dim self) →
  length (maxBound self) = Z.to_nat (dim self) →
  Forall (λ c, (Z.to_nat (dim self) <= length c)%nat) (columns (cloud self)) →
  ∃ nodes t,
    (∀ f, PtInLeaves.depth t < Z.of_nat f → PtInLeaves.decode f nodes 0 = Some t)
    ∧ PtInLeaves.leafIndices t ≡ₚ Z.of_nat <$> seq 0 (length (columns (cloud self)))
    ∧ PtInLeaves.getTreeSize (cols (cloud self)) = Some (Z.of_nat (length nodes))
    ∧ KDTreeBalancedPtInLeavesStackOpenCL self defaultNode w
      = (OpenCLSearch self;;
         initOpenCL self "knn_kdtree_pt_in_leaves.cl" "knnKDTree"
           (stackDepthDefine (PtInLeaves.depth t + 2));;
         setArg 10 BufNodes;;
         ret nodes) w.
Proof.
  intros Hn Hdim Hmin Hmax Hcols.
  set (dimN := Z.to_nat (dim self)) in *.
  destruct (computeBounds self) as [lo hi] eqn:Hb.
  destruct (computeBounds_length self lo hi) as [Hlo Hhi]; try done.
  set (pts := imap (λ i column, {| PtInLeaves.pos := block self column;
                                   PtInLeaves.index := Z.of_nat i |})
                   (columns (cloud self))).
  assert (Hlen : length pts = length (columns (cloud self))) by apply length_imap.
  assert (Hnn : Z.of_nat (length pts) = cols (cloud self)) by (by rewrite Hlen).
  change (2 ^ 31) with 2147483648 in Hn, Hdim.
  pose proof (leaves_getTreeSize_spec (cols (cloud self))) as Hsize.
  pose proof (highBit_range (cols (cloud self) - 1) 31) as Hr.
  destruct (highBit_spec (cols (cloud self) - 1)) as [_ Hh0]; [lia|].
  change (2 ^ 31) with 2147483648 in Hsize, Hr.
  set (h := highBit (cols (cloud self) - 1)) in *.
  assert (Hp : 2 ^ 2 <= 2 ^ (h + 2) <= 2 ^ 32) by (split; apply pow2_le_mono; lia).
  change (2 ^ 2) with 4 in Hp. change (2 ^ 32) with 4294967296 in Hp.
  set (size := 2 ^ (h + 2) - 1) in *.
  set (nodes0 := replicate (Z.to_nat size) defaultNode).
  assert (Hlen0 : Z.of_nat (length nodes0) = size)
    by (unfold nodes0; rewrite length_replicate; lia).
  destruct (leaves_build dimN pts lo hi nodes0)
    as (nodes & t & Hbuild & Hdepth & Hd & Hbuilt).
  { rewrite Hnn. change (2 ^ 31) with 2147483648. lia. }
  { unfold dimN. lia. }
  { unfold dimN. change (2 ^ 31) with 2147483648. lia. }
  { apply leaves_buildPoints_wf; [change (2 ^ 31) with 2147483648; lia|done]. }
  { done. }
  { done. }
  { rewrite Hnn, Hlen0. apply Hsize. lia. }
  destruct Hbuilt as (Hlen' & Hdec & Hperm & _).
  assert (HD : PtInLeaves.depth t = h + 1).
  { rewrite Hd, Hnn. unfold PtInLeaves.budget. fold h. lia. }
  exists nodes, t. split; [|split; [|split]].
  - intros f Hf. apply Hdec. rewrite Hnn. unfold PtInLeaves.budget. fold h. lia.
  - rewrite Hperm. unfold pts. by rewrite leaves_buildPoints_index.
  - rewrite Hsize by lia. f_equal. lia.
  - unfold KDTreeBalancedPtInLeavesStackOpenCL. apply bind_ext. intros [] w0.
    rewrite Hb. fold pts. rewrite Hsize by lia.
    unfold bind at 1. rewrite defined_Some. fold nodes0.
    rewrite Hbuild. unfold bind at 1. rewrite defined_Some.
    rewrite Hlen', Hlen0. unfold size.
    pose proof (leaves_getTreeDepth_size (cols (cloud self))) as Hds.
    fold h in Hds. rewrite Hds by (change (2 ^ 31) with 2147483648; lia).
    unfold bind at 1. rewrite defined_Some.
    rewrite to_unsigned_small by (change (2 ^ 32) with 4294967296; lia).
    rewrite HD. fold h. by replace (h + 2 + 1) with (h + 1 + 2) by lia.
Qed.

(** The same for the points-in-nodes constructor, from one point on:
    [MAX_STACK_DEPTH] is two more than the depth of the tree, and the nodes
    are bound at slot 11 or 10 according to the statistics flag. *)
Theorem KDTreeBalancedPtInNodesStackOpenCL_stack_depth
    `{Scalar T} `{NthElement} `{Platform T} (self : Search T)
    (defaultNode : PtInNodes.Node) (w : World T) :
  1 <= cols (cloud self) < 2 ^ 31 →
  0 < dim self < 2 ^ 31 →
  length (minBound self) = Z.to_nat (dim self) →
  length (maxBound self) = Z.to_nat (dim self) →
  Forall (λ c, (Z.to_nat (dim self) <= length c)%nat) (columns (cloud self)) →
  ∃ nodes t,
    (∀ f, PtInNodes.depth t < Z.of_nat f → PtInNodes.decode f nodes 0 = Some t)
    ∧ PtInNodes.pointIndices t ≡ₚ Z.of_nat <$> seq 0 (length (columns (cloud self)))
    ∧ PtInNodes.getTreeSize (cols (cloud self)) = Some (Z.of_nat (length nodes))
    ∧ KDTreeBalancedPtInNodesStackOpenCL self defaultNode w
      = (OpenCLSearch self;;
         initOpenCL self "knn_kdtree_pt_in_nodes.cl" "knnKDTree"
           (stackDepthDefine (PtInNodes.depth t + 2));;
         (if collectStatistics (creationOptionFlags self)
          then setArg 11 BufNodes else setArg 10 BufNodes);;
         ret nodes) w.
Proof.
  intros Hn Hdim Hmin Hmax Hcols.
  set (dimN := Z.to_nat (dim self)) in *.
  destruct (computeBounds self) as [lo hi] eqn:Hb.
  destruct (computeBounds_length self lo hi) as [Hlo Hhi]; try done.
  set (pts := Z.of_nat <$> seq 0 (length (columns (cloud self)))).
  assert (Hlen : length pts = length (columns (cloud self)))
    by (unfold pts; by rewrite length_fmap, length_seq).
  assert (Hnn : Z.of_nat (length pts) = cols (cloud self)) by (by rewrite Hlen).
  change (2 ^ 31) with 2147483648 in Hn, Hdim.
  pose proof (nodes_getTreeSize_spec (cols (cloud self))) as Hsize.
  pose proof (highBit_range (cols (cloud self)) 31) as Hr.
  destruct (highBit_spec (cols (cloud self))) as [_ Hh0]; [lia|].
  change (2 ^ 31) with 2147483648 in Hsize, Hr.
  set (h := highBit (cols (cloud self))) in *.
  assert (Hp : 2 ^ 1 <= 2 ^ (h + 1) <= 2 ^ 31) by (split; apply pow2_le_mono; lia).
  change (2 ^ 1) with 2 in Hp. change (2 ^ 31) with 2147483648 in Hp.
  set (size := 2 ^ (h + 1) - 1) in *.
  set (nodes0 := replicate (Z.to_nat size) defaultNode).
  assert (Hlen0 : Z.of_nat (length nodes0) = size)
    by (unfold nodes0; rewrite length_replicate; lia).
  destruct (nodes_build (cloud self) dimN pts lo hi nodes0)
    as (nodes & t & Hbuild & Hdepth & Hd & Hbuilt).
  { rewrite Hnn. change (2 ^ 31) with 2147483648. lia. }
  { unfold dimN. lia. }
  { unfold dimN. change (2 ^ 31) with 2147483648. lia. }
  { by apply nodes_buildPoints_wf. }
  { done. }
  { done. }
  { rewrite Hnn, Hlen0. apply Hsize. lia. }
  destruct Hbuilt as (Hlen' & Hdec & Hperm & _).
  assert (HD : PtInNodes.depth t = h) by (by rewrite Hd, Hnn).
  exists nodes, t. split; [|split; [|split]].
  - intros f Hf. apply Hdec. rewrite Hnn. unfold PtInNodes.budget. fold h. lia.
  - by rewrite Hperm.
  - rewrite Hsize by lia. f_equal. lia.
  - unfold KDTreeBalancedPtInNodesStackOpenCL. apply bind_ext. intros [] w0.
    rewrite Hb. fold pts. rewrite Hsize by lia.
    unfold bind at 1. rewrite defined_Some. fold nodes0.
    rewrite Hbuild. unfold bind at 1. rewrite defined_Some.
    rewrite Hlen', Hlen0. unfold size.
    pose proof (nodes_getTreeDepth_size (cols (cloud self))) as Hds.
    fold h in Hds. rewrite Hds by (change (2 ^ 31) with 2147483648; lia).
    unfold bind at 1. rewrite defined_Some.
    rewrite to_unsigned_small by (change (2 ^ 32) with 4294967296; lia).
    rewrite HD. fold h. by replace (h + 1 + 1) with (h + 2) by lia.
Qed.

Section AgainFacts.
Context {T : Type} `{Scalar T} `{NthElement} `{Platform T}.

Lemma defined_inr {A} what (o : option A) (w w' : World T) a :
  defined what o w = (inr a, w') → o = Some a ∧ w' = w.
Proof. destruct o; [|done]. by intros [= <- <-]. Qed.

Lemma withKernel_withKernel (w : World T) k k' :
  withKernel (withKernel w k) k' = withKernel w k'.
Proof. done. Qed.

(** A constructor that runs again in the state it has left: the context
    is there, the program is in the cache, and the kernel it creates and
    binds is the one that is there already. *)
Lemma init_and_bind_again (self : Search T) clFileName kernelName defs
    (binding : M (World T) unit) slot (w0 w1 w2 : World T) :
  initOpenCL self clFileName kernelName defs w0 = (inr tt, w1) →
  binding = ret tt ∨ binding = setArg slot BufNodes →
  binding w1 = (inr tt, w2) →
  OpenCLSearch self w2 = (inr tt, w2)
  ∧ (initOpenCL self clFileName kernelName defs;; binding) w2 = (inr tt, w2).
Proof.
  intros Hinit Hbinding Hbind.
  assert (Hcm : contextManager w2 = contextManager w1).
  { destruct Hbinding as [->| ->]; [by injection Hbind as <-|].
    by apply setArg_inr in Hbind as (? & _ & ->). }
  destruct (initOpenCL_rerun self self clFileName clFileName kernelName defs
              w0 w1 w2) as (kernel & Hk & Hargs & Hagain); try done.
  split.
  - apply initOpenCL_inr_inv in Hinit as (c & back & source & c1 & program & _ & _
      & _ & Hc1 & _).
    unfold OpenCLSearch. apply (createContext_present _ _ c1). by rewrite Hcm.
  - unfold bind. rewrite Hagain.
    destruct Hbinding as [->| ->].
    + injection Hbind as <-. by rewrite withKernel_same.
    + apply setArg_inr in Hbind as (kernel' & Hk' & ->).
      rewrite Hk in Hk'. injection Hk' as <-.
      unfold setArg, bind, get. cbn [knnKernel withKernel]. unfold setKernel.
      done.
Qed.
End AgainFacts.

(** Constructing a search object again, in the state that a first
    construction of the same object has left, compiles nothing: the context
    and the program are found, nothing is read, nothing is written to the
    error stream, and the construction returns, with the same node array,
    in the very state it started in. *)
Theorem constructors_reuse_the_program `{Scalar T} `{NthElement} `{Platform T}
    (self : Search T) :
  (∀ w w1, BruteForceSearchOpenCL self w = (inr tt, w1) →
           BruteForceSearchOpenCL self w1 = (inr tt, w1))
  ∧ (∀ defaultNode nodes w w1,
       KDTreeBalancedPtInLeavesStackOpenCL self defaultNode w = (inr nodes, w1) →
       KDTreeBalancedPtInLeavesStackOpenCL self defaultNode w1 = (inr nodes, w1))
  ∧ (∀ defaultNode nodes w w1,
       KDTreeBalancedPtInNodesStackOpenCL self defaultNode w = (inr nodes, w1) →
       KDTreeBalancedPtInNodesStackOpenCL self defaultNode w1 = (inr nodes, w1)).
Proof.
  split; [|split].
  - intros w w1 Hrun. unfold BruteForceSearchOpenCL in *.
    apply bind_inr in Hrun as ([] & w0 & _ & Hrun).
    destruct (computeBounds self) as [lo hi].
    destruct (init_and_bind_again self "knn_bf.cl" "knnBruteForce" EmptyString
                (ret tt) 0%nat w0 w1 w1) as [Hctx Hagain]; [done|by left|done|].
    unfold bind at 1. rewrite Hctx.
    unfold bind in Hagain.
    destruct (initOpenCL self "knn_bf.cl" "knnBruteForce" EmptyString w1)
      as [[e|[]] w']; [done|]. by injection Hagain as <-.
  - intros defaultNode nodes w w1 Hrun.
    unfold KDTreeBalancedPtInLeavesStackOpenCL in *.
    apply bind_inr in Hrun as ([] & w0 & _ & Hrun).
    destruct (computeBounds self) as [lo hi].
    apply bind_inr in Hrun as (size & w0' & [Hsize ->]%defined_inr & Hrun).
    apply bind_inr in Hrun as (nodes' & w0' & [Hbuild ->]%defined_inr & Hrun).
    apply bind_inr in Hrun as (depth & w0' & [Hdepth ->]%defined_inr & Hrun).
    apply bind_inr in Hrun as ([] & w0' & Hinit & Hrun).
    apply bind_inr in Hrun as ([] & w2 & Hbind & Hrun).
    injection Hrun as <- <-.
    destruct (init_and_bind_again self "knn_kdtree_pt_in_leaves.cl" "knnKDTree"
                (stackDepthDefine (to_unsigned (depth + 1)))
                (setArg 10 BufNodes) 10%nat w0 w0' w2) as [Hctx Hagain];
      [done|by right|done|].
    unfold bind at 1. rewrite Hctx.
    rewrite Hsize. unfold bind at 1. rewrite defined_Some.
    rewrite Hbuild. unfold bind at 1. rewrite defined_Some.
    rewrite Hdepth. unfold bind at 1. rewrite defined_Some.
    unfold bind in Hagain |- *.
    destruct (initOpenCL self _ _ _ w2) as [[e|[]] w']; [done|].
    by rewrite Hagain.
  - intros defaultNode nodes w w1 Hrun.
    unfold KDTreeBalancedPtInNodesStackOpenCL in *.
    apply bind_inr in Hrun as ([] & w0 & _ & Hrun).
    destruct (computeBounds self) as [lo hi].
    apply bind_inr in Hrun as (size & w0' & [Hsize ->]%defined_inr & Hrun).
    apply bind_inr in Hrun as (nodes' & w0' & [Hbuild ->]%defined_inr & Hrun).
    apply bind_inr in Hrun as (depth & w0' & [Hdepth ->]%defined_inr & Hrun).
    apply bind_inr in Hrun as ([] & w0' & Hinit & Hrun).
    apply bind_inr in Hrun as ([] & w2 & Hbind & Hrun).
    injection Hrun as <- <-.
    destruct (init_and_bind_again self "knn_kdtree_pt_in_nodes.cl" "knnKDTree"
                (stackDepthDefine (to_unsigned (depth + 1)))
                (if collectStatistics (creationOptionFlags self)
                 then setArg 11 BufNodes else setArg 10 BufNodes)
                (if collectStatistics (creationOptionFlags self)
                 then 11%nat else 10%nat) w0 w0' w2) as [Hctx Hagain];
      [done|right; by destruct (collectStatistics _)|done|].
    unfold bind at 1. rewrite Hctx.
    rewrite Hsize. unfold bind at 1. rewrite defined_Some.
    rewrite Hbuild. unfold bind at 1. rewrite defined_Some.
    rewrite Hdepth. unfold bind at 1. rewrite defined_Some.
    unfold bind in Hagain |- *.
    destruct (initOpenCL self _ _ _ w2) as [[e|[]] w']; [done|].
    by rewrite Hagain.
Qed.

(** ** The shape and the order of the trees *)

Lemma elem_of_take_in {A} (x : A) n l : x ∈ take n l → x ∈ l.
Proof. intros (i & Hi & _)%elem_of_take. by eapply list_elem_of_lookup_2. Qed.

Lemma elem_of_drop_in {A} (x : A) n l : x ∈ drop n l → x ∈ l.
Proof.
  intros (i & Hi)%list_elem_of_lookup. rewrite lookup_drop in Hi.
  by eapply list_elem_of_lookup_2.
Qed.

Module PtInLeavesShape.
Import PtInLeaves.

Lemma decodeCut_erase {T} (f : nat) : ∀ (a : list (Node T)) p ct,
  decodeCut f a p = Some ct → decode f a p = Some (eraseCut ct).
Proof.
  induction f as [|f IH]; intros a p ct Hd; [done|].
  cbn [decodeCut decode] in *.
  destruct (a !! Z.to_nat p) as [n|]; [|done]. cbn in *.
  destruct (dim n <=? -2); [by injection Hd as <-|].
  destruct (0 <=? dim n); [|done].
  destruct (decodeCut f a (childLeft p)) as [l|] eqn:Hl; [|done]. cbn in Hd.
  destruct (decodeCut f a (childRight p)) as [r|] eqn:Hr; [|done]. cbn in Hd.
  injection Hd as <-. by rewrite (IH _ _ _ Hl), (IH _ _ _ Hr).
Qed.

(** A decoded tree is read from its own positions only. *)
Lemma decodeCut_stable {T} (f : nat) : ∀ (a b : list (Node T)) p ct,
  decodeCut f a p = Some ct →
  (∀ q, q ∈ positions (eraseCut ct) p → b !! Z.to_nat q = a !! Z.to_nat q) →
  decodeCut f b p = Some ct.
Proof.
  induction f as [|f IH]; intros a b p ct Hd Hq; [done|].
  cbn [decodeCut] in *.
  destruct (a !! Z.to_nat p) as [n|] eqn:Hn; [|done]. cbn in Hd.
  destruct (dim n <=? -2) eqn:E1.
  - injection Hd as <-. rewrite Hq, Hn by (cbn; set_solver). cbn. by rewrite E1.
  - destruct (0 <=? dim n) eqn:E2; [|done].
    destruct (decodeCut f a (childLeft p)) as [l|] eqn:Hl; [|done]. cbn in Hd.
    destruct (decodeCut f a (childRight p)) as [r|] eqn:Hr; [|done]. cbn in Hd.
    injection Hd as <-. cbn [eraseCut positions] in Hq.
    rewrite Hq, Hn by set_solver. cbn. rewrite E1, E2.
    rewrite (IH a b _ l Hl) by (intros; apply Hq; set_solver). cbn.
    rewrite (IH a b _ r Hr) by (intros; apply Hq; set_solver). done.
Qed.

Section Induction.
Context `{Scalar T} `{NthElement}.
Variable dimN : nat.

(** An induction principle for the trees that [buildNodes] writes: a
    property [P] of a range of build points and a tree that holds of a
    one-point range and its leaf, and of a range and its split whenever it
    holds on both sides of the partition, holds of every range and the tree
    built from it. *)
Variable P : list (BuildPoint T) → CutTree T → Prop.
Hypothesis P_leaf : ∀ bp, wfPoint dimN bp → P [bp] (CLeaf (index bp)).
Hypothesis P_split : ∀ pts cutDim L nthp cv ctl ctr,
  (cutDim < dimN)%nat → Forall (wfPoint dimN) pts → (2 <= length pts)%nat →
  Z.of_nat L = Z.of_nat (length pts) - Z.of_nat (length pts) / 2 →
  nth_element (CompareDim cutDim) L pts !! L = Some nthp →
  coeff (pos nthp) cutDim = Some cv →
  cutLeaves ctl ≡ₚ index <$> take L (nth_element (CompareDim cutDim) L pts) →
  cutLeaves ctr ≡ₚ index <$> drop L (nth_element (CompareDim cutDim) L pts) →
  P (take L (nth_element (CompareDim cutDim) L pts)) ctl →
  P (drop L (nth_element (CompareDim cutDim) L pts)) ctr →
  P pts (CSplit (Z.of_nat cutDim) cv ctl ctr).

Lemma leaves_buildNodes_leaf_cut (d fuel : nat) bp p minV maxV (nodes : list (Node T)) :
  wfPoint dimN bp → 0 <= p < Z.of_nat (length nodes) →
  ∃ nodes', buildNodes (S fuel) [bp] p minV maxV nodes = Some nodes'
            ∧ built d [bp] p nodes nodes' (Leaf (index bp))
            ∧ (∀ f, (d < f)%nat → decodeCut f nodes' p = Some (CLeaf (index bp)))
            ∧ P [bp] (CLeaf (index bp)).
Proof.
  intros Hwf Hp.
  destruct (PtInLeavesFacts.leaves_buildNodes_leaf dimN d fuel bp p minV maxV nodes)
    as (nodes' & Hb & Hbuilt); [done|done|].
  exists nodes'. split; [done|]. split; [done|]. split; [|by apply P_leaf].
  intros f Hf. destruct Hbuilt as (_ & Hd & _). specialize (Hd f Hf).
  destruct f as [|f]; [done|]. cbn [decode decodeCut] in *.
  destruct (nodes' !! Z.to_nat p) as [n|]; [|done]. cbn in *.
  destruct (dim n <=? -2); [injection Hd as Hi; by rewrite Hi|].
  destruct (0 <=? dim n); [|done].
  destruct (decode f nodes' (childLeft p)); [|done]. cbn in Hd.
  destruct (decode f nodes' (childRight p)); done.
Qed.

Lemma leaves_buildNodes_ind (d : nat) : ∀ fuel pts p minV maxV (nodes : list (Node T)),
  (d < fuel)%nat → (0 < dimN)%nat → Z.of_nat dimN < 2 ^ 31 →
  Forall (wfPoint dimN) pts → length minV = dimN → length maxV = dimN →
  1 <= Z.of_nat (length pts) <= 2 ^ Z.of_nat d →
  0 <= p → (p + 2) * 2 ^ Z.of_nat d <= Z.of_nat (length nodes) + 1 →
  Z.of_nat (length nodes) < 2 ^ 62 →
  ∃ nodes' ct, buildNodes fuel pts p minV maxV nodes = Some nodes'
               ∧ built d pts p nodes nodes' (eraseCut ct)
               ∧ (∀ f, (d < f)%nat → decodeCut f nodes' p = Some ct)
               ∧ P pts ct.
Proof.
  induction d as [|d IH];
    intros fuel pts p minV maxV nodes Hf Hdim Hdim31 Hwf Hmin Hmax Hn Hp Hsz Hlen.
  { destruct pts as [|bp [|? ?]]; cbn [length] in Hn;
      [cbn in Hn; lia| |change (2 ^ Z.of_nat 0) with 1 in Hn; lia].
    destruct fuel as [|fuel]; [lia|].
    destruct (leaves_buildNodes_leaf_cut 0 fuel bp p minV maxV nodes)
      as (nodes' & ? & ? & ? & ?);
      [exact (Forall_inv Hwf)
      |change (2 ^ Z.of_nat 0) with 1 in Hsz; lia|].
    by exists nodes', (CLeaf (index bp)). }
  destruct fuel as [|fuel]; [lia|].
  pose proof (pow2_nat_pos d) as Hpd. rewrite pow2_succ_nat in Hsz, Hn.
  assert (Hpn : 0 <= p < Z.of_nat (length nodes)) by nia.
  destruct (decide (length pts = 1%nat)) as [H1|H1].
  { destruct pts as [|bp [|? ?]]; try done.
    destruct (leaves_buildNodes_leaf_cut (S d) fuel bp p minV maxV nodes)
      as (nodes' & ? & ? & ? & ?);
      [exact (Forall_inv Hwf)|done|].
    by exists nodes', (CLeaf (index bp)). }
  cbn [buildNodes].
  destruct (Z.of_nat (length pts) =? 1) eqn:E1; [lia|]. clear E1.
  set (cutDim := argMax (vsub maxV minV)).
  assert (HcutDim : (cutDim < dimN)%nat).
  { unfold cutDim.
    assert (Hl : length (vsub maxV minV) = dimN).
    { unfold vsub. rewrite length_zip_with. lia. }
    rewrite <- Hl. apply argMax_lt. intros E. rewrite E in Hl. cbn in Hl. lia. }
  assert (Hn2 : 2 <= Z.of_nat (length pts)) by lia.
  assert (Hdiv : 1 <= Z.of_nat (length pts) / 2
                 ∧ 2 * (Z.of_nat (length pts) / 2) <= Z.of_nat (length pts)
                 ∧ Z.of_nat (length pts) < 2 * (Z.of_nat (length pts) / 2) + 2).
  { pose proof (Z.div_mod (Z.of_nat (length pts)) 2).
    pose proof (Z.mod_pos_bound (Z.of_nat (length pts)) 2). lia. }
  rewrite (to_size_t_small (Z.of_nat (length pts) - Z.of_nat (length pts) / 2))
    by (change (2 ^ 62) with 4611686018427387904 in Hlen;
        change (2 ^ 64) with 18446744073709551616; nia).
  set (L := Z.to_nat (Z.of_nat (length pts) - Z.of_nat (length pts) / 2)).
  assert (HL : Z.of_nat L = Z.of_nat (length pts) - Z.of_nat (length pts) / 2)
    by (unfold L; lia).
  pose proof (nth_element_perm _ (CompareDim cutDim) L pts) as Hperm.
  pose proof (P_split pts cutDim L) as HPsplit.
  set (pts' := nth_element (CompareDim cutDim) L pts) in *.
  assert (Hlen' : length pts' = length pts) by (by rewrite Hperm).
  assert (Hwf' : Forall (wfPoint dimN) pts') by (by rewrite Hperm).
  destruct (pts' !! L) as [nthp|] eqn:Hnth;
    [|apply lookup_ge_None in Hnth; lia].
  cbn [mbind option_bind].
  assert (Hnthwf : wfPoint dimN nthp).
  { eapply Forall_forall in Hwf'; [done|]. by eapply list_elem_of_lookup_2. }
  destruct Hnthwf as [Hnthlen _].
  destruct (coeff (pos nthp) cutDim) as [cv|] eqn:Hcv;
    [|apply lookup_ge_None in Hcv; lia].
  cbn [mbind option_bind].
  rewrite store_Some by done. cbn [mbind option_bind].
  set (node := {| dim := to_int (Z.of_nat cutDim); cutVal := cv |}).
  set (nodes1 := <[Z.to_nat p := node]> nodes).
  assert (Hlen1 : length nodes1 = length nodes) by apply length_insert.
  assert (Hp62 : 0 <= p < 2 ^ 62) by lia.
  rewrite childLeft_eq, childRight_eq by done.
  destruct (IH fuel (take L pts') (2 * p + 1) minV (<[cutDim := cv]> maxV) nodes1)
    as (nodes2 & ctl & Hbl & (Hlen2 & Hdl & Hperml & Hdepl & Hexl & Hposl & Hfrl)
        & Hcl & HPl);
    [lia|done|done|by apply Forall_take|done|by rewrite length_insert
    |rewrite length_take; lia|lia|rewrite Hlen1; nia|by rewrite Hlen1|].
  rewrite Hbl. cbn [mbind option_bind].
  destruct (IH fuel (drop L pts') (2 * p + 2) (<[cutDim := cv]> minV) maxV nodes2)
    as (nodes3 & ctr & Hbr & (Hlen3 & Hdr & Hpermr & Hdepr & Hexr & Hposr & Hfrr)
        & Hcr & HPr);
    [lia|done|done|by apply Forall_drop|by rewrite length_insert|done
    |rewrite length_drop; lia|lia|rewrite Hlen2, Hlen1; nia
    |by rewrite Hlen2, Hlen1|].
  rewrite Hbr.
  set (tl := eraseCut ctl) in *. set (tr := eraseCut ctr) in *.
  exists nodes3, (CSplit (to_int (Z.of_nat cutDim)) cv ctl ctr).
  split; [done|].
  assert (HcutDimZ : to_int (Z.of_nat cutDim) = Z.of_nat cutDim).
  { apply to_int_small. change (2 ^ 31) with 2147483648 in *. lia. }
  assert (Hql : ∀ q, q ∈ positions tl (2 * p + 1) →
                     0 <= q ∧ 2 * p + 1 <= q ∧ q ∉ positions tr (2 * p + 2)).
  { intros q Hq. eapply Forall_forall in Hposl as [Hsub [Hq0 _]]; [|done].
    split; [done|]. split; [by apply inSubtree_ge|].
    intros Hqr. eapply Forall_forall in Hposr as [Hsub' _]; [|done].
    by eapply (inSubtree_children_disjoint p q). }
  assert (Hqr : ∀ q, q ∈ positions tr (2 * p + 2) → 0 <= q ∧ 2 * p + 2 <= q).
  { intros q Hq. eapply Forall_forall in Hposr as [Hsub [Hq0 _]]; [|done].
    split; [done|]. by apply inSubtree_ge. }
  assert (Hroot : nodes3 !! Z.to_nat p = Some node).
  { rewrite Hfrr, Hfrl; [|lia|intros Hq; apply Hql in Hq; lia
                         |lia|intros Hq; apply Hqr in Hq; lia].
    apply list_lookup_insert_eq. lia. }
  split; [|split].
  - cbn [eraseCut]. fold tl tr. repeat split.
    + by rewrite Hlen3, Hlen2, Hlen1.
    + intros f Hf'. destruct f as [|f]; [lia|]. cbn [decode].
      rewrite Hroot. cbn [mbind option_bind]. cbn [dim node]. rewrite HcutDimZ.
      destruct (Z.of_nat cutDim <=? -2) eqn:E1; [lia|].
      destruct (0 <=? Z.of_nat cutDim) eqn:E2; [|lia].
      rewrite childLeft_eq, childRight_eq by done.
      rewrite (PtInLeavesFacts.leaves_decode_stable f nodes2 nodes3 (2 * p + 1) tl);
        [|apply Hdl; lia|intros q Hq; apply Hql in Hq as (? & ? & ?); by apply Hfrr].
      cbn [mbind option_bind]. rewrite Hdr by lia. done.
    + cbn [leafIndices]. rewrite Hperml, Hpermr, <- fmap_app, take_drop.
      by rewrite Hperm.
    + cbn [depth]. lia.
    + intros Hex. cbn [depth]. rewrite pow2_succ_nat in Hex.
      rewrite Hexl; [lia|]. rewrite length_take. lia.
    + cbn [positions]. rewrite childLeft_eq, childRight_eq by done.
      apply Forall_cons. split; [split; [apply inSubtree_refl|done]|].
      apply Forall_app. split.
      * eapply Forall_impl; [exact Hposl|]. intros q [Hs Hb]. split.
        -- by apply inSubtree_left.
        -- by rewrite <- Hlen1.
      * eapply Forall_impl; [exact Hposr|]. intros q [Hs Hb]. split.
        -- by apply inSubtree_right.
        -- by rewrite <- Hlen1, <- Hlen2.
    + intros q Hq Hnot. cbn [positions] in Hnot.
      rewrite childLeft_eq, childRight_eq in Hnot by done.
      apply not_elem_of_cons in Hnot as [Hqp Hnot].
      apply not_elem_of_app in Hnot as [Hnl Hnr].
      rewrite Hfrr, Hfrl by done. apply list_lookup_insert_ne. lia.
  - intros f Hf'. destruct f as [|f]; [lia|]. cbn [decodeCut].
    rewrite Hroot. cbn [mbind option_bind]. cbn [dim cutVal node]. rewrite HcutDimZ.
    destruct (Z.of_nat cutDim <=? -2) eqn:E1; [lia|].
    destruct (0 <=? Z.of_nat cutDim) eqn:E2; [|lia].
    rewrite childLeft_eq, childRight_eq by done.
    rewrite (decodeCut_stable f nodes2 nodes3 (2 * p + 1) ctl);
      [|apply Hcl; lia|intros q Hq; apply Hql in Hq as (? & ? & ?); by apply Hfrr].
    cbn [mbind option_bind]. rewrite Hcr by lia. done.
  - rewrite HcutDimZ. apply (HPsplit nthp cv ctl ctr); try done.
    apply Nat2Z.inj_le. lia.
Qed.

(** The principle for the build over the whole point vector, into an
    array of [getTreeSize] nodes. *)
Lemma leaves_build_ind (pts : list (BuildPoint T)) (minV maxV : list T)
    (nodes : list (Node T)) :
  1 <= Z.of_nat (length pts) < 2 ^ 31 →
  (0 < dimN)%nat → Z.of_nat dimN < 2 ^ 31 →
  Forall (wfPoint dimN) pts →
  length minV = dimN → length maxV = dimN →
  getTreeSize (Z.of_nat (length pts)) = Some (Z.of_nat (length nodes)) →
  ∃ nodes' ct,
    buildNodes (length pts) pts 0 minV maxV nodes = Some nodes'
    ∧ (∀ f, (budget (Z.of_nat (length pts)) < f)%nat →
            decodeCut f nodes' 0 = Some ct)
    ∧ cutLeaves ct ≡ₚ index <$> pts
    ∧ P pts ct.
Proof.
  intros Hn Hdim Hdim31 Hwf Hmin Hmax Hsize.
  set (n := Z.of_nat (length pts)) in *.
  destruct (leaves_budget_spec n) as (Hle & Hlt & Hfuel & Hpow); [lia|].
  change (2 ^ 31) with 2147483648 in Hn.
  rewrite leaves_getTreeSize_spec in Hsize
    by (change (2 ^ 31) with 2147483648; lia).
  injection Hsize as Hsize. rewrite Hpow in Hsize.
  assert (Hb : 2 ^ Z.of_nat (budget n) <= 2 ^ 32).
  { change (2 ^ 32) with 4294967296. lia. }
  change (2 ^ 32) with 4294967296 in Hb.
  destruct (leaves_buildNodes_ind (budget n) (length pts) pts 0 minV maxV nodes)
    as (nodes' & ct & Hbuild & Hbuilt & Hcut & HP);
    [lia|done|done|done|done|done|fold n; lia|lia|lia
    |change (2 ^ 62) with 4611686018427387904; lia|].
  exists nodes', ct. split; [done|]. split; [done|]. split; [|done].
  by destruct Hbuilt as (_ & _ & Hperm & _).
Qed.
End Induction.

Section Shape.
Context `{Scalar T} `{NthElement}.
Variable dimN : nat.

(** The trees are balanced and cut along axes of the points. *)
Local Abbreviation shaped := (λ (_ : list (BuildPoint T)) (ct : CutTree T),
  cutBalanced ct = true ∧ Forall (λ c, 0 <= c < Z.of_nat dimN) (cutDims ct)).

Lemma leaves_shaped_leaf bp : wfPoint dimN bp → shaped [bp] (CLeaf (index bp)).
Proof. intros _. split; [done|]. cbn. constructor. Qed.

Lemma leaves_shaped_split pts cutDim L nthp cv ctl ctr :
  (cutDim < dimN)%nat → Forall (wfPoint dimN) pts → (2 <= length pts)%nat →
  Z.of_nat L = Z.of_nat (length pts) - Z.of_nat (length pts) / 2 →
  nth_element (CompareDim cutDim) L pts !! L = Some nthp →
  coeff (pos nthp) cutDim = Some cv →
  cutLeaves ctl ≡ₚ index <$> take L (nth_element (CompareDim cutDim) L pts) →
  cutLeaves ctr ≡ₚ index <$> drop L (nth_element (CompareDim cutDim) L pts) →
  shaped (take L (nth_element (CompareDim cutDim) L pts)) ctl →
  shaped (drop L (nth_element (CompareDim cutDim) L pts)) ctr →
  shaped pts (CSplit (Z.of_nat cutDim) cv ctl ctr).
Proof.
  intros Hc Hwf Hn HL Hnth Hcv Hpl Hpr [Hbl Hdl] [Hbr Hdr].
  pose proof (nth_element_perm _ (CompareDim cutDim) L pts) as Hperm.
  assert (Hlen : length (nth_element (CompareDim cutDim) L pts) = length pts)
    by (by rewrite Hperm).
  assert (Hdiv : 2 * (Z.of_nat (length pts) / 2) <= Z.of_nat (length pts)
                 ∧ Z.of_nat (length pts) < 2 * (Z.of_nat (length pts) / 2) + 2).
  { pose proof (Z.div_mod (Z.of_nat (length pts)) 2).
    pose proof (Z.mod_pos_bound (Z.of_nat (length pts)) 2). lia. }
  split.
  - cbn [cutBalanced]. rewrite Hbl, Hbr, !andb_true_r.
    rewrite Hpl, Hpr, !length_fmap, length_take, length_drop, Hlen.
    apply orb_true_iff.
    destruct (decide (2 * Z.of_nat L = Z.of_nat (length pts))) as [E|E].
    + left. apply Nat.eqb_eq. lia.
    + right. apply Nat.eqb_eq. lia.
  - cbn [cutDims]. apply Forall_cons. split; [lia|]. by apply Forall_app.
Qed.
End Shape.

Section Order.
Context `{Scalar T} `{NthElement} `{!NthElementOrder}.
Variable dimN : nat.

(** The trees are search trees. *)
Local Abbreviation ordered := (λ (pts : list (BuildPoint T)) (ct : CutTree T),
  ∀ pointOf, (∀ bp, bp ∈ pts → pointOf (index bp) = Some (pos bp)) →
             cutOrdered pointOf ct = true).

Lemma leaves_ordered_leaf bp : wfPoint dimN bp → ordered [bp] (CLeaf (index bp)).
Proof. intros _ pointOf _. done. Qed.

Lemma leaves_CompareDim_partition pts cutDim L i j a b x y :
  (cutDim < dimN)%nat → Forall (wfPoint dimN) pts →
  (i <= L)%nat → (L <= j)%nat →
  nth_element (CompareDim cutDim) L pts !! i = Some a →
  nth_element (CompareDim cutDim) L pts !! j = Some b →
  pos a !! cutDim = Some x → pos b !! cutDim = Some y →
  gtb x y = false.
Proof.
  intros Hc Hwf Hi Hj Ha Hb Hx Hy.
  assert (Hcoord : ∀ bp, bp ∈ pts → is_Some (pos bp !! cutDim)).
  { intros bp Hbp. eapply Forall_forall in Hwf as [Hlen _]; [|done].
    apply lookup_lt_is_Some. lia. }
  assert (Hcmp : CompareDim cutDim b a = false);
    [|unfold CompareDim, coeff in Hcmp; by rewrite Hy, Hx in Hcmp].
  apply (nth_element_partition _ (CompareDim cutDim) L pts i j a b); try done.
  - intros bp Hbp. unfold CompareDim, coeff.
    destruct (pos bp !! cutDim); [apply gtb_irrefl|done].
  - intros p1 p2 p3 _ _ _. unfold CompareDim, coeff.
    destruct (pos p1 !! cutDim), (pos p2 !! cutDim), (pos p3 !! cutDim); try done.
    intros H12 H23. by eapply gtb_trans.
  - intros p1 p2 p3 Hp1 Hp2 Hp3. unfold CompareDim, coeff.
    destruct (Hcoord p1 Hp1) as [x1 ->]. destruct (Hcoord p2 Hp2) as [x2 ->].
    destruct (Hcoord p3 Hp3) as [x3 ->]. intros H13.
    destruct (gtb_cotrans x3 x2 x1 H13); [by right|by left].
Qed.

Lemma leaves_ordered_split pts cutDim L nthp cv ctl ctr :
  (cutDim < dimN)%nat → Forall (wfPoint dimN) pts → (2 <= length pts)%nat →
  Z.of_nat L = Z.of_nat (length pts) - Z.of_nat (length pts) / 2 →
  nth_element (CompareDim cutDim) L pts !! L = Some nthp →
  coeff (pos nthp) cutDim = Some cv →
  cutLeaves ctl ≡ₚ index <$> take L (nth_element (CompareDim cutDim) L pts) →
  cutLeaves ctr ≡ₚ index <$> drop L (nth_element (CompareDim cutDim) L pts) →
  ordered (take L (nth_element (CompareDim cutDim) L pts)) ctl →
  ordered (drop L (nth_element (CompareDim cutDim) L pts)) ctr →
  ordered pts (CSplit (Z.of_nat cutDim) cv ctl ctr).
Proof.
  intros Hc Hwf Hn HL Hnth Hcv Hpl Hpr Hol Hor pointOf Hpoint.
  pose proof (nth_element_perm _ (CompareDim cutDim) L pts) as Hperm.
  set (pts' := nth_element (CompareDim cutDim) L pts) in *.
  assert (Hin : ∀ bp, bp ∈ pts' → bp ∈ pts) by (intros bp; by rewrite Hperm).
  assert (Hcoord : ∀ bp, bp ∈ pts → is_Some (pos bp !! cutDim)).
  { intros bp Hbp. eapply Forall_forall in Hwf as [Hlen _]; [|done].
    apply lookup_lt_is_Some. lia. }
  cbn [cutOrdered]. rewrite Nat2Z.id.
  rewrite Hol, Hor, !andb_true_r.
  2:{ intros bp Hbp. apply Hpoint, Hin. by eapply elem_of_drop_in. }
  2:{ intros bp Hbp. apply Hpoint, Hin. by eapply elem_of_take_in. }
  apply andb_true_iff. split; apply forallb_forall; intros i Hi;
    apply list_elem_of_In in Hi.
  - rewrite Hpl in Hi. apply list_elem_of_fmap in Hi as (bp & -> & Hbp).
    apply list_elem_of_lookup in Hbp as (a & Ha).
    apply lookup_take_Some in Ha as [Ha HaL].
    assert (Hbp : bp ∈ pts) by (apply Hin; by eapply list_elem_of_lookup_2).
    rewrite (Hpoint bp Hbp). cbn. destruct (Hcoord bp Hbp) as [x Hx]. rewrite Hx.
    apply negb_true_iff.
    eapply (leaves_CompareDim_partition pts cutDim L a L bp nthp); try done; lia.
  - rewrite Hpr in Hi. apply list_elem_of_fmap in Hi as (bp & -> & Hbp).
    apply list_elem_of_lookup in Hbp as (b & Hb).
    rewrite lookup_drop in Hb.
    assert (Hbp : bp ∈ pts) by (apply Hin; by eapply list_elem_of_lookup_2).
    rewrite (Hpoint bp Hbp). cbn. destruct (Hcoord bp Hbp) as [x Hx]. rewrite Hx.
    apply negb_true_iff.
    eapply (leaves_CompareDim_partition pts cutDim L L (L + b) nthp bp); try done; lia.
Qed.
End Order.
End PtInLeavesShape.

(** The tree that the points-in-leaves [buildNodes] writes is balanced:
    read back from the root with its cut values, it holds the indices of the
    points in its leaves, at every split the left subtree has as many
    leaves as the right one or one more, and every cut dimension is an axis
    of the points. *)
Theorem leaves_tree_is_balanced `{Scalar T} `{NthElement} (dimN : nat)
    (pts : list (PtInLeaves.BuildPoint T)) (minV maxV : list T)
    (nodes : list (PtInLeaves.Node T)) :
  1 <= Z.of_nat (length pts) < 2 ^ 31 →
  (0 < dimN)%nat → Z.of_nat dimN < 2 ^ 31 →
  Forall (PtInLeaves.wfPoint dimN) pts →
  length minV = dimN → length maxV = dimN →
  PtInLeaves.getTreeSize (Z.of_nat (length pts)) = Some (Z.of_nat (length nodes)) →
  ∃ nodes' ct,
    PtInLeaves.buildNodes (length pts) pts 0 minV maxV nodes = Some nodes'
    ∧ (∀ f, (PtInLeaves.budget (Z.of_nat (length pts)) < f)%nat →
            decodeCut f nodes' 0 = Some ct)
    ∧ cutLeaves ct ≡ₚ PtInLeaves.index <$> pts
    ∧ cutBalanced ct = true
    ∧ Forall (λ c, 0 <= c < Z.of_nat dimN) (cutDims ct).
Proof.
  intros Hn Hdim Hdim31 Hwf Hmin Hmax Hsize.
  destruct (PtInLeavesShape.leaves_build_ind dimN _
              (PtInLeavesShape.leaves_shaped_leaf dimN) (PtInLeavesShape.leaves_shaped_split dimN)
              pts minV maxV nodes)
    as (nodes' & ct & Hbuild & Hcut & Hperm & Hbal & Hdims); try done.
  by exists nodes', ct.
Qed.

(** The tree that the points-in-leaves [buildNodes] writes is a search
    tree, provided [nth_element] partitions as the standard says: along the
    cut dimension of every split, no point in the left subtree lies above
    the cut value and no point in the right subtree lies below it. *)
Theorem leaves_tree_is_ordered `{Scalar T} `{NthElement} `{!NthElementOrder}
    (dimN : nat) (pts : list (PtInLeaves.BuildPoint T)) (minV maxV : list T)
    (nodes : list (PtInLeaves.Node T)) (pointOf : Z → option (list T)) :
  1 <= Z.of_nat (length pts) < 2 ^ 31 →
  (0 < dimN)%nat → Z.of_nat dimN < 2 ^ 31 →
  Forall (PtInLeaves.wfPoint dimN) pts →
  length minV = dimN → length maxV = dimN →
  PtInLeaves.getTreeSize (Z.of_nat (length pts)) = Some (Z.of_nat (length nodes)) →
  (∀ bp, bp ∈ pts → pointOf (PtInLeaves.index bp) = Some (PtInLeaves.pos bp)) →
  ∃ nodes' ct,
    PtInLeaves.buildNodes (length pts) pts 0 minV maxV nodes = Some nodes'
    ∧ (∀ f, (PtInLeaves.budget (Z.of_nat (length pts)) < f)%nat →
            decodeCut f nodes' 0 = Some ct)
    ∧ cutLeaves ct ≡ₚ PtInLeaves.index <$> pts
    ∧ cutOrdered pointOf ct = true.
Proof.
  intros Hn Hdim Hdim31 Hwf Hmin Hmax Hsize Hpoint.
  destruct (PtInLeavesShape.leaves_build_ind dimN _
              (PtInLeavesShape.leaves_ordered_leaf dimN) (PtInLeavesShape.leaves_ordered_split dimN)
              pts minV maxV nodes)
    as (nodes' & ct & Hbuild & Hcut & Hperm & Hord); try done.
  exists nodes', ct. split; [done|]. split; [done|]. split; [done|]. by apply Hord.
Qed.

Module PtInNodesShape.
Import PtInNodes.

Section Induction.
Context `{Scalar T} `{NthElement}.
Variable cloud : Matrix T.
Variable dimN : nat.

(** The induction principle for the trees of the points-in-nodes
    [buildNodes]: a one-point range and its leaf, a two-point range and its
    split over a leaf and an absent node, and a longer range and its split
    over the trees of the two sides of the partition. *)
Variable P : list Z → Tree → Prop.
Hypothesis P_leaf : ∀ i, P [i] (Leaf i).
Hypothesis P_pair : ∀ pts cutDim first idx,
  (cutDim < dimN)%nat → Forall (wfIndex cloud dimN) pts →
  nth_element (CompareDim cloud cutDim) 1 pts = [first; idx] →
  P pts (Split (Z.of_nat cutDim) idx (Leaf first) Absent).
Hypothesis P_split : ∀ pts cutDim L idx tl tr,
  (cutDim < dimN)%nat → Forall (wfIndex cloud dimN) pts → (3 <= length pts)%nat →
  Z.of_nat L = Z.of_nat (length pts) - 1 - (Z.of_nat (length pts) - 1) / 2 →
  nth_element (CompareDim cloud cutDim) L pts !! L = Some idx →
  pointIndices tl ≡ₚ take L (nth_element (CompareDim cloud cutDim) L pts) →
  pointIndices tr ≡ₚ drop (S L) (nth_element (CompareDim cloud cutDim) L pts) →
  P (take L (nth_element (CompareDim cloud cutDim) L pts)) tl →
  P (drop (S L) (nth_element (CompareDim cloud cutDim) L pts)) tr →
  P pts (Split (Z.of_nat cutDim) idx tl tr).

Lemma nodes_buildNodes_ind (d : nat) : ∀ fuel pts p minV maxV (nodes : list Node),
  (d < fuel)%nat → (0 < dimN)%nat → Z.of_nat dimN < 2 ^ 31 →
  Forall (wfIndex cloud dimN) pts → length minV = dimN → length maxV = dimN →
  1 <= Z.of_nat (length pts) < 2 * 2 ^ Z.of_nat d →
  0 <= p → (p + 2) * 2 ^ Z.of_nat d <= Z.of_nat (length nodes) + 1 →
  Z.of_nat (length nodes) < 2 ^ 62 →
  ∃ nodes' t, buildNodes cloud fuel pts p minV maxV nodes = Some nodes'
              ∧ built d pts p nodes nodes' t
              ∧ P pts t.
Proof.
  induction d as [|d IH];
    intros fuel pts p minV maxV nodes Hf Hdim Hdim31 Hwf Hmin Hmax Hn Hp Hsz Hlen.
  { destruct pts as [|i [|? ?]]; cbn [length] in Hn;
      [cbn in Hn; lia| |change (2 ^ Z.of_nat 0) with 1 in Hn; lia].
    destruct fuel as [|fuel]; [lia|].
    destruct (PtInNodesFacts.nodes_buildNodes_leaf cloud 0 fuel i p minV maxV nodes)
      as (nodes' & ? & ?);
      [change (2 ^ Z.of_nat 0) with 1 in Hsz; lia|].
    by exists nodes', (Leaf i). }
  destruct fuel as [|fuel]; [lia|].
  pose proof (pow2_nat_pos d) as Hpd. rewrite pow2_succ_nat in Hsz, Hn.
  assert (Hpn : 0 <= p < Z.of_nat (length nodes)) by nia.
  destruct (decide (length pts = 1%nat)) as [H1|H1].
  { destruct pts as [|i [|? ?]]; try done.
    destruct (PtInNodesFacts.nodes_buildNodes_leaf cloud (S d) fuel i p minV maxV nodes)
      as (nodes' & ? & ?); [done|].
    by exists nodes', (Leaf i). }
  cbn [buildNodes].
  destruct (Z.of_nat (length pts) =? 1) eqn:E1; [lia|]. clear E1.
  set (cutDim := argMax (vsub maxV minV)).
  assert (HcutDim : (cutDim < dimN)%nat).
  { unfold cutDim.
    assert (Hl : length (vsub maxV minV) = dimN).
    { unfold vsub. rewrite length_zip_with. lia. }
    rewrite <- Hl. apply argMax_lt. intros E. rewrite E in Hl. cbn in Hl. lia. }
  assert (HcutDimZ : to_int (Z.of_nat cutDim) = Z.of_nat cutDim).
  { apply to_int_small. change (2 ^ 31) with 2147483648 in *. lia. }
  assert (Hn2 : 2 <= Z.of_nat (length pts)) by lia.
  assert (Hbig : Z.of_nat (length pts) < 2 ^ 62).
  { change (2 ^ 62) with 4611686018427387904 in *. nia. }
  rewrite (to_size_t_small (Z.of_nat (length pts) - 1))
    by (change (2 ^ 62) with 4611686018427387904 in Hbig;
        change (2 ^ 64) with 18446744073709551616; lia).
  pose proof (P_split pts cutDim) as HPsplit.
  pose proof (P_pair pts cutDim) as HPpair.
  set (m := Z.of_nat (length pts) - 1) in *.
  assert (Hdiv : 2 * (m / 2) <= m ∧ m < 2 * (m / 2) + 2).
  { pose proof (Z.div_mod m 2). pose proof (Z.mod_pos_bound m 2). lia. }
  rewrite (to_size_t_small (m - m / 2))
    by (change (2 ^ 62) with 4611686018427387904 in Hbig;
        change (2 ^ 64) with 18446744073709551616; lia).
  set (L := Z.to_nat (m - m / 2)).
  assert (HL : Z.of_nat L = m - m / 2) by (unfold L; lia).
  specialize (HPsplit L).
  pose proof (nth_element_perm _ (CompareDim cloud cutDim) L pts) as Hperm.
  set (pts' := nth_element (CompareDim cloud cutDim) L pts) in *.
  assert (Hlen' : length pts' = length pts) by (by rewrite Hperm).
  assert (Hwf' : Forall (wfIndex cloud dimN) pts') by (by rewrite Hperm).
  destruct (pts' !! L) as [idx|] eqn:Hnth;
    [|apply lookup_ge_None in Hnth; lia].
  cbn [mbind option_bind].
  assert (Hidxwf : wfIndex cloud dimN idx).
  { eapply Forall_forall in Hwf'; [done|]. by eapply list_elem_of_lookup_2. }
  destruct Hidxwf as (Hidx0 & col & Hcol & Hcollen).
  destruct (mcoeff cloud cutDim (Z.to_nat idx)) as [cv|] eqn:Hcv.
  2:{ unfold mcoeff in Hcv. rewrite Hcol in Hcv. cbn in Hcv.
      apply lookup_ge_None in Hcv. lia. }
  cbn [mbind option_bind].
  rewrite store_Some by done. cbn [mbind option_bind].
  set (node := {| dim := to_int (Z.of_nat cutDim); index := idx |}).
  set (nodes1 := <[Z.to_nat p := node]> nodes).
  assert (Hlen1 : length nodes1 = length nodes) by apply length_insert.
  assert (Hp62 : 0 <= p < 2 ^ 62) by lia.
  rewrite childLeft_eq, childRight_eq by done.
  destruct (Z.of_nat (length pts) >? 2) eqn:E2.
  - (* three points or more: recurse on both sides *)
    assert (Hn3 : 2 <= m) by lia.
    destruct (IH fuel (take L pts') (2 * p + 1) minV (<[cutDim := cv]> maxV) nodes1)
      as (nodes2 & tl & Hbl & (Hlen2 & Hdl & Hperml & Hpadl & Hdepl & Hexl
          & Hposl & Hfrl) & HPl);
      [lia|done|done|by apply Forall_take|done|by rewrite length_insert
      |rewrite length_take; lia|lia|rewrite Hlen1; nia|by rewrite Hlen1|].
    rewrite Hbl. cbn [mbind option_bind].
    destruct (IH fuel (drop (L + 1) pts') (2 * p + 2) (<[cutDim := cv]> minV)
                maxV nodes2)
      as (nodes3 & tr & Hbr & (Hlen3 & Hdr & Hpermr & Hpadr & Hdepr & Hexr
          & Hposr & Hfrr) & HPr);
      [lia|done|done|by apply Forall_drop|by rewrite length_insert|done
      |rewrite length_drop; lia|lia|rewrite Hlen2, Hlen1; nia
      |by rewrite Hlen2, Hlen1|].
    rewrite Hbr. exists nodes3, (Split (to_int (Z.of_nat cutDim)) idx tl tr).
    split; [done|].
    assert (Hql : ∀ q, q ∈ positions tl (2 * p + 1) →
                       0 <= q ∧ 2 * p + 1 <= q ∧ q ∉ positions tr (2 * p + 2)).
    { intros q Hq. eapply Forall_forall in Hposl as [Hsub [Hq0 _]]; [|done].
      split; [done|]. split; [by apply inSubtree_ge|].
      intros Hqr. eapply Forall_forall in Hposr as [Hsub' _]; [|done].
      by eapply (inSubtree_children_disjoint p q). }
    assert (Hqr : ∀ q, q ∈ positions tr (2 * p + 2) → 0 <= q ∧ 2 * p + 2 <= q).
    { intros q Hq. eapply Forall_forall in Hposr as [Hsub [Hq0 _]]; [|done].
      split; [done|]. by apply inSubtree_ge. }
    assert (Hroot : nodes3 !! Z.to_nat p = Some node).
    { rewrite Hfrr, Hfrl; [|lia|intros Hq; apply Hql in Hq; lia
                           |lia|intros Hq; apply Hqr in Hq; lia].
      apply list_lookup_insert_eq. lia. }
    split.
    { repeat split.
    + by rewrite Hlen3, Hlen2, Hlen1.
    + intros f Hf'. destruct f as [|f]; [lia|]. cbn [decode].
      rewrite Hroot. cbn [mbind option_bind]. cbn [dim index node].
      rewrite HcutDimZ.
      destruct (Z.of_nat cutDim =? -1) eqn:E3; [lia|].
      destruct (Z.of_nat cutDim =? -2) eqn:E4; [lia|].
      destruct (0 <=? Z.of_nat cutDim) eqn:E5; [|lia].
      rewrite childLeft_eq, childRight_eq by done.
      rewrite (PtInNodesFacts.nodes_decode_stable f nodes2 nodes3 (2 * p + 1) tl);
        [|apply Hdl; lia
         |intros q Hq; apply Hql in Hq as (? & ? & ?); by apply Hfrr].
      cbn [mbind option_bind]. rewrite Hdr by lia. done.
    + cbn [pointIndices]. rewrite Hperml, Hpermr.
      rewrite Permutation_middle.
      replace (L + 1)%nat with (S L) by lia.
      by rewrite take_drop_middle.
    + by apply PtInNodesFacts.absentIsPadding_Split.
    + cbn [depth]. lia.
    + cbn [depth]. lia.
    + intros Hex. cbn [depth]. rewrite pow2_succ_nat in Hex.
      rewrite Hexl; [lia|]. rewrite length_take. lia.
    + cbn [positions]. rewrite childLeft_eq, childRight_eq by done.
      apply Forall_cons. split; [split; [apply inSubtree_refl|done]|].
      apply Forall_app. split.
      * eapply Forall_impl; [exact Hposl|]. intros q [Hs Hb]. split.
        -- by apply inSubtree_left.
        -- by rewrite <- Hlen1.
      * eapply Forall_impl; [exact Hposr|]. intros q [Hs Hb]. split.
        -- by apply inSubtree_right.
        -- by rewrite <- Hlen1, <- Hlen2.
    + intros q Hq Hnot. cbn [positions] in Hnot.
      rewrite childLeft_eq, childRight_eq in Hnot by done.
      apply not_elem_of_cons in Hnot as [Hqp Hnot].
      apply not_elem_of_app in Hnot as [Hnl Hnr].
      rewrite Hfrr, Hfrl by done. apply list_lookup_insert_ne. lia. }
    rewrite HcutDimZ. replace (L + 1)%nat with (S L) in * by lia.
    apply (HPsplit idx tl tr); try done; lia.
  - (* two points: both children are written directly *)
    assert (Hm : m = 1) by lia.
    assert (HL1 : L = 1%nat) by (unfold L; rewrite Hm; done).
    rewrite HL1 in *.
    assert (Hpts' : ∃ first, pts' = [first; idx]).
    { destruct pts' as [|first [|idx' [|? ?]]]; cbn [length] in Hlen'; try lia.
      cbn in Hnth. injection Hnth as ->. by exists first. }
    destruct Hpts' as [first Hpts']. specialize (HPpair first idx).
    assert (Hnthel : nth_element (CompareDim cloud cutDim) 1 pts = [first; idx]).
    { rewrite <- Hpts'. unfold pts'. by rewrite HL1. }
    clearbody pts'. subst pts'.
    cbn [head mbind option_bind].
    rewrite store_Some by (rewrite Hlen1; nia). cbn [mbind option_bind].
    rewrite store_Some by (rewrite length_insert, Hlen1; nia).
    set (leaf := {| dim := -1; index := first |}).
    set (absent := {| dim := -2; index := 0 |}).
    set (nodes3 := <[Z.to_nat (2 * p + 2) := absent]>
                     (<[Z.to_nat (2 * p + 1) := leaf]> nodes1)).
    assert (Hl0 : nodes3 !! Z.to_nat p = Some node).
    { unfold nodes3, nodes1. rewrite !list_lookup_insert_ne by lia.
      apply list_lookup_insert_eq. lia. }
    assert (Hl1 : nodes3 !! Z.to_nat (2 * p + 1) = Some leaf).
    { unfold nodes3. rewrite list_lookup_insert_ne by lia.
      apply list_lookup_insert_eq. rewrite Hlen1. nia. }
    assert (Hl2 : nodes3 !! Z.to_nat (2 * p + 2) = Some absent).
    { unfold nodes3. apply list_lookup_insert_eq.
      rewrite length_insert, Hlen1. nia. }
    exists nodes3, (Split (to_int (Z.of_nat cutDim)) idx (Leaf first) Absent).
    split; [done|]. split.
    { repeat split.
    + unfold nodes3. by rewrite !length_insert.
    + intros f Hf'. destruct f as [|f]; [lia|]. cbn [decode].
      rewrite childLeft_eq, childRight_eq by done.
      rewrite Hl0. cbn [mbind option_bind]. cbn [dim index node].
      rewrite HcutDimZ.
      destruct (Z.of_nat cutDim =? -1) eqn:E3; [lia|].
      destruct (Z.of_nat cutDim =? -2) eqn:E4; [lia|].
      destruct (0 <=? Z.of_nat cutDim) eqn:E5; [|lia].
      destruct f as [|f]; [lia|]. cbn [decode].
      rewrite Hl1, Hl2. done.
    + cbn [pointIndices app]. rewrite <- Hperm. apply Permutation_swap.
    + done.
    + cbn [depth]. lia.
    + intros Hex. cbn [depth]. rewrite pow2_succ_nat in Hex.
      destruct d as [|d]; [done|]. rewrite pow2_succ_nat in Hex.
      pose proof (pow2_nat_pos d). lia.
    + cbn [positions app]. rewrite childLeft_eq, childRight_eq by done.
      repeat apply Forall_cons_2; [| | |apply Forall_nil_2].
      * split; [apply inSubtree_refl|done].
      * split; [apply inSubtree_left, inSubtree_refl|nia].
      * split; [apply inSubtree_right, inSubtree_refl|nia].
    + intros q Hq Hnot. cbn [positions app] in Hnot.
      rewrite childLeft_eq, childRight_eq in Hnot by done.
      apply not_elem_of_cons in Hnot as [Hq0 Hnot].
      apply not_elem_of_cons in Hnot as [Hq1 Hnot].
      apply not_elem_of_cons in Hnot as [Hq2 _].
      unfold nodes3, nodes1. rewrite !list_lookup_insert_ne by lia. done. }
    rewrite HcutDimZ. by apply HPpair.
Qed.

(** The principle for the build over the whole index vector, into an
    array of [getTreeSize] nodes. *)
Lemma nodes_build_ind (pts : list Z) (minV maxV : list T) (nodes : list Node) :
  1 <= Z.of_nat (length pts) < 2 ^ 31 →
  (0 < dimN)%nat → Z.of_nat dimN < 2 ^ 31 →
  Forall (wfIndex cloud dimN) pts →
  length minV = dimN → length maxV = dimN →
  getTreeSize (Z.of_nat (length pts)) = Some (Z.of_nat (length nodes)) →
  ∃ nodes' t,
    buildNodes cloud (length pts) pts 0 minV maxV nodes = Some nodes'
    ∧ (∀ f, (budget (Z.of_nat (length pts)) < f)%nat → decode f nodes' 0 = Some t)
    ∧ pointIndices t ≡ₚ pts
    ∧ P pts t.
Proof.
  intros Hn Hdim Hdim31 Hwf Hmin Hmax Hsize.
  set (n := Z.of_nat (length pts)) in *.
  destruct (nodes_budget_spec n) as (Hlt & Hle & Hfuel & Hpow); [lia|].
  destruct (highBit_spec n) as [_ Hh0]; [lia|].
  change (2 ^ 31) with 2147483648 in Hn.
  rewrite nodes_getTreeSize_spec in Hsize
    by (change (2 ^ 31) with 2147483648; lia).
  injection Hsize as Hsize. rewrite Hpow in Hsize.
  destruct (nodes_buildNodes_ind (budget n) (length pts) pts 0 minV maxV nodes)
    as (nodes' & t & Hbuild & Hbuilt & HP);
    [lia|done|done|done|done|done|fold n; lia|lia|lia
    |change (2 ^ 62) with 4611686018427387904; lia|].
  exists nodes', t. split; [done|].
  destruct Hbuilt as (_ & Hd & Hperm & _). done.
Qed.
End Induction.

Section Shape.
Context `{Scalar T} `{NthElement}.
Variable cloud : Matrix T.
Variable dimN : nat.

Local Abbreviation shaped := (λ (_ : list Z) (t : Tree),
  nodesBalanced t = true ∧ Forall (λ c, 0 <= c < Z.of_nat dimN) (nodesCutDims t)).

Lemma nodes_shaped_leaf i : shaped [i] (Leaf i).
Proof. split; [done|]. cbn. constructor. Qed.

Lemma nodes_shaped_pair pts cutDim first idx :
  (cutDim < dimN)%nat → Forall (wfIndex cloud dimN) pts →
  nth_element (CompareDim cloud cutDim) 1 pts = [first; idx] →
  shaped pts (Split (Z.of_nat cutDim) idx (Leaf first) Absent).
Proof. intros Hc _ _. split; [done|]. cbn. apply Forall_singleton. lia. Qed.

Lemma nodes_shaped_split pts cutDim L idx tl tr :
  (cutDim < dimN)%nat → Forall (wfIndex cloud dimN) pts → (3 <= length pts)%nat →
  Z.of_nat L = Z.of_nat (length pts) - 1 - (Z.of_nat (length pts) - 1) / 2 →
  nth_element (CompareDim cloud cutDim) L pts !! L = Some idx →
  pointIndices tl ≡ₚ take L (nth_element (CompareDim cloud cutDim) L pts) →
  pointIndices tr ≡ₚ drop (S L) (nth_element (CompareDim cloud cutDim) L pts) →
  shaped (take L (nth_element (CompareDim cloud cutDim) L pts)) tl →
  shaped (drop (S L) (nth_element (CompareDim cloud cutDim) L pts)) tr →
  shaped pts (Split (Z.of_nat cutDim) idx tl tr).
Proof.
  intros Hc Hwf Hn HL Hnth Hpl Hpr [Hbl Hdl] [Hbr Hdr].
  pose proof (nth_element_perm _ (CompareDim cloud cutDim) L pts) as Hperm.
  assert (Hlen : length (nth_element (CompareDim cloud cutDim) L pts) = length pts)
    by (by rewrite Hperm).
  set (m := Z.of_nat (length pts) - 1) in *.
  assert (Hdiv : 2 * (m / 2) <= m ∧ m < 2 * (m / 2) + 2).
  { pose proof (Z.div_mod m 2). pose proof (Z.mod_pos_bound m 2). lia. }
  split.
  - cbn [nodesBalanced]. rewrite Hbl, Hbr, !andb_true_r.
    rewrite Hpl, Hpr, length_take, length_drop, Hlen.
    apply orb_true_iff.
    destruct (decide (2 * Z.of_nat L = m)) as [E|E].
    + left. apply Nat.eqb_eq. lia.
    + right. apply Nat.eqb_eq. lia.
  - cbn [nodesCutDims]. apply Forall_cons. split; [lia|]. by apply Forall_app.
Qed.
End Shape.

Section Order.
Context `{Scalar T} `{NthElement} `{!NthElementOrder}.
Variable cloud : Matrix T.
Variable dimN : nat.

Local Abbreviation ordered := (λ (_ : list Z) (t : Tree), nodesOrdered cloud t = true).

Lemma wfIndex_mcoeff cutDim i :
  (cutDim < dimN)%nat → wfIndex cloud dimN i →
  is_Some (mcoeff cloud cutDim (Z.to_nat i)).
Proof.
  intros Hc (_ & col & Hcol & Hlen). unfold mcoeff. rewrite Hcol. cbn.
  apply lookup_lt_is_Some. lia.
Qed.

Lemma nodes_CompareDim_partition pts cutDim L i j a b :
  (cutDim < dimN)%nat → Forall (wfIndex cloud dimN) pts →
  (i <= L)%nat → (L <= j)%nat →
  nth_element (CompareDim cloud cutDim) L pts !! i = Some a →
  nth_element (CompareDim cloud cutDim) L pts !! j = Some b →
  0 <= a → 0 <= b →
  coordLe cloud (Z.of_nat cutDim) a b = true.
Proof.
  intros Hc Hwf Hi Hj Ha Hb Ha0 Hb0.
  pose proof (nth_element_perm _ (CompareDim cloud cutDim) L pts) as Hperm.
  assert (Hcoord : ∀ k, k ∈ pts → is_Some (mcoeff cloud cutDim (Z.to_nat k))).
  { intros k Hk. eapply Forall_forall in Hwf; [|done]. by apply wfIndex_mcoeff. }
  assert (Hina : a ∈ pts) by (rewrite <- Hperm; by eapply list_elem_of_lookup_2).
  assert (Hinb : b ∈ pts) by (rewrite <- Hperm; by eapply list_elem_of_lookup_2).
  assert (Hcmp : CompareDim cloud cutDim b a = false).
  { apply (nth_element_partition _ (CompareDim cloud cutDim) L pts i j a b); try done.
    - intros k Hk. unfold CompareDim.
      destruct (mcoeff cloud cutDim (Z.to_nat k)); [apply gtb_irrefl|done].
    - intros k1 k2 k3 _ _ _. unfold CompareDim.
      destruct (mcoeff cloud cutDim (Z.to_nat k1)),
               (mcoeff cloud cutDim (Z.to_nat k2)),
               (mcoeff cloud cutDim (Z.to_nat k3)); try done.
      intros H12 H23. by eapply gtb_trans.
    - intros k1 k2 k3 Hk1 Hk2 Hk3. unfold CompareDim.
      destruct (Hcoord k1 Hk1) as [x1 ->]. destruct (Hcoord k2 Hk2) as [x2 ->].
      destruct (Hcoord k3 Hk3) as [x3 ->]. intros H13.
      destruct (gtb_cotrans x3 x2 x1 H13); [by right|by left]. }
  unfold coordLe. rewrite Nat2Z.id. unfold CompareDim in Hcmp.
  destruct (Hcoord a Hina) as [x Hx]. destruct (Hcoord b Hinb) as [y Hy].
  rewrite Hx, Hy in *. by rewrite Hcmp.
Qed.

Lemma nodes_ordered_leaf i : ordered [i] (Leaf i).
Proof. done. Qed.

Lemma nodes_ordered_pair pts cutDim first idx :
  (cutDim < dimN)%nat → Forall (wfIndex cloud dimN) pts →
  nth_element (CompareDim cloud cutDim) 1 pts = [first; idx] →
  ordered pts (Split (Z.of_nat cutDim) idx (Leaf first) Absent).
Proof.
  intros Hc Hwf Hpts. cbn. rewrite !andb_true_r.
  pose proof (nth_element_perm _ (CompareDim cloud cutDim) 1 pts) as Hperm.
  assert (Hw : Forall (wfIndex cloud dimN) [first; idx])
    by (by rewrite <- Hpts, Hperm).
  apply Forall_cons in Hw as [[Hf0 _] [[Hi0 _] _]%Forall_cons].
  apply (nodes_CompareDim_partition pts cutDim 1 0 1 first idx); try done; try lia.
  all: by rewrite Hpts.
Qed.

Lemma nodes_ordered_split pts cutDim L idx tl tr :
  (cutDim < dimN)%nat → Forall (wfIndex cloud dimN) pts → (3 <= length pts)%nat →
  Z.of_nat L = Z.of_nat (length pts) - 1 - (Z.of_nat (length pts) - 1) / 2 →
  nth_element (CompareDim cloud cutDim) L pts !! L = Some idx →
  pointIndices tl ≡ₚ take L (nth_element (CompareDim cloud cutDim) L pts) →
  pointIndices tr ≡ₚ drop (S L) (nth_element (CompareDim cloud cutDim) L pts) →
  ordered (take L (nth_element (CompareDim cloud cutDim) L pts)) tl →
  ordered (drop (S L) (nth_element (CompareDim cloud cutDim) L pts)) tr →
  ordered pts (Split (Z.of_nat cutDim) idx tl tr).
Proof.
  intros Hc Hwf Hn HL Hnth Hpl Hpr Hol Hor.
  pose proof (nth_element_perm _ (CompareDim cloud cutDim) L pts) as Hperm.
  set (pts' := nth_element (CompareDim cloud cutDim) L pts) in *.
  assert (Hpos : ∀ k, k ∈ pts' → 0 <= k).
  { intros k Hk. rewrite Hperm in Hk. eapply Forall_forall in Hwf as [? _]; done. }
  assert (Hidx : 0 <= idx) by (apply Hpos; by eapply list_elem_of_lookup_2).
  cbn [nodesOrdered]. rewrite Hol, Hor, !andb_true_r.
  apply andb_true_iff. split; apply forallb_forall; intros k Hk;
    apply list_elem_of_In in Hk.
  - rewrite Hpl in Hk. apply list_elem_of_lookup in Hk as (a & Ha).
    apply lookup_take_Some in Ha as [Ha HaL].
    apply (nodes_CompareDim_partition pts cutDim L a L k idx); try done; try lia.
    apply Hpos. by eapply list_elem_of_lookup_2.
  - rewrite Hpr in Hk. apply list_elem_of_lookup in Hk as (b & Hb).
    rewrite lookup_drop in Hb.
    apply (nodes_CompareDim_partition pts cutDim L L (S L + b) idx k); try done; try lia.
    apply Hpos. by eapply list_elem_of_lookup_2.
Qed.
End Order.
End PtInNodesShape.

(** The tree that the points-in-nodes [buildNodes] writes is balanced:
    it holds the point indices in its leaves and splits, at every split
    the left subtree holds as many points as the right one or one more, and
    every cut dimension is an axis of the points. *)
Theorem nodes_tree_is_balanced `{Scalar T} `{NthElement} (cloud : Matrix T)
    (dimN : nat) (pts : list Z) (minV maxV : list T) (nodes : list PtInNodes.Node) :
  1 <= Z.of_nat (length pts) < 2 ^ 31 →
  (0 < dimN)%nat → Z.of_nat dimN < 2 ^ 31 →
  Forall (PtInNodes.wfIndex cloud dimN) pts →
  length minV = dimN → length maxV = dimN →
  PtInNodes.getTreeSize (Z.of_nat (length pts)) = Some (Z.of_nat (length nodes)) →
  ∃ nodes' t,
    PtInNodes.buildNodes cloud (length pts) pts 0 minV maxV nodes = Some nodes'
    ∧ (∀ f, (PtInNodes.budget (Z.of_nat (length pts)) < f)%nat →
            PtInNodes.decode f nodes' 0 = Some t)
    ∧ PtInNodes.pointIndices t ≡ₚ pts
    ∧ nodesBalanced t = true
    ∧ Forall (λ c, 0 <= c < Z.of_nat dimN) (nodesCutDims t).
Proof.
  intros Hn Hdim Hdim31 Hwf Hmin Hmax Hsize.
  destruct (PtInNodesShape.nodes_build_ind cloud dimN _
              (PtInNodesShape.nodes_shaped_leaf dimN)
              (PtInNodesShape.nodes_shaped_pair cloud dimN)
              (PtInNodesShape.nodes_shaped_split cloud dimN) pts minV maxV nodes)
    as (nodes' & t & Hbuild & Hd & Hperm & Hbal & Hdims); try done.
  by exists nodes', t.
Qed.

(** The tree that the points-in-nodes [buildNodes] writes is a search
    tree, provided [nth_element] partitions as the standard says: along the
    cut dimension of every split, no point in the left subtree lies above
    the point of the split and no point in the right subtree lies below
    it. *)
Theorem nodes_tree_is_ordered `{Scalar T} `{NthElement} `{!NthElementOrder}
    (cloud : Matrix T) (dimN : nat) (pts : list Z) (minV maxV : list T)
    (nodes : list PtInNodes.Node) :
  1 <= Z.of_nat (length pts) < 2 ^ 31 →
  (0 < dimN)%nat → Z.of_nat dimN < 2 ^ 31 →
  Forall (PtInNodes.wfIndex cloud dimN) pts →
  length minV = dimN → length maxV = dimN →
  PtInNodes.getTreeSize (Z.of_nat (length pts)) = Some (Z.of_nat (length nodes)) →
  ∃ nodes' t,
    PtInNodes.buildNodes cloud (length pts) pts 0 minV maxV nodes = Some nodes'
    ∧ (∀ f, (PtInNodes.budget (Z.of_nat (length pts)) < f)%nat →
            PtInNodes.decode f nodes' 0 = Some t)
    ∧ PtInNodes.pointIndices t ≡ₚ pts
    ∧ nodesOrdered cloud t = true.
Proof.
  intros Hn Hdim Hdim31 Hwf Hmin Hmax Hsize.
  destruct (PtInNodesShape.nodes_build_ind cloud dimN _
              (PtInNodesShape.nodes_ordered_leaf cloud)
              (PtInNodesShape.nodes_ordered_pair cloud dimN)
              (PtInNodesShape.nodes_ordered_split cloud dimN) pts minV maxV nodes)
    as (nodes' & t & Hbuild & Hd & Hperm & Hord); try done.
  by exists nodes', t.
Qed.

(** ** The slots of the trees *)

Lemma inSubtree_nonneg p q : 0 <= p → inSubtree p q → 0 <= q.
Proof.
  intros Hp (k & Hk & E). destruct (Z.le_gt_cases 0 q) as [?|Hneg]; [done|].
  pose proof (Z.pow_pos_nonneg 2 k).
  assert ((q + 1) / 2 ^ k <= 0); [|lia].
  apply Z.div_le_upper_bound; lia.
Qed.

Lemma leaves_positions_distinct (t : PtInLeaves.Tree) : ∀ p,
  0 <= p → Forall (λ q, q < 2 ^ 62) (PtInLeaves.positions t p) →
  Forall (inSubtree p) (PtInLeaves.positions t p)
  ∧ NoDup (PtInLeaves.positions t p)
  ∧ Z.of_nat (length (PtInLeaves.positions t p))
    = 2 * Z.of_nat (length (PtInLeaves.leafIndices t)) - 1.
Proof.
  induction t as [i|c l IHl r IHr]; intros p Hp Hb; cbn [PtInLeaves.positions] in *.
  - split; [apply Forall_singleton, inSubtree_refl|]. split; [apply NoDup_singleton|done].
  - apply Forall_cons in Hb as [Hp62 Hb].
    rewrite childLeft_eq, childRight_eq in * by done.
    apply Forall_app in Hb as [Hbl Hbr].
    destruct (IHl (2 * p + 1)) as (Hsl & Hnl & Hcl); [lia|done|].
    destruct (IHr (2 * p + 2)) as (Hsr & Hnr & Hcr); [lia|done|].
    split; [|split].
    + apply Forall_cons. split; [apply inSubtree_refl|]. apply Forall_app. split.
      * eapply Forall_impl; [exact Hsl|]. intros q. apply inSubtree_left.
      * eapply Forall_impl; [exact Hsr|]. intros q. apply inSubtree_right.
    + apply NoDup_cons. split.
      * intros [Hq|Hq]%elem_of_app.
        -- eapply Forall_forall in Hsl; [|done].
           apply inSubtree_ge in Hsl; lia.
        -- eapply Forall_forall in Hsr; [|done].
           apply inSubtree_ge in Hsr; lia.
      * apply NoDup_app. split; [done|]. split; [|done].
        intros q Hql Hqr.
        eapply Forall_forall in Hsl; [|done]. eapply Forall_forall in Hsr; [|done].
        assert (0 <= q) by (apply (inSubtree_nonneg (2 * p + 1)); [lia|done]).
        by eapply (inSubtree_children_disjoint p q).
    + cbn [length PtInLeaves.leafIndices]. rewrite !length_app. lia.
Qed.

Lemma nodes_positions_distinct (t : PtInNodes.Tree) : ∀ p,
  0 <= p → Forall (λ q, q < 2 ^ 62) (PtInNodes.positions t p) →
  Forall (inSubtree p) (PtInNodes.positions t p)
  ∧ NoDup (PtInNodes.positions t p)
  ∧ (length (PtInNodes.pointIndices t) <= length (PtInNodes.positions t p))%nat.
Proof.
  induction t as [i| |c i l IHl r IHr]; intros p Hp Hb; cbn [PtInNodes.positions] in *.
  - split; [apply Forall_singleton, inSubtree_refl|]. split; [apply NoDup_singleton|done].
  - split; [apply Forall_singleton, inSubtree_refl|].
    split; [apply NoDup_singleton|cbn; lia].
  - apply Forall_cons in Hb as [Hp62 Hb].
    rewrite childLeft_eq, childRight_eq in * by done.
    apply Forall_app in Hb as [Hbl Hbr].
    destruct (IHl (2 * p + 1)) as (Hsl & Hnl & Hcl); [lia|done|].
    destruct (IHr (2 * p + 2)) as (Hsr & Hnr & Hcr); [lia|done|].
    split; [|split].
    + apply Forall_cons. split; [apply inSubtree_refl|]. apply Forall_app. split.
      * eapply Forall_impl; [exact Hsl|]. intros q. apply inSubtree_left.
      * eapply Forall_impl; [exact Hsr|]. intros q. apply inSubtree_right.
    + apply NoDup_cons. split.
      * intros [Hq|Hq]%elem_of_app.
        -- eapply Forall_forall in Hsl; [|done].
           apply inSubtree_ge in Hsl; lia.
        -- eapply Forall_forall in Hsr; [|done].
           apply inSubtree_ge in Hsr; lia.
      * apply NoDup_app. split; [done|]. split; [|done].
        intros q Hql Hqr.
        eapply Forall_forall in Hsl; [|done]. eapply Forall_forall in Hsr; [|done].
        assert (0 <= q) by (apply (inSubtree_nonneg (2 * p + 1)); [lia|done]).
        by eapply (inSubtree_children_disjoint p q).
    + cbn [length PtInNodes.pointIndices]. rewrite !length_app. lia.
Qed.

(** Every node that the points-in-leaves [buildNodes] writes has a slot
    of the array to itself: the positions of the tree are pairwise
    different, there are [2n - 1] of them for [n] points, and they lie
    within the array. *)
Theorem leaves_tree_slots_are_distinct `{Scalar T} `{NthElement} (dimN : nat)
    (pts : list (PtInLeaves.BuildPoint T)) (minV maxV : list T)
    (nodes : list (PtInLeaves.Node T)) :
  1 <= Z.of_nat (length pts) < 2 ^ 31 →
  (0 < dimN)%nat → Z.of_nat dimN < 2 ^ 31 →
  Forall (PtInLeaves.wfPoint dimN) pts →
  length minV = dimN → length maxV = dimN →
  PtInLeaves.getTreeSize (Z.of_nat (length pts)) = Some (Z.of_nat (length nodes)) →
  ∃ nodes' t,
    PtInLeaves.buildNodes (length pts) pts 0 minV maxV nodes = Some nodes'
    ∧ (∀ f, (PtInLeaves.budget (Z.of_nat (length pts)) < f)%nat →
            PtInLeaves.decode f nodes' 0 = Some t)
    ∧ NoDup (PtInLeaves.positions t 0)
    ∧ Z.of_nat (length (PtInLeaves.positions t 0)) = 2 * Z.of_nat (length pts) - 1
    ∧ Forall (λ q, 0 <= q < Z.of_nat (length nodes')) (PtInLeaves.positions t 0).
Proof.
  intros Hn Hdim Hdim31 Hwf Hmin Hmax Hsize.
  destruct (leaves_build dimN pts minV maxV nodes)
    as (nodes' & t & Hbuild & _ & _ & Hlen & Hd & Hperm & _ & _ & Hpos & _); try done.
  assert (Hsmall : Z.of_nat (length nodes) < 2 ^ 62).
  { rewrite leaves_getTreeSize_spec in Hsize by lia. injection Hsize as <-.
    destruct (leaves_budget_spec (Z.of_nat (length pts))) as (_ & Hlt & _ & ->); [lia|].
    change (2 ^ 31) with 2147483648 in Hn.
    change (2 ^ 62) with 4611686018427387904. lia. }
  destruct (leaves_positions_distinct t 0) as (_ & Hnd & Hcount); [lia| |].
  { eapply Forall_impl; [exact Hpos|]. intros q [_ ?]. lia. }
  exists nodes', t. split; [done|]. split; [done|]. split; [done|]. split.
  - rewrite Hcount, Hperm. by rewrite length_fmap.
  - rewrite Hlen. eapply Forall_impl; [exact Hpos|]. by intros q [_ ?].
Qed.

(** The same for the points-in-nodes [buildNodes]: the positions of the
    tree, absent markers included, are pairwise different and lie within
    the array, so that each of the [n] points has a slot to itself. *)
Theorem nodes_tree_slots_are_distinct `{Scalar T} `{NthElement} (cloud : Matrix T)
    (dimN : nat) (pts : list Z) (minV maxV : list T) (nodes : list PtInNodes.Node) :
  1 <= Z.of_nat (length pts) < 2 ^ 31 →
  (0 < dimN)%nat → Z.of_nat dimN < 2 ^ 31 →
  Forall (PtInNodes.wfIndex cloud dimN) pts →
  length minV = dimN → length maxV = dimN →
  PtInNodes.getTreeSize (Z.of_nat (length pts)) = Some (Z.of_nat (length nodes)) →
  ∃ nodes' t,
    PtInNodes.buildNodes cloud (length pts) pts 0 minV maxV nodes = Some nodes'
    ∧ (∀ f, (PtInNodes.budget (Z.of_nat (length pts)) < f)%nat →
            PtInNodes.decode f nodes' 0 = Some t)
    ∧ NoDup (PtInNodes.positions t 0)
    ∧ (length pts <= length (PtInNodes.positions t 0) <= length nodes')%nat
    ∧ Forall (λ q, 0 <= q < Z.of_nat (length nodes')) (PtInNodes.positions t 0).
Proof.
  intros Hn Hdim Hdim31 Hwf Hmin Hmax Hsize.
  destruct (nodes_build cloud dimN pts minV maxV nodes)
    as (nodes' & t & Hbuild & _ & _ & Hlen & Hd & Hperm & _ & _ & _ & Hpos & _);
    try done.
  assert (Hsmall : Z.of_nat (length nodes) < 2 ^ 62).
  { rewrite nodes_getTreeSize_spec in Hsize by lia. injection Hsize as <-.
    destruct (nodes_budget_spec (Z.of_nat (length pts))) as (_ & Hle & _ & ->); [lia|].
    change (2 ^ 31) with 2147483648 in Hn.
    change (2 ^ 62) with 4611686018427387904. lia. }
  destruct (nodes_positions_distinct t 0) as (_ & Hnd & Hcount); [lia| |].
  { eapply Forall_impl; [exact Hpos|]. intros q [_ ?]. lia. }
  assert (Hin : Forall (λ q, 0 <= q < Z.of_nat (length nodes')) (PtInNodes.positions t 0)).
  { rewrite Hlen. eapply Forall_impl; [exact Hpos|]. by intros q [_ ?]. }
  exists nodes', t. split; [done|]. split; [done|]. split; [done|]. split; [|done].
  split; [by rewrite <- Hperm|].
  (* distinct positions within the array are no more than its slots *)
  assert (Hsub : Z.to_nat <$> PtInNodes.positions t 0 ⊆ seq 0 (length nodes')).
  { intros k (q & -> & Hq)%list_elem_of_fmap. eapply Forall_forall in Hin; [|done].
    apply elem_of_seq. lia. }
  assert (Hnd' : NoDup (Z.to_nat <$> PtInNodes.positions t 0)).
  { apply NoDup_fmap_2_strong; [|done]. intros q1 q2 Hq1 Hq2 E.
    eapply Forall_forall in Hq1; [|exact Hin]. eapply Forall_forall in Hq2; [|exact Hin].
    cbn beta in Hq1, Hq2. lia. }
  pose proof (submseteq_length _ _ (NoDup_submseteq _ _ Hnd' Hsub)) as Hle.
  by rewrite length_fmap, length_seq in Hle.
Qed.

Lemma leaves_tree_slots_are_distinct_witness :
  ∃ nodes' t,
    PtInLeaves.buildNodes 5 examplePoints 0 [0; 0] [10; 10] exampleLeavesNodes
    = Some nodes'
    ∧ (∀ f, (PtInLeaves.budget 5 < f)%nat → PtInLeaves.decode f nodes' 0 = Some t)
    ∧ NoDup (PtInLeaves.positions t 0)
    ∧ Z.of_nat (length (PtInLeaves.positions t 0)) = 2 * 5 - 1
    ∧ Forall (λ q, 0 <= q < Z.of_nat (length nodes')) (PtInLeaves.positions t 0).
Proof.
  apply (leaves_tree_slots_are_distinct (T := Z) 2 examplePoints [0; 0] [10; 10]
           exampleLeavesNodes).
  - vm_compute. split; congruence.
  - lia.
  - vm_compute. reflexivity.
  - repeat constructor; vm_compute; congruence.
  - reflexivity.
  - reflexivity.
  - reflexivity.
Defined.

Lemma nodes_tree_slots_are_distinct_witness :
  ∃ nodes' t,
    PtInNodes.buildNodes exampleCloud 5 [0; 1; 2; 3; 4] 0 [0; 0] [10; 10]
      exampleNodesNodes = Some nodes'
    ∧ (∀ f, (PtInNodes.budget 5 < f)%nat → PtInNodes.decode f nodes' 0 = Some t)
    ∧ NoDup (PtInNodes.positions t 0)
    ∧ (5 <= length (PtInNodes.positions t 0) <= length nodes')%nat
    ∧ Forall (λ q, 0 <= q < Z.of_nat (length nodes')) (PtInNodes.positions t 0).
Proof.
  apply (nodes_tree_slots_are_distinct (T := Z) exampleCloud 2 [0; 1; 2; 3; 4]
           [0; 0] [10; 10] exampleNodesNodes).
  - vm_compute. split; congruence.
  - lia.
  - vm_compute. reflexivity.
  - repeat constructor; try (vm_compute; congruence).
    all: eexists; split; [reflexivity|cbn; lia].
  - reflexivity.
  - reflexivity.
  - reflexivity.
Defined.

(** ** The further properties on the examples *)

Lemma knn_returns_only_when_witness :
  2 <= MAX_K
  ∧ stride exampleCloud = stride (cloud (exampleSearch 0))
  ∧ rows exampleCloud = rows (cloud (exampleSearch 0))
  ∧ is_Some (knnKernel exampleReady).
Proof.
  assert (Hrun : @knn Z (examplePlatform true) (exampleSearch 0) exampleCloud 2 0 0
                   exampleReady
                 = (inr 0, snd (@knn Z (examplePlatform true) (exampleSearch 0)
                                  exampleCloud 2 0 0 exampleReady)))
    by (vm_compute; reflexivity).
  destruct (@knn_returns_only_when Z (examplePlatform true) (exampleSearch 0)
              exampleCloud 2 0 0 exampleReady _ 0 Hrun)
    as (_ & Hk & Hs & Hr & _ & _ & _ & _ & _ & _ & Hkernel).
  split; [exact Hk|]. split; [exact Hs|]. split; [exact Hr|exact Hkernel].
Defined.

Lemma knn_returns_witness :
  ∃ kernel0 visitCounts,
    knnKernel exampleReady = Some kernel0
    ∧ kernelArgs kernel0 = {[ 0%nat := BufCloud ]}
    ∧ @kernelRun Z (examplePlatform true)
        {| kernelProgram := kernelProgram kernel0;
           kernelName := kernelName kernel0;
           kernelArgs := queryArgs (exampleSearch 0) 2 0 0 0 0 false
                           (kernelArgs kernel0) |}
        exampleCloud emptyMatrix emptyMatrix
      = (emptyMatrix, emptyMatrix, visitCounts).
Proof.
  assert (Hrun : @knn Z (examplePlatform true) (exampleSearch 0) exampleCloud 2 0 0
                   exampleReady
                 = (inr 0, snd (@knn Z (examplePlatform true) (exampleSearch 0)
                                  exampleCloud 2 0 0 exampleReady)))
    by (vm_compute; reflexivity).
  destruct (@knn_returns Z (examplePlatform true) (exampleSearch 0) exampleCloud
              2 0 0 exampleReady _ 0 Hrun)
    as (kernel0 & visitCounts & Hk0 & _ & Hk & _).
  exists kernel0, visitCounts. split; [exact Hk0|]. split.
  - vm_compute in Hk0. injection Hk0 as <-. reflexivity.
  - exact Hk.
Defined.

Lemma initOpenCL_missing_file_witness :
  @initOpenCL Z (examplePlatformWithout "/opencl/heap.cl") (exampleSearch 0)
    "knn_bf.cl" "knnBruteForce" EmptyString exampleContext
  = (inl (runtime_error "cannot open file: /opencl/heap.cl"), exampleContext).
Proof.
  apply (@initOpenCL_missing_file Z (examplePlatformWithout "/opencl/heap.cl")
           (exampleSearch 0) "knn_bf.cl" "knnBruteForce" EmptyString exampleContext
           {| devices := [0%nat]; cachedPrograms := ∅ |} 0%nat exampleSource
           ["/opencl/structure.cl"] ["/opencl/knn_bf.cl"] "/opencl/heap.cl").
  - reflexivity.
  - reflexivity.
  - vm_compute. reflexivity.
  - reflexivity.
  - reflexivity.
  - apply Forall_singleton. eexists. reflexivity.
  - reflexivity.
Defined.

Lemma initOpenCL_compiles_and_caches_witness :
  ∃ w1 files kernel,
    @initOpenCL Z (examplePlatform true) (exampleSearch 0)
      "knn_bf.cl" "knnBruteForce" EmptyString exampleContext = (inr tt, w1)
    ∧ fst (@loadFiles Z (examplePlatform true)
             ["/opencl/structure.cl"; "/opencl/heap.cl"; "/opencl/knn_bf.cl"]
             exampleContext) = inr files
    ∧ cerr w1 = ["device : device0" +:+ nl; "compilation log:" +:+ nl +:+ "ok" +:+ nl]
    ∧ knnKernel w1 = Some kernel
    ∧ kernelArgs kernel = {[ 0%nat := BufCloud ]}
    ∧ kernelProgram kernel
      = {| programSources := exampleSource :: files; programBuilt := true |}.
Proof.
  assert (Hrun : @initOpenCL Z (examplePlatform true) (exampleSearch 0)
                   "knn_bf.cl" "knnBruteForce" EmptyString exampleContext
                 = (inr tt, snd (@initOpenCL Z (examplePlatform true) (exampleSearch 0)
                                   "knn_bf.cl" "knnBruteForce" EmptyString
                                   exampleContext)))
    by (vm_compute; reflexivity).
  set (w1 := snd (@initOpenCL Z (examplePlatform true) (exampleSearch 0)
                    "knn_bf.cl" "knnBruteForce" EmptyString exampleContext)) in *.
  destruct (@initOpenCL_compiles_and_caches Z (examplePlatform true)
              (exampleSearch 0) "knn_bf.cl" "knnBruteForce" EmptyString
              exampleContext w1 {| devices := [0%nat]; cachedPrograms := ∅ |}
              0%nat exampleSource)
    as (files & Hfiles & _ & _ & _ & _ & Hw1).
  - reflexivity.
  - reflexivity.
  - vm_compute. reflexivity.
  - reflexivity.
  - exact Hrun.
  - exists w1, files. eexists. split; [exact Hrun|]. split; [exact Hfiles|].
    rewrite Hw1. cbn [cerr knnKernel kernelArgs kernelProgram].
    split; [reflexivity|]. split; [reflexivity|]. split; reflexivity.
Defined.

Lemma initOpenCL_cache_key_is_header_witness :
  ∃ w1 w2 kernel1 kernel2,
    @initOpenCL Z (examplePlatform true) (exampleSearch 0)
      "knn_kdtree_pt_in_leaves.cl" "knnKDTree" (stackDepthDefine 3) exampleContext
    = (inr tt, w1)
    ∧ @initOpenCL Z (examplePlatform true) exampleSearchSingle
        "knn_kdtree_pt_in_nodes.cl" "knnKDTree" (stackDepthDefine 3) w1
      = (inr tt, w2)
    ∧ contextManager w2 = contextManager w1
    ∧ cerr w2 = cerr w1
    ∧ knnKernel w1 = Some kernel1 ∧ knnKernel w2 = Some kernel2
    ∧ kernelProgram kernel2 = kernelProgram kernel1
    ∧ kernelArgs kernel2 = {[ 0%nat := BufCloud ]}.
Proof.
  assert (Hrun : @initOpenCL Z (examplePlatform true) (exampleSearch 0)
                   "knn_kdtree_pt_in_leaves.cl" "knnKDTree" (stackDepthDefine 3)
                   exampleContext
                 = (inr tt, snd (@initOpenCL Z (examplePlatform true) (exampleSearch 0)
                                   "knn_kdtree_pt_in_leaves.cl" "knnKDTree"
                                   (stackDepthDefine 3) exampleContext)))
    by (vm_compute; reflexivity).
  set (w1 := snd (@initOpenCL Z (examplePlatform true) (exampleSearch 0)
                    "knn_kdtree_pt_in_leaves.cl" "knnKDTree" (stackDepthDefine 3)
                    exampleContext)) in *.
  assert (Hrun2 : @initOpenCL Z (examplePlatform true) exampleSearchSingle
                    "knn_kdtree_pt_in_nodes.cl" "knnKDTree" (stackDepthDefine 3) w1
                  = (inr tt, snd (@initOpenCL Z (examplePlatform true)
                                    exampleSearchSingle "knn_kdtree_pt_in_nodes.cl"
                                    "knnKDTree" (stackDepthDefine 3) w1)))
    by (vm_compute; reflexivity).
  destruct (@initOpenCL_cache_key_is_header Z (examplePlatform true)
              (exampleSearch 0) exampleSearchSingle
              "knn_kdtree_pt_in_leaves.cl" "knn_kdtree_pt_in_nodes.cl" "knnKDTree"
              (stackDepthDefine 3) exampleContext w1
              (snd (@initOpenCL Z (examplePlatform true) exampleSearchSingle
                      "knn_kdtree_pt_in_nodes.cl" "knnKDTree" (stackDepthDefine 3)
                      w1))
              (inr tt) Hrun eq_refl eq_refl eq_refl eq_refl eq_refl Hrun2)
    as (Hcm & Hcerr & Hkernels).
  destruct (Hkernels eq_refl) as (kernel1 & kernel2 & Hk1 & Hk2 & Hprog & Hargs).
  exists w1. eexists. exists kernel1, kernel2.
  split; [exact Hrun|]. split; [exact Hrun2|]. split; [exact Hcm|].
  split; [exact Hcerr|]. split; [exact Hk1|]. split; [exact Hk2|].
  split; [exact Hprog|exact Hargs].
Defined.

Lemma initOpenCL_early_error_keeps_state_witness :
  ∃ w',
    @initOpenCL Z (examplePlatformWithout "/opencl/knn_bf.cl") (exampleSearch 0)
      "knn_bf.cl" "knnBruteForce" EmptyString exampleContext
    = (inl (runtime_error "cannot open file: /opencl/knn_bf.cl"), w')
    ∧ w' = exampleContext.
Proof.
  assert (Hrun : @initOpenCL Z (examplePlatformWithout "/opencl/knn_bf.cl")
                   (exampleSearch 0) "knn_bf.cl" "knnBruteForce" EmptyString
                   exampleContext
                 = (inl (runtime_error "cannot open file: /opencl/knn_bf.cl"),
                    snd (@initOpenCL Z (examplePlatformWithout "/opencl/knn_bf.cl")
                           (exampleSearch 0) "knn_bf.cl" "knnBruteForce" EmptyString
                           exampleContext)))
    by (vm_compute; reflexivity).
  eexists. split; [exact Hrun|].
  apply (@initOpenCL_early_error_keeps_state Z
           (examplePlatformWithout "/opencl/knn_bf.cl") (exampleSearch 0)
           "knn_bf.cl" "knnBruteForce" EmptyString exampleContext _ _ Hrun).
  discriminate.
Defined.

Lemma KDTreeBalancedPtInLeavesStackOpenCL_stack_depth_witness :
  ∃ nodes t,
    (∀ f, PtInLeaves.depth t < Z.of_nat f → PtInLeaves.decode f nodes 0 = Some t)
    ∧ PtInLeaves.leafIndices t ≡ₚ Z.of_nat <$> seq 0 5
    ∧ PtInLeaves.getTreeSize 5 = Some (Z.of_nat (length nodes))
    ∧ @KDTreeBalancedPtInLeavesStackOpenCL Z _ _ (examplePlatform true)
        (exampleSearch 0) exampleLeavesDefault exampleWorld
      = (@OpenCLSearch Z (examplePlatform true) (exampleSearch 0);;
         @initOpenCL Z (examplePlatform true) (exampleSearch 0)
           "knn_kdtree_pt_in_leaves.cl" "knnKDTree"
           (stackDepthDefine (PtInLeaves.depth t + 2));;
         setArg 10 BufNodes;;
         ret nodes) exampleWorld.
Proof.
  apply (@KDTreeBalancedPtInLeavesStackOpenCL_stack_depth Z _ _ (examplePlatform true)
           (exampleSearch 0) exampleLeavesDefault exampleWorld).
  - vm_compute. split; congruence.
  - vm_compute. split; congruence.
  - reflexivity.
  - reflexivity.
  - repeat constructor.
Defined.

Lemma KDTreeBalancedPtInNodesStackOpenCL_stack_depth_witness :
  ∃ nodes t,
    (∀ f, PtInNodes.depth t < Z.of_nat f → PtInNodes.decode f nodes 0 = Some t)
    ∧ PtInNodes.pointIndices t ≡ₚ Z.of_nat <$> seq 0 5
    ∧ PtInNodes.getTreeSize 5 = Some (Z.of_nat (length nodes))
    ∧ @KDTreeBalancedPtInNodesStackOpenCL Z _ _ (examplePlatform true)
        (exampleSearch 0) exampleNodesDefault exampleWorld
      = (@OpenCLSearch Z (examplePlatform true) (exampleSearch 0);;
         @initOpenCL Z (examplePlatform true) (exampleSearch 0)
           "knn_kdtree_pt_in_nodes.cl" "knnKDTree"
           (stackDepthDefine (PtInNodes.depth t + 2));;
         (if @collectStatistics Z (examplePlatform true)
               (creationOptionFlags (exampleSearch 0))
          then setArg 11 BufNodes else setArg 10 BufNodes);;
         ret nodes) exampleWorld.
Proof.
  apply (@KDTreeBalancedPtInNodesStackOpenCL_stack_depth Z _ _ (examplePlatform true)
           (exampleSearch 0) exampleNodesDefault exampleWorld).
  - vm_compute. split; congruence.
  - vm_compute. split; congruence.
  - reflexivity.
  - reflexivity.
  - repeat constructor.
Defined.

Lemma kdtree_of_empty_cloud_witness :
  (∃ e, fst (@KDTreeBalancedPtInLeavesStackOpenCL Z _ _ (examplePlatform true)
               exampleSearchEmpty exampleLeavesDefault exampleContext) = inl e
        ∧ (is_Some (contextManager exampleContext !! deviceType exampleSearchEmpty) →
           e = aborted "getTreeSize"))
  ∧ (∃ e, fst (@KDTreeBalancedPtInNodesStackOpenCL Z _ _ (examplePlatform true)
                 exampleSearchEmpty exampleNodesDefault exampleContext) = inl e
          ∧ (is_Some (contextManager exampleContext !! deviceType exampleSearchEmpty) →
             e = aborted "buildNodes")).
Proof.
  pose proof (@kdtree_of_empty_cloud Z _ _ (examplePlatform true)) as (_ & _ & Hl & Hn).
  split.
  - apply (Hl exampleSearchEmpty exampleLeavesDefault exampleContext). reflexivity.
  - apply (Hn exampleSearchEmpty exampleNodesDefault exampleContext). reflexivity.
Defined.

Lemma constructors_reuse_the_program_witness :
  @BruteForceSearchOpenCL Z _ (examplePlatform true) (exampleSearch 0) exampleReady
  = (inr tt, exampleReady)
  ∧ (∃ nodes w1,
       @KDTreeBalancedPtInLeavesStackOpenCL Z _ _ (examplePlatform true)
         (exampleSearch 0) exampleLeavesDefault exampleWorld = (inr nodes, w1)
       ∧ @KDTreeBalancedPtInLeavesStackOpenCL Z _ _ (examplePlatform true)
           (exampleSearch 0) exampleLeavesDefault w1 = (inr nodes, w1))
  ∧ (∃ nodes w1,
       @KDTreeBalancedPtInNodesStackOpenCL Z _ _ (examplePlatform true)
         (exampleSearch 0) exampleNodesDefault exampleWorld = (inr nodes, w1)
       ∧ @KDTreeBalancedPtInNodesStackOpenCL Z _ _ (examplePlatform true)
           (exampleSearch 0) exampleNodesDefault w1 = (inr nodes, w1)).
Proof.
  pose proof (@constructors_reuse_the_program Z _ _ (examplePlatform true)
                (exampleSearch 0)) as (Hb & Hl & Hn).
  split; [|split].
  - apply (Hb exampleWorld exampleReady). vm_compute. reflexivity.
  - eexists _, _. split; [vm_compute; reflexivity|].
    apply (Hl exampleLeavesDefault _ exampleWorld). vm_compute. reflexivity.
  - eexists _, _. split; [vm_compute; reflexivity|].
    apply (Hn exampleNodesDefault _ exampleWorld). vm_compute. reflexivity.
Defined.

Lemma leaves_tree_is_balanced_witness :
  ∃ nodes' ct,
    PtInLeaves.buildNodes 5 examplePoints 0 [0; 0] [10; 10] exampleLeavesNodes
    = Some nodes'
    ∧ (∀ f, (PtInLeaves.budget 5 < f)%nat → decodeCut f nodes' 0 = Some ct)
    ∧ cutLeaves ct ≡ₚ PtInLeaves.index <$> examplePoints
    ∧ cutBalanced ct = true
    ∧ Forall (λ c, 0 <= c < Z.of_nat 2) (cutDims ct).
Proof.
  apply (leaves_tree_is_balanced (T := Z) 2 examplePoints [0; 0] [10; 10]
           exampleLeavesNodes).
  - vm_compute. split; congruence.
  - lia.
  - vm_compute. reflexivity.
  - repeat constructor; vm_compute; congruence.
  - reflexivity.
  - reflexivity.
  - reflexivity.
Defined.

Lemma leaves_tree_is_ordered_witness :
  ∃ nodes' ct,
    PtInLeaves.buildNodes 5 examplePoints 0 [0; 0] [10; 10] exampleLeavesNodes
    = Some nodes'
    ∧ (∀ f, (PtInLeaves.budget 5 < f)%nat → decodeCut f nodes' 0 = Some ct)
    ∧ cutLeaves ct ≡ₚ PtInLeaves.index <$> examplePoints
    ∧ cutOrdered (λ i, columns exampleCloud !! Z.to_nat i) ct = true.
Proof.
  apply (leaves_tree_is_ordered (T := Z) 2 examplePoints [0; 0] [10; 10]
           exampleLeavesNodes (λ i, columns exampleCloud !! Z.to_nat i)).
  - vm_compute. split; congruence.
  - lia.
  - vm_compute. reflexivity.
  - repeat constructor; vm_compute; congruence.
  - reflexivity.
  - reflexivity.
  - reflexivity.
  - intros bp Hbp.
    repeat (apply elem_of_cons in Hbp as [->|Hbp]; [reflexivity|]).
    by apply elem_of_nil in Hbp.
Defined.

Lemma nodes_tree_is_balanced_witness :
  ∃ nodes' t,
    PtInNodes.buildNodes exampleCloud 5 [0; 1; 2; 3; 4] 0 [0; 0] [10; 10]
      exampleNodesNodes = Some nodes'
    ∧ (∀ f, (PtInNodes.budget 5 < f)%nat → PtInNodes.decode f nodes' 0 = Some t)
    ∧ PtInNodes.pointIndices t ≡ₚ [0; 1; 2; 3; 4]
    ∧ nodesBalanced t = true
    ∧ Forall (λ c, 0 <= c < Z.of_nat 2) (nodesCutDims t).
Proof.
  apply (nodes_tree_is_balanced (T := Z) exampleCloud 2 [0; 1; 2; 3; 4]
           [0; 0] [10; 10] exampleNodesNodes).
  - vm_compute. split; congruence.
  - lia.
  - vm_compute. reflexivity.
  - repeat constructor; try (vm_compute; congruence).
    all: eexists; split; [reflexivity|cbn; lia].
  - reflexivity.
  - reflexivity.
  - reflexivity.
Defined.

Lemma nodes_tree_is_ordered_witness :
  ∃ nodes' t,
    PtInNodes.buildNodes exampleCloud 5 [0; 1; 2; 3; 4] 0 [0; 0] [10; 10]
      exampleNodesNodes = Some nodes'
    ∧ (∀ f, (PtInNodes.budget 5 < f)%nat → PtInNodes.decode f nodes' 0 = Some t)
    ∧ PtInNodes.pointIndices t ≡ₚ [0; 1; 2; 3; 4]
    ∧ nodesOrdered exampleCloud t = true.
Proof.
  apply (nodes_tree_is_ordered (T := Z) exampleCloud 2 [0; 1; 2; 3; 4]
           [0; 0] [10; 10] exampleNodesNodes).
  - vm_compute. split; congruence.
  - lia.
  - vm_compute. reflexivity.
  - repeat constructor; try (vm_compute; congruence).
    all: eexists; split; [reflexivity|cbn; lia].
  - reflexivity.
  - reflexivity.
  - reflexivity.
Defined.

